(** * Things 3 to Google Tasks migrator: a shallow embedding

    The development follows the three Python modules of the repository:

    - [things_reader.py]: the queries of [ThingsReader] over the two
      tables [TMArea] and [TMTask];
    - [google_tasks_client.py]: the methods of [GoogleTasksClient], each a
      thin wrapper around one call of the remote service;
    - [things_to_google_tasks.py]: the driver [main], from the clean-slate
      prompt to the final [close].

    Python values keep their shape: a nullable column is an [option], a
    string is a [string], the dictionary [google_task_lists_cache] is a
    [gmap], the set [migrated_project_task_ids] is a [gset].  Exceptions
    and mutable state are threaded by a small state-and-exception monad. *)

From Stdlib Require Import ZArith Ascii String List Bool Lia.
From stdpp Require Import base strings gmap list pretty.

Local Open Scope string_scope.
Local Open Scope list_scope.
Local Open Scope Z_scope.

(** ** Python values *)

(** Truth value of a Python string: only the empty string is falsy. *)
Definition truthy (s : string) : bool := negb (String.eqb s "").

(** Truth value of a value that is either [None] or a string. *)
Definition truthy_opt (o : option string) : bool :=
  match o with
  | Some s => truthy s
  | None => false
  end.

(** What an f-string prints for a value that is [None] or a string. *)
Definition fmt (o : option string) : string :=
  match o with
  | Some s => s
  | None => "None"
  end.

(** [str.lower], on the ASCII letters. *)
Definition lower_ascii (c : ascii) : ascii :=
  let n := N_of_ascii c in
  if ((65 <=? n) && (n <=? 90))%N then ascii_of_N (n + 32) else c.

Fixpoint lower (s : string) : string :=
  match s with
  | EmptyString => EmptyString
  | String c r => String (lower_ascii c) (lower r)
  end.

(** The exceptions the modelled code can meet.  [HttpError] is the error
    class of the Google API client, raised when the service answers a
    call by an error; [TransportError] stands for a call that never
    reached the service (no connection, no valid token);
    [DoesNotExist] is peewee's error for a foreign key without a target
    row; [TypeError] and [ValueError] come from [strptime]; [SystemExit]
    is raised by [sys.exit] and is not an [Exception]. *)
Inductive Exn : Type :=
  | HttpError (status : Z)
  | TransportError
  | DoesNotExist
  | TypeError
  | ValueError
  | SystemExit (code : Z).

Inductive Res (A : Type) : Type :=
  | Ok (a : A)
  | Raise (e : Exn).
Arguments Ok {A} a.
Arguments Raise {A} e.

(** [except HttpError] *)
Definition is_HttpError (e : Exn) : bool :=
  match e with
  | HttpError _ => true
  | _ => false
  end.

(** [except ValueError] *)
Definition is_ValueError (e : Exn) : bool :=
  match e with
  | ValueError => true
  | _ => false
  end.

(** [except Exception]: everything but [SystemExit]. *)
Definition is_Exception (e : Exn) : bool :=
  match e with
  | SystemExit _ => false
  | _ => true
  end.

(** ** The state-and-exception monad *)

Definition M (S A : Type) : Type := S -> Res A * S.

Definition ret {S A} (a : A) : M S A := fun s => (Ok a, s).

Definition bind {S A B} (m : M S A) (k : A -> M S B) : M S B :=
  fun s =>
    match m s with
    | (Ok a, s') => k a s'
    | (Raise e, s') => (Raise e, s')
    end.

Definition raise {S A} (e : Exn) : M S A := fun s => (Raise e, s).

Definition gets {S A} (f : S -> A) : M S A := fun s => (Ok (f s), s).

Definition modify {S} (f : S -> S) : M S unit := fun s => (Ok tt, f s).

(** [try: m  except <class>: handler] *)
Definition try_except {S A} (m : M S A) (catches : Exn -> bool)
    (handler : Exn -> M S A) : M S A :=
  fun s =>
    match m s with
    | (Ok a, s') => (Ok a, s')
    | (Raise e, s') => if catches e then handler e s' else (Raise e, s')
    end.

(** A pure computation that may raise, run without touching the state. *)
Definition lift_res {S A} (r : Res A) : M S A := fun s => (r, s).

Declare Scope m_scope.
Delimit Scope m_scope with M.
Notation "x <- m ;; k" := (bind m (fun x => k))
  (at level 20, m at level 99, k at level 200, only parsing) : m_scope.
Notation "m ;; k" := (bind m (fun _ => k))
  (at level 100, k at level 200, only parsing, right associativity) : m_scope.
Local Open Scope m_scope.

(** [for x in xs: body x] *)
Fixpoint for_each {S A} (xs : list A) (body : A -> M S unit) : M S unit :=
  match xs with
  | [] => ret tt
  | x :: rest => body x ;; for_each rest body
  end.

(** The same for computations without state. *)
Fixpoint map_res {A B} (f : A -> Res B) (xs : list A) : Res (list B) :=
  match xs with
  | [] => Ok []
  | x :: rest =>
      match f x with
      | Raise e => Raise e
      | Ok y =>
          match map_res f rest with
          | Raise e => Raise e
          | Ok ys => Ok (y :: ys)
          end
      end
  end.

(** ** The source store: [things_reader.py] *)

(** The value of the attribute [dueDate] of a row: [None], a text, or
    another Python object (a [datetime], a number), of which only the
    truth value matters here. *)
Inductive DueValue : Type :=
  | DueNone
  | DueText (s : string)
  | DueObject (truth : bool).

Record TMArea : Type := {
  a_uuid : string;
  a_title : option string;
  a_trashed : Z
}.

(** A row of [TMTask]; [type] is 0 for a task, 1 for a project, 2 for a
    heading.  [startDate] is never selected and is left out. *)
Record TMTask : Type := {
  uuid : string;
  type : Z;
  title : option string;
  notes : option string;
  area : option string;
  project : option string;
  heading : option string;
  status : option string;
  dueDate : DueValue;
  trashed : Z
}.

Record Database : Type := {
  areas_table : list TMArea;
  tasks_table : list TMTask
}.

Record AreaDict : Type := { ad_uuid : string; ad_title : option string }.

Record ProjectDict : Type := {
  pd_uuid : string;
  pd_title : option string;
  pd_notes : option string;
  pd_area_uuid : option string
}.

Record HeadingDict : Type := { hd_uuid : string; hd_title : option string }.

(** The dictionaries of [get_tasks]. *)
Record TaskDict : Type := {
  td_uuid : string;
  td_title : option string;
  td_notes : option string;
  td_status : option string;
  td_due_date : DueValue;
  td_project_uuid : option string;
  td_area_uuid : option string;
  td_heading_uuid : option string
}.

(** The dictionaries of [get_tasks_for_project] and
    [get_tasks_for_heading], which carry no owner keys. *)
Record SubTaskDict : Type := {
  sd_uuid : string;
  sd_title : option string;
  sd_notes : option string;
  sd_status : option string;
  sd_due_date : DueValue
}.

(** [row.area.uuid if row.area else None]: peewee loads the referenced
    row on access and raises [DoesNotExist] when there is none. *)
Definition area_uuid_of (db : Database) (fk : option string)
    : Res (option string) :=
  match fk with
  | None => Ok None
  | Some u =>
      if existsb (fun a => String.eqb (a_uuid a) u) (areas_table db)
      then Ok (Some u) else Raise DoesNotExist
  end.

(** The same for the self-references [project] and [heading]. *)
Definition task_uuid_of (db : Database) (fk : option string)
    : Res (option string) :=
  match fk with
  | None => Ok None
  | Some u =>
      if existsb (fun t => String.eqb (uuid t) u) (tasks_table db)
      then Ok (Some u) else Raise DoesNotExist
  end.

(** SQL [column == value] on a nullable column. *)
Definition col_eq (c : option string) (v : string) : bool :=
  match c with
  | Some u => String.eqb u v
  | None => false
  end.

Definition is_null (c : option string) : bool :=
  match c with
  | Some _ => false
  | None => true
  end.

Definition get_areas (db : Database) : list AreaDict :=
  map (fun a => {| ad_uuid := a_uuid a; ad_title := a_title a |})
      (List.filter (fun a => a_trashed a =? 0) (areas_table db)).

Definition get_projects (db : Database) : Res (list ProjectDict) :=
  map_res
    (fun p =>
       match area_uuid_of db (area p) with
       | Raise e => Raise e
       | Ok au =>
           Ok {| pd_uuid := uuid p; pd_title := title p;
                 pd_notes := notes p; pd_area_uuid := au |}
       end)
    (List.filter (fun t => (type t =? 1) && (trashed t =? 0))
       (tasks_table db)).

Definition get_tasks (db : Database) : Res (list TaskDict) :=
  map_res
    (fun t =>
       match task_uuid_of db (project t) with
       | Raise e => Raise e
       | Ok pu =>
           match area_uuid_of db (area t) with
           | Raise e => Raise e
           | Ok au =>
               match task_uuid_of db (heading t) with
               | Raise e => Raise e
               | Ok hu =>
                   Ok {| td_uuid := uuid t; td_title := title t;
                         td_notes := notes t; td_status := status t;
                         td_due_date := dueDate t;
                         td_project_uuid := pu; td_area_uuid := au;
                         td_heading_uuid := hu |}
               end
           end
       end)
    (List.filter (fun t => (type t =? 0) && (trashed t =? 0))
       (tasks_table db)).

Definition get_headings_for_project (db : Database) (project_uuid : string)
    : list HeadingDict :=
  map (fun h => {| hd_uuid := uuid h; hd_title := title h |})
      (List.filter
         (fun t => (type t =? 2) && (trashed t =? 0)
                   && col_eq (project t) project_uuid)
         (tasks_table db)).

Definition sub_task_dict (t : TMTask) : SubTaskDict :=
  {| sd_uuid := uuid t; sd_title := title t; sd_notes := notes t;
     sd_status := status t; sd_due_date := dueDate t |}.

Definition get_tasks_for_project (db : Database) (project_uuid : string)
    : list SubTaskDict :=
  map sub_task_dict
      (List.filter
         (fun t => (type t =? 0) && (trashed t =? 0)
                   && col_eq (project t) project_uuid
                   && is_null (heading t))
         (tasks_table db)).

Definition get_tasks_for_heading (db : Database) (heading_uuid : string)
    : list SubTaskDict :=
  map sub_task_dict
      (List.filter
         (fun t => (type t =? 0) && (trashed t =? 0)
                   && col_eq (heading t) heading_uuid)
         (tasks_table db)).

(** ** Dates: [datetime.strptime(s, '%Y-%m-%d')] and [isoformat] *)

Definition char_between (lo hi : N) (c : ascii) : bool :=
  let n := N_of_ascii c in ((lo <=? n) && (n <=? hi))%N.

(** [\d], on the ASCII digits. *)
Definition is_digit (c : ascii) : bool := char_between 48 57 c.

Definition digit_value (c : ascii) : Z := Z.of_N (N_of_ascii c) - 48.

Definition is_char (x : ascii) (c : ascii) : bool := Ascii.eqb x c.

(** The matches of the group [%m], which is [1[0-2]|0[1-9]|[1-9]], at the
    head of the input, in the order the regular expression tries them;
    each with the input that is left. *)
Definition month_matches (inp : list ascii) : list (Z * list ascii) :=
  match inp with
  | c1 :: c2 :: r =>
      (if is_char "1" c1 && char_between 48 50 c2
       then [(10 + digit_value c2, r)] else [])
      ++ (if is_char "0" c1 && char_between 49 57 c2
          then [(digit_value c2, r)] else [])
      ++ (if char_between 49 57 c1 then [(digit_value c1, c2 :: r)] else [])
  | [c1] => if char_between 49 57 c1 then [(digit_value c1, [])] else []
  | [] => []
  end.

(** The matches of the group [%d], which is
    [3[0-1]|[1-2]\d|0[1-9]|[1-9]| [1-9]]. *)
Definition day_matches (inp : list ascii) : list (Z * list ascii) :=
  match inp with
  | c1 :: c2 :: r =>
      (if is_char "3" c1 && char_between 48 49 c2
       then [(30 + digit_value c2, r)] else [])
      ++ (if char_between 49 50 c1 && is_digit c2
          then [(10 * digit_value c1 + digit_value c2, r)] else [])
      ++ (if is_char "0" c1 && char_between 49 57 c2
          then [(digit_value c2, r)] else [])
      ++ (if char_between 49 57 c1 then [(digit_value c1, c2 :: r)] else [])
      ++ (if is_char " " c1 && char_between 49 57 c2
          then [(digit_value c2, r)] else [])
  | [c1] => if char_between 49 57 c1 then [(digit_value c1, [])] else []
  | [] => []
  end.

(** A literal ["-"] of the format. *)
Definition after_dash (inp : list ascii) : list (list ascii) :=
  match inp with
  | c :: r => if is_char "-" c then [r] else []
  | [] => []
  end.

(** The first match of the whole pattern, by backtracking: year, month,
    day and the unconverted rest of the input. *)
Definition pattern_match (inp : list ascii)
    : option (Z * Z * Z * list ascii) :=
  match inp with
  | y1 :: y2 :: y3 :: y4 :: r0 =>
      if is_digit y1 && is_digit y2 && is_digit y3 && is_digit y4 then
        let y := 1000 * digit_value y1 + 100 * digit_value y2
                 + 10 * digit_value y3 + digit_value y4 in
        head
          (r1 ← after_dash r0;
           '(m, r2) ← month_matches r1;
           r3 ← after_dash r2;
           '(d, r4) ← day_matches r3;
           [(y, m, d, r4)])
      else None
  | _ => None
  end.

Definition is_leap (y : Z) : bool :=
  (y mod 4 =? 0) && (negb (y mod 100 =? 0) || (y mod 400 =? 0)).

Definition days_in_month (y m : Z) : Z :=
  if m =? 2 then (if is_leap y then 29 else 28)
  else if (m =? 4) || (m =? 6) || (m =? 9) || (m =? 11) then 30
  else 31.

(** A [datetime] at midnight. *)
Record Date : Type := { year : Z; month : Z; day : Z }.

Definition strptime (s : string) : Res Date :=
  match pattern_match (list_ascii_of_string s) with
  | Some (y, m, d, []) =>
      if (1 <=? y) && (1 <=? m) && (m <=? 12)
         && (1 <=? d) && (d <=? days_in_month y m)
      then Ok {| year := y; month := m; day := d |}
      else Raise ValueError
  | Some (_, _, _, _ :: _) => Raise ValueError
  | None => Raise ValueError
  end.

Definition digit_char (n : Z) : ascii := ascii_of_N (Z.to_N (48 + n mod 10)).

(** ["%02d"] and ["%04d"] *)
Definition fmt2 (n : Z) : string :=
  String (digit_char (n / 10)) (String (digit_char n) "").

Definition fmt4 (n : Z) : string :=
  String (digit_char (n / 1000)) (String (digit_char (n / 100))
    (fmt2 n)).

Definition isoformat (dt : Date) : string :=
  fmt4 (year dt) +:+ "-" +:+ fmt2 (month dt) +:+ "-" +:+ fmt2 (day dt)
  +:+ "T00:00:00".

(** ** The destination service

    The Google Tasks service is not part of the repository.  It is
    modelled by a small in-memory stand-in with fault injection, in the
    way the repository's unit tests mock it: every remote call first
    consumes the next planned fault of its kind and, when there is none,
    acts on the stored lists and tasks.  *)

Record TaskList : Type := { tl_id : string; tl_title : option string }.

(** The request body built by [create_task]: [title] is always present,
    [notes] and [due] are present or absent. *)
Record TaskBody : Type := {
  b_title : option string;
  b_notes : option string;
  b_due : option string
}.

Record RemoteTask : Type := {
  t_id : string;
  t_tasklist : string;
  t_body : TaskBody;
  t_parent : option string
}.

Global Instance TaskList_eq_dec : EqDecision TaskList.
Proof. solve_decision. Defined.
Global Instance TaskBody_eq_dec : EqDecision TaskBody.
Proof. solve_decision. Defined.
Global Instance RemoteTask_eq_dec : EqDecision RemoteTask.
Proof. solve_decision. Defined.

Inductive Fault : Type :=
  | NoFault
  | FaultHttp (status : Z)
  | FaultTransport.

(** The planned faults, one queue per kind of remote call. *)
Record Faults : Type := {
  on_lists_list : list Fault;
  on_lists_insert : list Fault;
  on_lists_delete : list Fault;
  on_tasks_insert : list Fault;
  on_tasks_list : list Fault
}.

Record Service : Type := {
  lists : list TaskList;
  tasks : list RemoteTask;
  next_id : N;
  faults : Faults
}.

Definition no_faults : Faults :=
  {| on_lists_list := []; on_lists_insert := []; on_lists_delete := [];
     on_tasks_insert := []; on_tasks_list := [] |}.

Definition set_faults (f : Faults) (sv : Service) : Service :=
  {| lists := lists sv; tasks := tasks sv; next_id := next_id sv;
     faults := f |}.

(** Consume the next planned fault of one queue. *)
Definition next_fault (get : Faults -> list Fault)
    (set : list Fault -> Faults -> Faults) : M Service unit :=
  fun sv =>
    match get (faults sv) with
    | [] => (Ok tt, sv)
    | f :: rest =>
        let sv' := set_faults (set rest (faults sv)) sv in
        match f with
        | NoFault => (Ok tt, sv')
        | FaultHttp st => (Raise (HttpError st), sv')
        | FaultTransport => (Raise TransportError, sv')
        end
    end.

Definition set_on_lists_list (q : list Fault) (f : Faults) : Faults :=
  {| on_lists_list := q; on_lists_insert := on_lists_insert f;
     on_lists_delete := on_lists_delete f;
     on_tasks_insert := on_tasks_insert f; on_tasks_list := on_tasks_list f |}.

Definition set_on_lists_insert (q : list Fault) (f : Faults) : Faults :=
  {| on_lists_list := on_lists_list f; on_lists_insert := q;
     on_lists_delete := on_lists_delete f;
     on_tasks_insert := on_tasks_insert f; on_tasks_list := on_tasks_list f |}.

Definition set_on_lists_delete (q : list Fault) (f : Faults) : Faults :=
  {| on_lists_list := on_lists_list f; on_lists_insert := on_lists_insert f;
     on_lists_delete := q;
     on_tasks_insert := on_tasks_insert f; on_tasks_list := on_tasks_list f |}.

Definition set_on_tasks_insert (q : list Fault) (f : Faults) : Faults :=
  {| on_lists_list := on_lists_list f; on_lists_insert := on_lists_insert f;
     on_lists_delete := on_lists_delete f;
     on_tasks_insert := q; on_tasks_list := on_tasks_list f |}.

Definition set_on_tasks_list (q : list Fault) (f : Faults) : Faults :=
  {| on_lists_list := on_lists_list f; on_lists_insert := on_lists_insert f;
     on_lists_delete := on_lists_delete f;
     on_tasks_insert := on_tasks_insert f; on_tasks_list := q |}.

(** The value under the key ['items'] of a listing: the key is absent
    when there is nothing to list. *)
Definition items {A} (l : list A) : option (list A) :=
  match l with
  | [] => None
  | _ => Some l
  end.

(** [tasklists().list().execute()] *)
Definition tasklists_list : M Service (option (list TaskList)) :=
  next_fault on_lists_list set_on_lists_list ;;
  gets (fun sv => items (lists sv)).

(** [tasklists().insert(body={'title': title}).execute()] *)
Definition tasklists_insert (title : option string) : M Service TaskList :=
  next_fault on_lists_insert set_on_lists_insert ;;
  fun sv =>
    let l := {| tl_id := "list-" +:+ pretty (next_id sv);
                tl_title := title |} in
    (Ok l, {| lists := lists sv ++ [l]; tasks := tasks sv;
              next_id := N.succ (next_id sv); faults := faults sv |}).

(** [tasklists().delete(tasklist=id).execute()]: the list goes with its
    tasks; an unknown id is answered by status 404. *)
Definition tasklists_delete (id : string) : M Service unit :=
  next_fault on_lists_delete set_on_lists_delete ;;
  fun sv =>
    if existsb (fun l => String.eqb (tl_id l) id) (lists sv) then
      (Ok tt,
       {| lists := List.filter (fun l => negb (String.eqb (tl_id l) id))
                     (lists sv);
          tasks := List.filter
                     (fun t => negb (String.eqb (t_tasklist t) id))
                     (tasks sv);
          next_id := next_id sv; faults := faults sv |})
    else (Raise (HttpError 404), sv).

(** [tasks().insert(tasklist=.., body=.., parent=..).execute()] *)
Definition tasks_insert (tasklist : string) (body : TaskBody)
    (parent : option string) : M Service RemoteTask :=
  next_fault on_tasks_insert set_on_tasks_insert ;;
  fun sv =>
    let t := {| t_id := "task-" +:+ pretty (next_id sv);
                t_tasklist := tasklist; t_body := body;
                t_parent := parent |} in
    (Ok t, {| lists := lists sv; tasks := tasks sv ++ [t];
              next_id := N.succ (next_id sv); faults := faults sv |}).

(** [tasks().list(tasklist=.., showCompleted=.., showHidden=..).execute()];
    the stored tasks are neither completed nor hidden. *)
Definition tasks_list (tasklist : string) (show_completed show_hidden : bool)
    : M Service (option (list RemoteTask)) :=
  next_fault on_tasks_list set_on_tasks_list ;;
  gets (fun sv =>
          items (List.filter (fun t => String.eqb (t_tasklist t) tasklist)
                   (tasks sv))).

(** ** The destination client: [google_tasks_client.py] *)

(** The lines the client prints. *)
Inductive Msg : Type :=
  | MsgFetchListsError (e : Exn)
  | MsgListCreated (title : option string) (id : string)
  | MsgCreateListError (title : option string) (e : Exn)
  | MsgListDeleted (id : string)
  | MsgListNotFound (id : string)
  | MsgDeleteListError (id : string) (e : Exn)
  | MsgClearing
  | MsgNoListsToDelete
  | MsgDeletingList (title : option string) (id : string)
  | MsgDeleteListFailed (id : string) (e : Exn)
  | MsgFinishedClearing
  | MsgInvalidDueDate (due_date_str : string)
  | MsgCreateTaskError (title : option string) (task_list_id : string)
      (e : Exn)
  | MsgFetchTasksError (task_list_id : string) (e : Exn).

(** What a client method can touch: [self.service] and the console. *)
Record Env : Type := { remote : Service; stdout : list Msg }.

(** A call on [self.service]. *)
Definition api {A} (c : M Service A) : M Env A :=
  fun e =>
    let '(r, sv) := c (remote e) in
    (r, {| remote := sv; stdout := stdout e |}).

Definition print (m : Msg) : M Env unit :=
  modify (fun e => {| remote := remote e; stdout := stdout e ++ [m] |}).

(** [results.get('items', [])] *)
Definition get_items {A} (results : option (list A)) : list A :=
  match results with
  | Some l => l
  | None => []
  end.

Definition get_task_lists : M Env (list TaskList) :=
  try_except
    (results <- api tasklists_list ;;
     ret (get_items results))
    is_HttpError
    (fun err => print (MsgFetchListsError err) ;; ret []).

Definition get_task_list_by_title (title : option string)
    : M Env (option TaskList) :=
  task_lists <- get_task_lists ;;
  ret (List.find (fun task_list => bool_decide (tl_title task_list = title))
         task_lists).

Definition create_task_list (title : option string)
    : M Env (option TaskList) :=
  try_except
    (created_list <- api (tasklists_insert title) ;;
     print (MsgListCreated title (tl_id created_list)) ;;
     ret (Some created_list))
    is_HttpError
    (fun err => print (MsgCreateListError title err) ;; ret None).

Definition delete_task_list (task_list_id : string) : M Env unit :=
  try_except
    (api (tasklists_delete task_list_id) ;;
     print (MsgListDeleted task_list_id))
    is_HttpError
    (fun err =>
       match err with
       | HttpError 404 => print (MsgListNotFound task_list_id)
       | _ => print (MsgDeleteListError task_list_id err)
       end).

Definition clear_all_task_lists_and_tasks : M Env unit :=
  print MsgClearing ;;
  task_lists <- get_task_lists ;;
  match task_lists with
  | [] => print MsgNoListsToDelete
  | _ =>
      for_each task_lists
        (fun task_list =>
           print (MsgDeletingList (tl_title task_list) (tl_id task_list)) ;;
           try_except
             (delete_task_list (tl_id task_list))
             is_HttpError
             (fun err => print (MsgDeleteListFailed (tl_id task_list) err))) ;;
      print MsgFinishedClearing
  end.

(** The [due] entry of the request body, or its absence. *)
Definition due_entry (due_date_str : DueValue) : M Env (option string) :=
  match due_date_str with
  | DueNone => ret None
  | DueText s =>
      if truthy s then
        try_except
          (dt <- lift_res (strptime s) ;;
           ret (Some (isoformat dt +:+ "Z")))
          is_ValueError
          (fun _ => print (MsgInvalidDueDate s) ;; ret None)
      else ret None
  | DueObject true => raise TypeError
  | DueObject false => ret None
  end.

Definition create_task (task_list_id : string) (title : option string)
    (notes : option string) (due_date_str : DueValue)
    (parent_task_id : option string) : M Env (option RemoteTask) :=
  due <- due_entry due_date_str ;;
  let task_body :=
    {| b_title := title;
       b_notes := if truthy_opt notes then notes else None;
       b_due := due |} in
  try_except
    (created_task <-
       (if truthy_opt parent_task_id
        then api (tasks_insert task_list_id task_body parent_task_id)
        else api (tasks_insert task_list_id task_body None)) ;;
     ret (Some created_task))
    is_HttpError
    (fun err =>
       print (MsgCreateTaskError title task_list_id err) ;; ret None).

Definition get_tasks_in_list (task_list_id : string)
    (show_completed show_hidden : bool) : M Env (list RemoteTask) :=
  try_except
    (results <- api (tasks_list task_list_id show_completed show_hidden) ;;
     ret (get_items results))
    is_HttpError
    (fun err => print (MsgFetchTasksError task_list_id err) ;; ret []).

(** ** The migration driver: [things_to_google_tasks.py] *)

(** The five places of [main] that create a destination task. *)
Inductive Site : Type :=
  | ProjectSite
  | HeadingSite (project_uuid : string)
  | HeadingTaskSite (project_uuid heading_uuid : string)
  | DirectTaskSite (project_uuid : string)
  | StandaloneSite.

Global Instance Site_eq_dec : EqDecision Site.
Proof. solve_decision. Defined.

(** The journal is not a variable of the program: it records, for the
    statements of the theorems, which source item each created task
    stands for and what the default-list helper did. *)
Inductive Event : Type :=
  | Created (site : Site) (source_uuid : string) (g : RemoteTask)
  | Fallback (source_uuid : string)
  | DefaultListCreated (l : TaskList)
  | DefaultListReturned (r : option TaskList).

Global Instance Event_eq_dec : EqDecision Event.
Proof. solve_decision. Defined.

(** The client with the console, the connection of the reader, the three
    local variables of [main] that its phases share, and the journal. *)
Record State : Type := {
  env : Env;
  db_open : bool;
  google_task_lists_cache : gmap string TaskList;
  default_google_list_cache : option TaskList;
  migrated_project_task_ids : gset string;
  journal : list Event
}.

Definition initial (e : Env) : State :=
  {| env := e; db_open := true; google_task_lists_cache := ∅;
     default_google_list_cache := None; migrated_project_task_ids := ∅;
     journal := [] |}.

(** A call of a method of [google_tasks_client]. *)
Definition call {A} (c : M Env A) : M State A :=
  fun s =>
    let '(r, e) := c (env s) in
    (r, {| env := e; db_open := db_open s;
           google_task_lists_cache := google_task_lists_cache s;
           default_google_list_cache := default_google_list_cache s;
           migrated_project_task_ids := migrated_project_task_ids s;
           journal := journal s |}).

Definition record (ev : Event) : M State unit :=
  modify (fun s =>
    {| env := env s; db_open := db_open s;
       google_task_lists_cache := google_task_lists_cache s;
       default_google_list_cache := default_google_list_cache s;
       migrated_project_task_ids := migrated_project_task_ids s;
       journal := journal s ++ [ev] |}).

(** [google_task_lists_cache = {}] and
    [google_task_lists_cache[area_uuid] = {...}] *)
Definition set_cache (c : gmap string TaskList) : M State unit :=
  modify (fun s =>
    {| env := env s; db_open := db_open s;
       google_task_lists_cache := c;
       default_google_list_cache := default_google_list_cache s;
       migrated_project_task_ids := migrated_project_task_ids s;
       journal := journal s |}).

Definition cache_store (area_uuid : string) (l : TaskList) : M State unit :=
  modify (fun s =>
    {| env := env s; db_open := db_open s;
       google_task_lists_cache := <[area_uuid := l]> (google_task_lists_cache s);
       default_google_list_cache := default_google_list_cache s;
       migrated_project_task_ids := migrated_project_task_ids s;
       journal := journal s |}).

(** [default_google_list_cache = ...] *)
Definition set_default (d : option TaskList) : M State unit :=
  modify (fun s =>
    {| env := env s; db_open := db_open s;
       google_task_lists_cache := google_task_lists_cache s;
       default_google_list_cache := d;
       migrated_project_task_ids := migrated_project_task_ids s;
       journal := journal s |}).

(** [migrated_project_task_ids = set()] and
    [migrated_project_task_ids.add(u)] *)
Definition set_migrated (ids : gset string) : M State unit :=
  modify (fun s =>
    {| env := env s; db_open := db_open s;
       google_task_lists_cache := google_task_lists_cache s;
       default_google_list_cache := default_google_list_cache s;
       migrated_project_task_ids := ids;
       journal := journal s |}).

Definition add_migrated (u : string) : M State unit :=
  modify (fun s =>
    {| env := env s; db_open := db_open s;
       google_task_lists_cache := google_task_lists_cache s;
       default_google_list_cache := default_google_list_cache s;
       migrated_project_task_ids := {[u]} ∪ migrated_project_task_ids s;
       journal := journal s |}).

(** [things_reader.close()]: the connection is closed if it is open, so
    it is closed afterwards. *)
Definition close : M State unit :=
  modify (fun s =>
    {| env := env s; db_open := false;
       google_task_lists_cache := google_task_lists_cache s;
       default_google_list_cache := default_google_list_cache s;
       migrated_project_task_ids := migrated_project_task_ids s;
       journal := journal s |}).

Definition sys_exit {A} (code : Z) : M State A := raise (SystemExit code).

Definition DEFAULT_LIST_TITLE : string := "Things Imported Tasks".

(** The body of the loop of step 1 over the areas. *)
Definition migrate_area (area : AreaDict) : M State unit :=
  let area_title := ad_title area in
  let area_uuid := ad_uuid area in
  existing_list <- call (get_task_list_by_title area_title) ;;
  match existing_list with
  | Some existing_list =>
      cache_store area_uuid
        {| tl_id := tl_id existing_list; tl_title := tl_title existing_list |}
  | None =>
      new_list <- call (create_task_list area_title) ;;
      match new_list with
      | Some new_list =>
          cache_store area_uuid
            {| tl_id := tl_id new_list; tl_title := tl_title new_list |}
      | None => ret tt
      end
  end.

(** Step 1: areas to task lists. *)
Definition step1 (db : Database) : M State unit :=
  try_except
    (let areas := get_areas db in
     for_each areas migrate_area)
    is_Exception
    (fun _ => ret tt).

Definition get_or_create_default_list : M State (option TaskList) :=
  cached <- gets default_google_list_cache ;;
  match cached with
  | Some l =>
      record (DefaultListReturned (Some l)) ;;
      ret (Some l)
  | None =>
      existing_default <-
        call (get_task_list_by_title (Some DEFAULT_LIST_TITLE)) ;;
      match existing_default with
      | Some existing_default =>
          set_default (Some existing_default) ;;
          record (DefaultListReturned (Some existing_default)) ;;
          ret (Some existing_default)
      | None =>
          created_default <-
            call (create_task_list (Some DEFAULT_LIST_TITLE)) ;;
          match created_default with
          | Some created_default =>
              record (DefaultListCreated created_default) ;;
              set_default (Some created_default) ;;
              record (DefaultListReturned (Some created_default)) ;;
              ret (Some created_default)
          | None =>
              record (DefaultListReturned None) ;;
              ret None
          end
      end
  end.

(** [google_task_lists_cache[area_uuid]] under the test
    [area_uuid and area_uuid in google_task_lists_cache]. *)
Definition cached_list (cache : gmap string TaskList)
    (area_uuid : option string) : option TaskList :=
  match area_uuid with
  | Some a => if truthy a then cache !! a else None
  | None => None
  end.

(** The target list of an item: the list of its area, or else the default
    list; [None] when the item is to be skipped. *)
Definition target_list (source_uuid : string) (area_uuid : option string)
    : M State (option TaskList) :=
  cache <- gets google_task_lists_cache ;;
  match cached_list cache area_uuid with
  | Some l => ret (Some l)
  | None =>
      record (Fallback source_uuid) ;;
      get_or_create_default_list
  end.

(** The body of the loop over the tasks of a heading. *)
Definition migrate_heading_task (project_uuid heading_uuid : string)
    (target_list_id : string) (g_heading_task : RemoteTask)
    (task : SubTaskDict) : M State unit :=
  let task_title := sd_title task in
  let task_uuid := sd_uuid task in
  g_task <- call (create_task target_list_id task_title (sd_notes task)
                    (sd_due_date task) (Some (t_id g_heading_task))) ;;
  match g_task with
  | Some g_task =>
      record (Created (HeadingTaskSite project_uuid heading_uuid)
                task_uuid g_task) ;;
      add_migrated task_uuid
  | None => ret tt
  end.

(** The body of the loop over the headings of a project. *)
Definition migrate_heading (db : Database) (project_uuid : string)
    (target_list_id : string) (g_project_task : RemoteTask)
    (heading : HeadingDict) : M State unit :=
  let heading_title := hd_title heading in
  let heading_uuid := hd_uuid heading in
  let g_heading_task_title := "--- " +:+ fmt heading_title +:+ " ---" in
  g_heading_task <- call (create_task target_list_id
                            (Some g_heading_task_title) None DueNone
                            (Some (t_id g_project_task))) ;;
  match g_heading_task with
  | None => ret tt
  | Some g_heading_task =>
      record (Created (HeadingSite project_uuid) heading_uuid
                g_heading_task) ;;
      add_migrated heading_uuid ;;
      let tasks_under_heading := get_tasks_for_heading db heading_uuid in
      for_each tasks_under_heading
        (migrate_heading_task project_uuid heading_uuid target_list_id
           g_heading_task)
  end.

(** The body of the loop over the tasks directly under a project. *)
Definition migrate_direct_task (project_uuid : string)
    (target_list_id : string) (g_project_task : RemoteTask)
    (task : SubTaskDict) : M State unit :=
  let task_title := sd_title task in
  let task_uuid := sd_uuid task in
  g_task <- call (create_task target_list_id task_title (sd_notes task)
                    (sd_due_date task) (Some (t_id g_project_task))) ;;
  match g_task with
  | Some g_task =>
      record (Created (DirectTaskSite project_uuid) task_uuid g_task) ;;
      add_migrated task_uuid
  | None => ret tt
  end.

(** The body of the loop of step 2 over the projects. *)
Definition migrate_project (db : Database) (project : ProjectDict)
    : M State unit :=
  let project_title := pd_title project in
  let project_uuid := pd_uuid project in
  let project_notes := pd_notes project in
  let area_uuid := pd_area_uuid project in
  target_list_info <- target_list project_uuid area_uuid ;;
  match target_list_info with
  | None => ret tt
  | Some target_list_info =>
      let target_list_id := tl_id target_list_info in
      let project_main_task_title := Some (fmt project_title) in
      g_project_task <- call (create_task target_list_id
                                project_main_task_title project_notes
                                DueNone None) ;;
      match g_project_task with
      | None => ret tt
      | Some g_project_task =>
          record (Created ProjectSite project_uuid g_project_task) ;;
          add_migrated project_uuid ;;
          let headings := get_headings_for_project db project_uuid in
          for_each headings
            (migrate_heading db project_uuid target_list_id
               g_project_task) ;;
          let project_direct_tasks :=
            get_tasks_for_project db project_uuid in
          for_each project_direct_tasks
            (migrate_direct_task project_uuid target_list_id
               g_project_task)
      end
  end.

(** Step 2: projects with their headings and tasks. *)
Definition step2 (db : Database) : M State unit :=
  try_except
    (projects <- lift_res (get_projects db) ;;
     for_each projects (migrate_project db))
    is_Exception
    (fun _ => ret tt).

(** The filter of step 3. *)
Definition is_standalone (migrated : gset string) (task : TaskDict) : bool :=
  negb (bool_decide (td_uuid task ∈ migrated))
  && negb (truthy_opt (td_project_uuid task)).

(** The body of the loop of step 3. *)
Definition migrate_standalone_task (task : TaskDict) : M State unit :=
  let task_title := td_title task in
  let task_uuid := td_uuid task in
  let area_uuid := td_area_uuid task in
  target_list_info <- target_list task_uuid area_uuid ;;
  match target_list_info with
  | None => ret tt
  | Some target_list_info =>
      let target_list_id := tl_id target_list_info in
      g_task <- call (create_task target_list_id task_title (td_notes task)
                        (td_due_date task) None) ;;
      match g_task with
      | Some g_task => record (Created StandaloneSite task_uuid g_task)
      | None => ret tt
      end
  end.

(** Step 3: the standalone tasks. *)
Definition step3 (db : Database) : M State unit :=
  try_except
    (all_things_tasks <- lift_res (get_tasks db) ;;
     migrated <- gets migrated_project_task_ids ;;
     let standalone_tasks_to_migrate :=
       List.filter (is_standalone migrated) all_things_tasks in
     for_each standalone_tasks_to_migrate migrate_standalone_task)
    is_Exception
    (fun _ => ret tt).

(** The clean-slate operation of [main]. *)
Definition clean_slate_operation (clean_slate : bool) (confirm : string)
    : M State unit :=
  if clean_slate then
    if String.eqb (lower confirm) "y" then
      try_except
        (call clear_all_task_lists_and_tasks)
        is_Exception
        (fun _ => close ;; sys_exit 1)
    else
      close ;; sys_exit 0
  else ret tt.

(** The migration process of [main]. *)
Definition migration (db : Database) : M State unit :=
  set_cache ∅ ;;
  step1 db ;;
  set_default None ;;
  set_migrated ∅ ;;
  step2 db ;;
  step3 db ;;
  try_except close is_Exception (fun _ => ret tt).

(** [main], once the reader and the client are initialised: [clean_slate]
    is the command-line flag and [confirm] the line [input] returns. *)
Definition main (db : Database) (clean_slate : bool) (confirm : string)
    : M State unit :=
  clean_slate_operation clean_slate confirm ;;
  migration db.

(** The exit status of the process. *)
Definition exit_status (r : Res unit) : Z :=
  match r with
  | Ok _ => 0
  | Raise (SystemExit code) => code
  | Raise _ => 1
  end.

(** ** Start-up: [load_config], [main] up to the two clients, and the
    constructors of the reader and of the client

    The first part of [main] resolves the two paths from the command line
    and the configuration file, checks them, and builds the reader and the
    client.  It runs against the file system, [importlib], the database
    driver and the Google libraries; what these answer is collected in a
    record [World] the model reads, and the file [token.json], which the
    client rewrites, is part of the state.

    The model takes the world as fixed while the start-up runs: a path
    that exists at one call of [os.path.exists] exists at the next.  The
    values a configuration module binds to the two names are [None] or
    strings, the attributes [valid], [expired] and [refresh_token] are
    read off the credentials as they were loaded, and the library calls
    raise exceptions other than [FileNotFoundError] and [SystemExit]. *)

Module Startup.

(** The exceptions of the start-up.  [HttpError] is the error of the API
    client, [OtherException] any other subclass of [Exception];
    [SystemExit] is not an [Exception]. *)
Inductive Exn : Type :=
  | FileNotFoundError
  | HttpError
  | OtherException
  | SystemExit (code : Z).

Inductive Res (A : Type) : Type :=
  | Ok (a : A)
  | Raise (e : Exn).
Arguments Ok {A} a.
Arguments Raise {A} e.

(** [except Exception] *)
Definition is_Exception (e : Exn) : bool :=
  match e with
  | SystemExit _ => false
  | _ => true
  end.

(** [except FileNotFoundError] *)
Definition is_FileNotFoundError (e : Exn) : bool :=
  match e with
  | FileNotFoundError => true
  | _ => false
  end.

(** [except HttpError] *)
Definition is_HttpError (e : Exn) : bool :=
  match e with
  | HttpError => true
  | _ => false
  end.

(** What the code reads of an object of [Credentials]. *)
Record Credentials : Type := {
  token : string;
  valid : bool;
  expired : bool;
  refresh_token : option string
}.

(** The file [TOKEN_FILE]: absent, not in the format of an authorized
    user, or holding credentials. *)
Inductive TokenFile : Type :=
  | NoFile
  | Unreadable
  | Holds (creds : Credentials).

(** The attributes of the module a configuration file defines: a name is
    not defined ([None]) or bound to a value, which is [None] or a
    string. *)
Record ConfigModule : Type := {
  THINGS_DB_PATH : option (option string);
  GOOGLE_API_CREDENTIALS_PATH : option (option string)
}.

(** What [importlib] makes of a path: no module specification or no
    loader, a module whose execution raises, or a module. *)
Inductive Import : Type :=
  | NoSpec
  | ExecRaises
  | Executes (config_module : ConfigModule).

(** The service object [build] returns, with the credentials it was
    built with. *)
Inductive Service : Type :=
  | Built (creds : Credentials).

(** What [build] answers: a service, an [HttpError], or another
    exception. *)
Inductive BuildResult : Type :=
  | BuildOk (service : Service)
  | BuildHttpError
  | BuildFails.

(** What the outside world answers. *)
Record World : Type := {
  (** [os.path.exists] *)
  path_exists : string -> bool;
  (** [spec_from_file_location], [module_from_spec] and [exec_module] *)
  import_file : string -> Import;
  (** [db.connect()] and the three [CREATE VIEW] statements succeed *)
  db_opens : string -> bool;
  (** [creds.refresh(Request())]: the credentials afterwards, unless it
      raises *)
  refresh : Credentials -> option Credentials;
  (** [InstalledAppFlow.from_client_secrets_file(path, SCOPES)] followed
      by [run_local_server(port=0)]: the credentials, unless one of them
      raises *)
  run_flow : string -> option Credentials;
  (** [open(TOKEN_FILE, 'w')] and the write succeed *)
  token_writable : bool;
  (** [build('tasks', 'v1', credentials=creds)] *)
  build : Credentials -> BuildResult
}.

(** The lines the start-up prints. *)
Inductive Line : Type :=
  | LineConfigNotFound (config_path : string)
  | LineNoModuleSpec (config_path : string)
  | LineLoadingConfig (config_file : string)
  | LineConfigFileMissing (config_file : string)
  | LineConfigLoaded
  | LineConfigFailed (config_file : string)
  | LineNoDbPath
  | LineNoCredsPath
  | LineDbPathMissing (db_path : string)
  | LineCredsPathMissing (creds_path : string)
  | LineSummary (db_path creds_path : string) (clean_slate : bool)
  | LineReaderReady
  | LineReaderNotFound
  | LineReaderFailed
  | LineClientReady
  | LineClientNotFound
  | LineClientFailed
  | LineRefreshing
  | LineRefreshed
  | LineRefreshFailed
  | LineStartingFlow
  | LineFlowDone
  | LineTokenSaved
  | LineServiceBuilt
  | LineBuildFailed.

(** The state of the start-up: the file [TOKEN_FILE] and the console. *)
Record Sys : Type := { token_json : TokenFile; console : list Line }.

Definition M (A : Type) : Type := Sys -> Res A * Sys.

Definition ret {A} (a : A) : M A := fun s => (Ok a, s).

Definition bind {A B} (m : M A) (k : A -> M B) : M B :=
  fun s =>
    match m s with
    | (Ok a, s') => k a s'
    | (Raise e, s') => (Raise e, s')
    end.

Definition raise {A} (e : Exn) : M A := fun s => (Raise e, s).

(** [try: m  except <class>: handler] *)
Definition try_except {A} (m : M A) (catches : Exn -> bool)
    (handler : Exn -> M A) : M A :=
  fun s =>
    match m s with
    | (Ok a, s') => (Ok a, s')
    | (Raise e, s') => if catches e then handler e s' else (Raise e, s')
    end.

Definition print (l : Line) : M unit :=
  fun s => (Ok tt, {| token_json := token_json s;
                      console := console s ++ [l] |}).

Definition sys_exit {A} (code : Z) : M A := raise (SystemExit code).

(** A call of a library that returns a value unless it raises; the
    libraries raise neither [FileNotFoundError] nor [SystemExit]. *)
Definition library {A} (r : option A) : M A :=
  match r with
  | Some a => ret a
  | None => raise OtherException
  end.

Definition build_service (r : BuildResult) : M Service :=
  match r with
  | BuildOk service => ret service
  | BuildHttpError => raise HttpError
  | BuildFails => raise OtherException
  end.

Declare Scope startup_scope.
Notation "x <- m ;; k" := (bind m (fun x => k))
  (at level 20, m at level 99, k at level 200, only parsing) : startup_scope.
Notation "m ;; k" := (bind m (fun _ => k))
  (at level 100, k at level 200, only parsing, right associativity)
  : startup_scope.
Local Open Scope startup_scope.

Section WithWorld.
Variable w : World.

(** *** [load_config] *)

(** The dictionary [load_config] returns has the keys the module
    defines. *)
Definition load_config (config_path : string) : M (option ConfigModule) :=
  if negb (path_exists w config_path) then
    print (LineConfigNotFound config_path) ;; ret None
  else
    match import_file w config_path with
    | NoSpec => print (LineNoModuleSpec config_path) ;; ret None
    | ExecRaises => raise OtherException
    | Executes config_module =>
        ret (Some {| THINGS_DB_PATH := THINGS_DB_PATH config_module;
                     GOOGLE_API_CREDENTIALS_PATH :=
                       GOOGLE_API_CREDENTIALS_PATH config_module |})
    end.

(** *** [ThingsReader.__init__] *)

Definition ThingsReader_init (db_path : string) : M unit :=
  if negb (path_exists w db_path) then raise FileNotFoundError
  else if db_opens w db_path then ret tt
  else raise OtherException.

(** *** [GoogleTasksClient._authenticate] *)

(** The [with open(TOKEN_FILE, 'w')] block. *)
Definition save_token (creds : Credentials) : M unit :=
  if token_writable w then
    fun s => (Ok tt, {| token_json := Holds creds; console := console s |})
  else raise OtherException.

(** The body of [if not creds or not creds.valid]: refresh what can be
    refreshed, run the authorization flow when there are no credentials
    then, and save what came out. *)
Definition obtain_credentials (credentials_path : string)
    (creds : option Credentials) : M Credentials :=
  creds <-
    match creds with
    | Some c =>
        if expired c && truthy_opt (refresh_token c) then
          try_except
            (print LineRefreshing ;;
             c' <- library (refresh w c) ;;
             print LineRefreshed ;;
             ret (Some c'))
            is_Exception
            (fun _ => print LineRefreshFailed ;; ret None)
        else ret creds
    | None => ret creds
    end ;;
  creds <-
    match creds with
    | Some c => ret c
    | None =>
        print LineStartingFlow ;;
        if negb (path_exists w credentials_path) then
          raise FileNotFoundError
        else
          c <- library (run_flow w credentials_path) ;;
          print LineFlowDone ;;
          ret c
    end ;;
  save_token creds ;;
  print LineTokenSaved ;;
  ret creds.

Definition authenticate (credentials_path : string) : M Service :=
  creds <-
    (fun s =>
       match token_json s with
       | NoFile => (Ok None, s)
       | Unreadable => (Raise OtherException, s)
       | Holds c => (Ok (Some c), s)
       end) ;;
  creds <-
    match creds with
    | Some c =>
        if valid c then ret c else obtain_credentials credentials_path creds
    | None => obtain_credentials credentials_path creds
    end ;;
  try_except
    (service <- build_service (build w creds) ;;
     print LineServiceBuilt ;;
     ret service)
    is_HttpError
    (fun err => print LineBuildFailed ;; raise err).

(** [GoogleTasksClient.__init__] *)
Definition GoogleTasksClient_init (credentials_path : string) : M Service :=
  authenticate credentials_path.

(** *** [main], up to the two clients *)

(** The arguments [argparse] hands over. *)
Record Args : Type := {
  db_path : option string;
  creds_path : option string;
  config_file : option string;
  clean_slate : bool
}.

(** [a or b] on values that are [None] or a string. *)
Definition py_or (a b : option string) : option string :=
  if truthy_opt a then a else b.

(** [config.get(key)] *)
Definition config_get (entry : option (option string)) : option string :=
  match entry with
  | Some v => v
  | None => None
  end.

(** The truth value of a dictionary [load_config] returned: the empty
    dictionary is false. *)
Definition config_truthy (config : ConfigModule) : bool :=
  match THINGS_DB_PATH config, GOOGLE_API_CREDENTIALS_PATH config with
  | None, None => false
  | _, _ => true
  end.

(** The configuration resolution. *)
Definition resolve_configuration (args : Args)
    : M (option string * option string) :=
  let db_path := db_path args in
  let creds_path := creds_path args in
  match config_file args with
  | Some file =>
      if truthy file then
        print (LineLoadingConfig file) ;;
        if negb (path_exists w file) then
          print (LineConfigFileMissing file) ;; sys_exit 1
        else
          config_from_file <- load_config file ;;
          match config_from_file with
          | Some config =>
              if config_truthy config then
                let db_path :=
                  py_or db_path (config_get (THINGS_DB_PATH config)) in
                let creds_path :=
                  py_or creds_path
                    (config_get (GOOGLE_API_CREDENTIALS_PATH config)) in
                print LineConfigLoaded ;;
                ret (db_path, creds_path)
              else print (LineConfigFailed file) ;; sys_exit 1
          | None => print (LineConfigFailed file) ;; sys_exit 1
          end
      else ret (db_path, creds_path)
  | None => ret (db_path, creds_path)
  end.

(** The path validation: a path that passes is a string that is not
    empty. *)
Definition validate_paths (paths : option string * option string)
    : M (string * string) :=
  let '(db_path, creds_path) := paths in
  match db_path with
  | None => print LineNoDbPath ;; sys_exit 1
  | Some db =>
      if negb (truthy db) then print LineNoDbPath ;; sys_exit 1
      else
        match creds_path with
        | None => print LineNoCredsPath ;; sys_exit 1
        | Some creds =>
            if negb (truthy creds) then print LineNoCredsPath ;; sys_exit 1
            else if negb (path_exists w db) then
              print (LineDbPathMissing db) ;; sys_exit 1
            else if negb (path_exists w creds) then
              print (LineCredsPathMissing creds) ;; sys_exit 1
            else ret (db, creds)
        end
  end.

(** The initialisation of the two clients. *)
Definition initialize_clients (db creds : string) : M Service :=
  try_except
    (ThingsReader_init db ;; print LineReaderReady)
    is_Exception
    (fun e =>
       if is_FileNotFoundError e
       then print LineReaderNotFound ;; sys_exit 1
       else print LineReaderFailed ;; sys_exit 1) ;;
  try_except
    (google_tasks_client <- GoogleTasksClient_init creds ;;
     print LineClientReady ;;
     ret google_tasks_client)
    is_Exception
    (fun e =>
       if is_FileNotFoundError e
       then print LineClientNotFound ;; sys_exit 1
       else print LineClientFailed ;; sys_exit 1).

(** [main] from the parsed arguments to the clean-slate operation: the
    two paths in use and the service of the client. *)
Definition main_startup (args : Args) : M (string * string * Service) :=
  paths <- resolve_configuration args ;;
  checked <- validate_paths paths ;;
  let '(db, creds) := checked in
  print (LineSummary db creds (clean_slate args)) ;;
  service <- initialize_clients db creds ;;
  ret (db, creds, service).

End WithWorld.

(** The exit status of the process. *)
Definition exit_status {A} (r : Res A) : Z :=
  match r with
  | Ok _ => 0
  | Raise (SystemExit code) => code
  | Raise _ => 1
  end.

End Startup.

(** * Part I, continued: the vocabulary of the statements *)

(** ** Planned faults *)

(** The next remote call of a kind goes through. *)
Definition goes_through (q : list Fault) : Prop :=
  match q with
  | [] => True
  | f :: _ => f = NoFault
  end.

(** The next remote call of a kind is answered by an API error. *)
Definition fails_http (q : list Fault) : Prop :=
  match q with
  | FaultHttp _ :: _ => True
  | _ => False
  end.

(** No call of a kind is planned to fail. *)
Definition calm (q : list Fault) : Prop := Forall (fun f => f = NoFault) q.

(** Neither a listing nor a list creation is planned to fail. *)
Definition calm_lists (e : Env) : Prop :=
  calm (on_lists_list (faults (remote e)))
  /\ calm (on_lists_insert (faults (remote e))).

(** No listing, list creation or task creation is planned to fail. *)
Definition all_calm (e : Env) : Prop :=
  calm (on_lists_list (faults (remote e)))
  /\ calm (on_lists_insert (faults (remote e)))
  /\ calm (on_tasks_insert (faults (remote e))).

(** ** Reasoning about computations *)

(** The computation keeps an invariant, however it ends. *)
Definition keeps {S A} (I : S -> Prop) (m : M S A) : Prop :=
  forall s, I s -> I (snd (m s)).

(** A computation never lets an API error escape. *)
Definition contains_http {S A} (m : M S A) : Prop :=
  forall s st, fst (m s) <> Raise (HttpError st).

(** The state of the driver with another client environment. *)
Definition with_env (e : Env) (s : State) : State :=
  {| env := e; db_open := db_open s;
     google_task_lists_cache := google_task_lists_cache s;
     default_google_list_cache := default_google_list_cache s;
     migrated_project_task_ids := migrated_project_task_ids s;
     journal := journal s |}.

(** A client method never removes a destination task. *)
Definition tasks_grow {A} (c : M Env A) : Prop :=
  forall e x, In x (tasks (remote e)) -> In x (tasks (remote (snd (c e)))).

(** ** What [create_task] sends *)

(** The [due] entry [create_task] builds. *)
Definition due_of (due_date_str : DueValue) : option string :=
  match due_date_str with
  | DueText s =>
      if truthy s then
        match strptime s with
        | Ok dt => Some (isoformat dt +:+ "Z")
        | Raise _ => None
        end
      else None
  | _ => None
  end.

(** The warnings [create_task] prints for a due date. *)
Definition due_warnings (due_date_str : DueValue) : list Msg :=
  match due_date_str with
  | DueText s =>
      if truthy s then
        match strptime s with
        | Ok _ => []
        | Raise _ => [MsgInvalidDueDate s]
        end
      else []
  | _ => []
  end.

(** The environment after printing the lines [l]. *)
Definition say (l : list Msg) (e : Env) : Env :=
  {| remote := remote e; stdout := stdout e ++ l |}.

(** The request body [create_task] builds. *)
Definition task_body (title notes : option string) (due : DueValue)
    : TaskBody :=
  {| b_title := title; b_notes := if truthy_opt notes then notes else None;
     b_due := due_of due |}.

(** The [parent] argument [create_task] passes on. *)
Definition parent_entry (parent_task_id : option string) : option string :=
  if truthy_opt parent_task_id then parent_task_id else None.

(** ** The placed set *)

(** Every identifier of the placed set stands for a task that a create
    call of step 2 returned and that the destination holds. *)
Definition placed_sound (s : State) : Prop :=
  forall u, u ∈ migrated_project_task_ids s ->
    exists site g,
      In (Created site u g) (journal s)
      /\ site <> StandaloneSite
      /\ In g (tasks (remote (env s))).

(** Every source for which a site of step 2 created a task is marked. *)
Definition placed_covers (s : State) : Prop :=
  forall site u g,
    In (Created site u g) (journal s) -> site <> StandaloneSite ->
    u ∈ migrated_project_task_ids s.

(** Step 3 has not created anything yet. *)
Definition no_standalone_yet (s : State) : Prop :=
  forall u g, ~ In (Created StandaloneSite u g) (journal s).

(** ** The hierarchy *)

(** The shape of one journal entry within the journal [j] of a run over
    [db]: where its source sits in the source store, and how the task
    created for it hangs under the tasks created for its owners. *)
Definition entry_ok (db : Database) (j : list Event) (ev : Event) : Prop :=
  match ev with
  | Created ProjectSite p gp =>
      (exists projects,
          get_projects db = Ok projects /\ In p (map pd_uuid projects))
      /\ t_parent gp = None
  | Created (HeadingSite p) h gh =>
      In h (map hd_uuid (get_headings_for_project db p))
      /\ exists gp,
           In (Created ProjectSite p gp) j
           /\ t_parent gh = Some (t_id gp)
           /\ t_tasklist gh = t_tasklist gp
  | Created (HeadingTaskSite p h) t gt =>
      In t (map sd_uuid (get_tasks_for_heading db h))
      /\ exists gh,
           In (Created (HeadingSite p) h gh) j
           /\ t_parent gt = Some (t_id gh)
           /\ t_tasklist gt = t_tasklist gh
  | Created (DirectTaskSite p) t gt =>
      In t (map sd_uuid (get_tasks_for_project db p))
      /\ exists gp,
           In (Created ProjectSite p gp) j
           /\ t_parent gt = Some (t_id gp)
           /\ t_tasklist gt = t_tasklist gp
  | Created StandaloneSite t g => t_parent g = None
  | _ => True
  end.

(** Every entry of the journal has its shape. *)
Definition hierarchy_ok (db : Database) (s : State) : Prop :=
  forall ev, In ev (journal s) -> entry_ok db (journal s) ev.

(** ** The default list *)

(** The event of a creation of the default list. *)
Definition is_default_created (ev : Event) : bool :=
  match ev with
  | DefaultListCreated _ => true
  | _ => false
  end.

(** How many times the helper created the default list. *)
Definition default_created (j : list Event) : nat :=
  length (List.filter is_default_created j).

(** An event of the default-list helper. *)
Definition is_default_event (ev : Event) : Prop :=
  match ev with
  | DefaultListCreated _ | DefaultListReturned _ => True
  | _ => False
  end.

(** The default list, once resolved, is the one the helper hands out; it
    was created at most once, and the helper only ran for an item that
    fell back to it. *)
Definition default_memo (s : State) : Prop :=
  (match default_google_list_cache s with
   | None => default_created (journal s) = 0%nat
   | Some _ => (default_created (journal s) <= 1)%nat
   end)
  /\ (forall l, In (DefaultListReturned (Some l)) (journal s) ->
                default_google_list_cache s = Some l)
  /\ (forall l, In (DefaultListCreated l) (journal s) ->
                default_google_list_cache s = Some l)
  /\ (forall ev, In ev (journal s) -> is_default_event ev ->
                 exists u, In (Fallback u) (journal s)).

(** ** Lists and titles *)

(** The test of [get_task_list_by_title]. *)
Definition has_title (t : option string) (l : TaskList) : bool :=
  bool_decide (tl_title l = t).

(** How many lists carry a title. *)
Definition count_title (t : option string) (ls : list TaskList) : nat :=
  length (List.filter (has_title t) ls).

(** A second process run of step 1 against the destination the first run
    left behind. *)
Definition step1_again (db : Database) (s1 : State) : State :=
  snd (step1 db (initial (env s1))).

(** An area resolved over the lists [ls]: it is mapped to the first list
    with its title. *)
Definition resolve_area (ls : list TaskList)
    (c : gmap string TaskList) (a : AreaDict) : gmap string TaskList :=
  match List.find (has_title (ad_title a)) ls with
  | Some l => <[ad_uuid a := l]> c
  | None => c
  end.

(** The cache step 1 leaves over the lists [ls]. *)
Definition resolved_cache (ls : list TaskList) (areas : list AreaDict)
    (c : gmap string TaskList) : gmap string TaskList :=
  fold_left (resolve_area ls) areas c.

(** With listings that go through, step 1 never adds a list under a title
    that is already there. *)
Definition titles_bounded (t : option string) (n0 : nat) (s : State) : Prop :=
  calm (on_lists_list (faults (remote (env s))))
  /\ (count_title t (lists (remote (env s))) <= Nat.max 1 n0)%nat.

(** ** Sources and the tasks created for them *)

(** The source identifier of a created task. *)
Definition source_of (ev : Event) : list string :=
  match ev with
  | Created _ u _ => [u]
  | _ => []
  end.

(** The source identifiers of the tasks the run created, in the order of
    their creation. *)
Definition sources (j : list Event) : list string := flat_map source_of j.

(** How many tasks the run created for a source identifier. *)
Definition created_for (u : string) (j : list Event) : nat :=
  count_occ string_dec (sources j) u.

(** A computation creates tasks for some of the identifiers of [v], in
    that order, and for nothing else. *)
Definition emits {A} (m : M State A) (v : list string) : Prop :=
  forall s, exists k,
    sources (journal (snd (m s))) = sources (journal s) ++ k
    /\ sublist k v.

(** The identifiers step 2 walks through for one heading. *)
Definition visited_heading (db : Database) (h : HeadingDict) : list string :=
  hd_uuid h :: map sd_uuid (get_tasks_for_heading db (hd_uuid h)).

(** The identifiers step 2 walks through for one project. *)
Definition visited_project (db : Database) (p : ProjectDict) : list string :=
  pd_uuid p
  :: flat_map (visited_heading db) (get_headings_for_project db (pd_uuid p))
  ++ map sd_uuid (get_tasks_for_project db (pd_uuid p)).

(** The identifiers step 2 walks through, in its order: each project,
    then each of its headings followed by the tasks of the heading, then
    the tasks directly under the project. *)
Definition visited (db : Database) : list string :=
  match get_projects db with
  | Ok projects => flat_map (visited_project db) projects
  | Raise _ => []
  end.

(** The identifiers step 3 walks through when it starts with the placed
    set [X]. *)
Definition standalone_ids (db : Database) (X : gset string) : list string :=
  match get_tasks db with
  | Ok all_things_tasks =>
      map td_uuid (List.filter (is_standalone X) all_things_tasks)
  | Raise _ => []
  end.

(** What step 2 leaves behind when it starts from an empty journal. *)
Definition after_step2 (db : Database) (s : State) : Prop :=
  sublist (sources (journal s)) (visited db)
  /\ placed_covers s
  /\ no_standalone_yet s.

(** Every task that step 3 created stands for an identifier of its
    filtered list. *)
Definition standalone_ok (db : Database) (X : gset string) (s : State)
    : Prop :=
  migrated_project_task_ids s = X
  /\ forall u g, In (Created StandaloneSite u g) (journal s) ->
                 In u (standalone_ids db X).

(** With nothing planned to fail, a computation runs to its end and
    marks every identifier of [marks]. *)
Definition completes (m : M State unit) (marks : list string) : Prop :=
  forall s, all_calm (env s) ->
    fst (m s) = Ok tt
    /\ all_calm (env (snd (m s)))
    /\ (forall u, In u marks -> u ∈ migrated_project_task_ids (snd (m s)))
    /\ migrated_project_task_ids s ⊆ migrated_project_task_ids (snd (m s)).

(** ** The source store *)

(** The primary key of [TMTask]. *)
Definition unique_uuids (db : Database) : Prop :=
  NoDup (map uuid (tasks_table db)).

(** No due date of the table is a non-text object that counts as true. *)
Definition text_dues (db : Database) : Prop :=
  forall r, In r (tasks_table db) -> dueDate r <> DueObject true.

(** Where a row sits in the hierarchy of the source store. *)
Inductive Tag : Type :=
  | TagProject
  | TagHeading (project_uuid : option string)
  | TagUnder (heading_uuid : string)
  | TagDirect (project_uuid : option string)
  | TagOther.

(** The tag of a row. *)
Definition tag (r : TMTask) : Tag :=
  if type r =? 1 then TagProject
  else if type r =? 2 then TagHeading (project r)
  else if type r =? 0 then
    match heading r with
    | Some h => TagUnder h
    | None => TagDirect (project r)
    end
  else TagOther.

(** The identifier [b] belongs to a row of the table with the tag [t]. *)
Definition tagged (db : Database) (b : string) (t : Tag) : Prop :=
  exists r, In r (tasks_table db) /\ uuid r = b /\ tag r = t.

(** A task row that is not trashed and belongs to a project that is not
    trashed: directly, by its column [project] and without a heading, or
    by its column [heading], under a heading of that project that is not
    trashed. *)
Definition in_project (db : Database) (T : TMTask) : Prop :=
  In T (tasks_table db) /\ type T = 0 /\ trashed T = 0
  /\ exists P,
       In P (tasks_table db) /\ type P = 1 /\ trashed P = 0
       /\ ((project T = Some (uuid P) /\ heading T = None)
           \/ exists H,
                In H (tasks_table db) /\ type H = 2 /\ trashed H = 0
                /\ project H = Some (uuid P)
                /\ heading T = Some (uuid H)).

(** ** Sample stores and destinations *)

(** A row that is not trashed and has no notes. *)
Definition row (u : string) (ty : Z) (ti : string)
    (a p h : option string) (due : DueValue) : TMTask :=
  {| uuid := u; type := ty; title := Some ti; notes := None; area := a;
     project := p; heading := h; status := Some "incomplete";
     dueDate := due; trashed := 0 |}.

(** A small source store: an area with a project, a heading under it with
    one task, a task directly under the project, and three standalone
    tasks, one of them in the area. *)
Definition sample_db : Database :=
  {| areas_table := [ {| a_uuid := "A"; a_title := Some "Work";
                         a_trashed := 0 |} ];
     tasks_table :=
       [ row "P" 1 "Launch" (Some "A") None None DueNone;
         row "H" 2 "Prep" None (Some "P") None DueNone;
         row "T" 0 "Write docs" None (Some "P") (Some "H") DueNone;
         row "D" 0 "Book venue" None (Some "P") None DueNone;
         row "S" 0 "Buy milk" None None None DueNone;
         row "W" 0 "File report" (Some "A") None None DueNone;
         row "N" 0 "Call home" None None None DueNone ] |}.

(** One area. *)
Definition work_area_db : Database :=
  {| areas_table := [ {| a_uuid := "A"; a_title := Some "Work";
                         a_trashed := 0 |} ];
     tasks_table := [] |}.

(** A project with one task. *)
Definition one_task_project : Database :=
  {| areas_table := [];
     tasks_table := [ row "P" 1 "Launch" None None None DueNone;
                      row "T" 0 "Write docs" None (Some "P") None DueNone ] |}.

(** A task under a trashed heading of a project. *)
Definition trashed_heading_db : Database :=
  {| areas_table := [];
     tasks_table :=
       [ row "P" 1 "Launch" None None None DueNone;
         {| uuid := "H"; type := 2; title := Some "Prep"; notes := None;
            area := None; project := Some "P"; heading := None;
            status := None; dueDate := DueNone; trashed := 1 |};
         row "T" 0 "Write docs" None (Some "P") (Some "H") DueNone ] |}.

(** An empty destination where nothing is planned to fail. *)
Definition fresh_env : Env :=
  {| remote := {| lists := []; tasks := []; next_id := 0;
                  faults := no_faults |};
     stdout := [] |}.

(** A destination with two lists of the same title. *)
Definition two_work_lists : Env :=
  {| remote :=
       {| lists := [ {| tl_id := "a"; tl_title := Some "Home" |};
                     {| tl_id := "b"; tl_title := Some "Work" |};
                     {| tl_id := "c"; tl_title := Some "Work" |} ];
          tasks := []; next_id := 0; faults := no_faults |};
     stdout := [] |}.

(** A destination that answers the next call of every kind by an API
    error. *)
Definition failing_env : Env :=
  {| remote :=
       {| lists := [ {| tl_id := "a"; tl_title := Some "Home" |} ];
          tasks := []; next_id := 1;
          faults := {| on_lists_list := [FaultHttp 500];
                       on_lists_insert := [FaultHttp 403];
                       on_lists_delete := [FaultHttp 404];
                       on_tasks_insert := [FaultHttp 500];
                       on_tasks_list := [FaultHttp 500] |} |};
     stdout := [] |}.

(** An empty destination whose second listing fails. *)
Definition second_listing_fails : Env :=
  {| remote := {| lists := []; tasks := []; next_id := 0;
                  faults := {| on_lists_list := [NoFault; FaultHttp 500];
                               on_lists_insert := [];
                               on_lists_delete := [];
                               on_tasks_insert := [];
                               on_tasks_list := [] |} |};
     stdout := [] |}.

(** An empty destination that fails to create the second task it is asked
    for. *)
Definition second_task_fails : Env :=
  {| remote := {| lists := []; tasks := []; next_id := 0;
                  faults := {| on_lists_list := [];
                               on_lists_insert := [];
                               on_lists_delete := [];
                               on_tasks_insert := [NoFault; FaultHttp 500];
                               on_tasks_list := [] |} |};
     stdout := [] |}.

(** The scenario of the specification: the area "Work" with the project
    "Launch", its heading "Prep" with the task "Write docs", and the
    standalone task "Buy milk" without an area. *)
Definition scenario_db : Database :=
  {| areas_table := [ {| a_uuid := "A"; a_title := Some "Work";
                         a_trashed := 0 |} ];
     tasks_table :=
       [ row "P" 1 "Launch" (Some "A") None None DueNone;
         row "H" 2 "Prep" None (Some "P") None DueNone;
         row "T" 0 "Write docs" None (Some "P") (Some "H") DueNone;
         row "S" 0 "Buy milk" None None None DueNone ] |}.

(** A destination task with a title and nothing else in its body. *)
Definition plain_task (id l : string) (ti : string) (parent : option string)
    : RemoteTask :=
  {| t_id := id; t_tasklist := l;
     t_body := {| b_title := Some ti; b_notes := None; b_due := None |};
     t_parent := parent |}.

(** * Part I, continued: further vocabulary *)

(** ** How a computation can end *)

(** A computation never raises [SystemExit]. *)
Definition never_exits {S A} (m : M S A) : Prop :=
  forall s code, fst (m s) <> Raise (SystemExit code).

(** ** What a run leaves of the destination *)

(** The destination and the console of [e'] extend those of [e]: every
    list, task and printed line of [e] is still there, in its place, and
    what is new comes after. *)
Definition extends (e e' : Env) : Prop :=
  lists (remote e) `prefix_of` lists (remote e')
  /\ tasks (remote e) `prefix_of` tasks (remote e')
  /\ stdout e `prefix_of` stdout e'.

(** ** The lists a run resolved *)

(** Every list kept for an area is a list of the destination and carries
    the title of an area of that identifier that is not trashed. *)
Definition area_lists_resolved (db : Database) (s : State) : Prop :=
  forall a l,
    google_task_lists_cache s !! a = Some l ->
    In l (lists (remote (env s)))
    /\ exists area,
         In area (get_areas db) /\ ad_uuid area = a
         /\ tl_title l = ad_title area.

(** The default list, once kept, is a list of the destination with the
    default title. *)
Definition default_list_resolved (s : State) : Prop :=
  forall l,
    default_google_list_cache s = Some l ->
    In l (lists (remote (env s))) /\ tl_title l = Some DEFAULT_LIST_TITLE.

(** ** What a created task carries *)

(** The task of a journal entry is a copy of its source: the source is an
    item the reader returned for the place of the entry, and the body of
    the task is the one [create_task] builds from the fields of that
    item. *)
Definition copy_of (db : Database) (ev : Event) : Prop :=
  match ev with
  | Created ProjectSite p g =>
      exists projects project,
        get_projects db = Ok projects /\ In project projects
        /\ pd_uuid project = p
        /\ t_body g
           = task_body (Some (fmt (pd_title project))) (pd_notes project)
               DueNone
  | Created (HeadingSite p) h g =>
      exists heading,
        In heading (get_headings_for_project db p) /\ hd_uuid heading = h
        /\ t_body g
           = task_body (Some ("--- " +:+ fmt (hd_title heading) +:+ " ---"))
               None DueNone
  | Created (HeadingTaskSite p h) t g =>
      exists task,
        In task (get_tasks_for_heading db h) /\ sd_uuid task = t
        /\ t_body g
           = task_body (sd_title task) (sd_notes task) (sd_due_date task)
  | Created (DirectTaskSite p) t g =>
      exists task,
        In task (get_tasks_for_project db p) /\ sd_uuid task = t
        /\ t_body g
           = task_body (sd_title task) (sd_notes task) (sd_due_date task)
  | Created StandaloneSite t g =>
      exists all_things_tasks task,
        get_tasks db = Ok all_things_tasks /\ In task all_things_tasks
        /\ td_uuid task = t
        /\ truthy_opt (td_project_uuid task) = false
        /\ t_body g
           = task_body (td_title task) (td_notes task) (td_due_date task)
  | _ => True
  end.

(** Every created task of the journal is a copy of its source. *)
Definition copies_ok (db : Database) (s : State) : Prop :=
  forall ev, In ev (journal s) -> copy_of db ev.

(** The type of the rows a site of [main] works on. *)
Definition site_type (site : Site) : Z :=
  match site with
  | ProjectSite => 1
  | HeadingSite _ => 2
  | _ => 0
  end.

(** The request body a site of [main] asks for, from the columns of the
    row: a project gives its title and its notes, a heading its title
    between dashes, a task its title, its notes and its due date. *)
Definition body_of_row (site : Site) (r : TMTask) : TaskBody :=
  match site with
  | ProjectSite => task_body (Some (fmt (title r))) (notes r) DueNone
  | HeadingSite _ =>
      task_body (Some ("--- " +:+ fmt (title r) +:+ " ---")) None DueNone
  | _ => task_body (title r) (notes r) (dueDate r)
  end.

(** ** Where a created task goes *)

(** The task [g] created for the item [u] with the area [area_uuid] sits
    in the list the state keeps for that area or, when it keeps none, in
    the default list, the item having fallen back to it. *)
Definition sent_to (s : State) (u : string) (area_uuid : option string)
    (g : RemoteTask) : Prop :=
  match cached_list (google_task_lists_cache s) area_uuid with
  | Some l => t_tasklist g = tl_id l
  | None =>
      In (Fallback u) (journal s)
      /\ exists l,
           default_google_list_cache s = Some l /\ t_tasklist g = tl_id l
  end.

(** The list [l] is the one [target_list] answers for the item. *)
Definition target_of (s : State) (u : string) (area_uuid : option string)
    (l : TaskList) : Prop :=
  match cached_list (google_task_lists_cache s) area_uuid with
  | Some l' => l' = l
  | None =>
      In (Fallback u) (journal s) /\ default_google_list_cache s = Some l
  end.

(** The project task or the standalone task of a journal entry sits in
    the list of the area of its source. *)
Definition routed (db : Database) (s : State) (ev : Event) : Prop :=
  match ev with
  | Created ProjectSite p g =>
      exists projects project,
        get_projects db = Ok projects /\ In project projects
        /\ pd_uuid project = p /\ sent_to s p (pd_area_uuid project) g
  | Created StandaloneSite t g =>
      exists all_things_tasks task,
        get_tasks db = Ok all_things_tasks /\ In task all_things_tasks
        /\ td_uuid task = t /\ sent_to s t (td_area_uuid task) g
  | _ => True
  end.

Definition routing_ok (db : Database) (s : State) : Prop :=
  forall ev, In ev (journal s) -> routed db s ev.

(** The state [s'] comes later than [s] in steps 2 and 3: the lists kept
    for the areas are the same, the default list is kept once it is, and
    the journal has grown. *)
Definition later (s s' : State) : Prop :=
  google_task_lists_cache s' = google_task_lists_cache s
  /\ (forall l, default_google_list_cache s = Some l ->
                default_google_list_cache s' = Some l)
  /\ (forall ev, In ev (journal s) -> In ev (journal s')).

(** The invariant of steps 2 and 3 that started in the state [s0]. *)
Definition routed_since (db : Database) (s0 s : State) : Prop :=
  routing_ok db s /\ later s0 s.

(** ** Clearing the destination *)

(** One round of the loop of [clear_all_task_lists_and_tasks], without
    its handler. *)
Definition clear_one (task_list : TaskList) : M Env unit :=
  print (MsgDeletingList (tl_title task_list) (tl_id task_list)) ;;
  delete_task_list (tl_id task_list).

(** The line of the handler around [delete_task_list]. *)
Definition is_delete_failed (m : Msg) : bool :=
  match m with
  | MsgDeleteListFailed _ _ => true
  | _ => false
  end.

(** The task list [id] is one of the lists. *)
Definition has_list (id : string) (ls : list TaskList) : bool :=
  existsb (fun l => String.eqb (tl_id l) id) ls.

(** No call of a kind is planned to fail before it reaches the service. *)
Definition no_transport (q : list Fault) : Prop :=
  Forall (fun f => f <> FaultTransport) q.

(** ** Dates *)

(** A date of the calendar, with a year [datetime] can hold. *)
Definition valid_date (y m d : Z) : bool :=
  (1 <=? y) && (1 <=? m) && (m <=? 12) && (1 <=? d)
  && (d <=? days_in_month y m).

(** The text "YYYY-MM-DD" of three numbers. *)
Definition date_text (y m d : Z) : string :=
  fmt4 y +:+ "-" +:+ fmt2 m +:+ "-" +:+ fmt2 d.

(** The part of the pattern after the year: month, day and the
    unconverted rest of the input. *)
Definition month_day_match (r0 : list ascii)
    : option (Z * Z * list ascii) :=
  head
    (r1 ← after_dash r0;
     '(m, r2) ← month_matches r1;
     r3 ← after_dash r2;
     '(d, r4) ← day_matches r3;
     [(m, d, r4)]).

(** The ten digits. *)
Definition digits : list Z := [0; 1; 2; 3; 4; 5; 6; 7; 8; 9].

(** The input "-ab-cd" for four digits. *)
Definition month_day_text (a b c d : Z) : list ascii :=
  ["-"%char; digit_char a; digit_char b; "-"%char; digit_char c;
   digit_char d].

(** What [month_day_match] answers on "-ab-cd": the month [ab] and the
    day [cd] with nothing left, exactly when the month is one of 1..12
    and the day one of 1..31. *)
Definition month_day_checked (a b c d : Z) : bool :=
  let m := 10 * a + b in
  let dd := 10 * c + d in
  let in_range := (1 <=? m) && (m <=? 12) && (1 <=? dd) && (dd <=? 31) in
  match month_day_match (month_day_text a b c d) with
  | Some (m', d', []) => in_range && (m' =? m) && (d' =? dd)
  | _ => negb in_range
  end.

(** ** Sample worlds for the start-up *)

(** The credentials a sample flow hands out. *)
Definition flow_credentials : Startup.Credentials :=
  {| Startup.token := "fresh"; Startup.valid := true;
     Startup.expired := false; Startup.refresh_token := Some "r" |}.

(** A world with a database, a credentials file and a configuration file
    that names both; every library call succeeds. *)
Definition sample_world : Startup.World :=
  {| Startup.path_exists :=
       fun p => String.eqb p "main.sqlite" || String.eqb p "credentials.json"
                || String.eqb p "config.py";
     Startup.import_file :=
       fun _ => Startup.Executes
                  {| Startup.THINGS_DB_PATH := Some (Some "main.sqlite");
                     Startup.GOOGLE_API_CREDENTIALS_PATH :=
                       Some (Some "credentials.json") |};
     Startup.db_opens := fun _ => true;
     Startup.refresh :=
       fun c => Some {| Startup.token := "refreshed"; Startup.valid := true;
                        Startup.expired := false;
                        Startup.refresh_token := Startup.refresh_token c |};
     Startup.run_flow := fun _ => Some flow_credentials;
     Startup.token_writable := true;
     Startup.build := fun c => Startup.BuildOk (Startup.Built c) |}.

(** The same world with a configuration file that defines neither
    name. *)
Definition empty_config_world : Startup.World :=
  {| Startup.path_exists := Startup.path_exists sample_world;
     Startup.import_file :=
       fun _ => Startup.Executes
                  {| Startup.THINGS_DB_PATH := None;
                     Startup.GOOGLE_API_CREDENTIALS_PATH := None |};
     Startup.db_opens := Startup.db_opens sample_world;
     Startup.refresh := Startup.refresh sample_world;
     Startup.run_flow := Startup.run_flow sample_world;
     Startup.token_writable := true;
     Startup.build := Startup.build sample_world |}.

(** The same world without the credentials file. *)
Definition no_secrets_world : Startup.World :=
  {| Startup.path_exists := fun p => String.eqb p "main.sqlite";
     Startup.import_file := Startup.import_file sample_world;
     Startup.db_opens := Startup.db_opens sample_world;
     Startup.refresh := fun _ => None;
     Startup.run_flow := Startup.run_flow sample_world;
     Startup.token_writable := true;
     Startup.build := Startup.build sample_world |}.

(** Both paths from the configuration file. *)
Definition config_args : Startup.Args :=
  {| Startup.db_path := None; Startup.creds_path := None;
     Startup.config_file := Some "config.py";
     Startup.clean_slate := false |}.

(** Both paths on the command line, and a configuration file. *)
Definition full_args : Startup.Args :=
  {| Startup.db_path := Some "main.sqlite";
     Startup.creds_path := Some "credentials.json";
     Startup.config_file := Some "config.py";
     Startup.clean_slate := false |}.

(** A first run: no [TOKEN_FILE], nothing printed. *)
Definition first_run_sys : Startup.Sys :=
  {| Startup.token_json := Startup.NoFile; Startup.console := [] |}.

(** Credentials that are neither valid nor expired. *)
Definition stale_credentials : Startup.Credentials :=
  {| Startup.token := "stale"; Startup.valid := false;
     Startup.expired := false; Startup.refresh_token := Some "r" |}.

(** Expired credentials with a refresh token. *)
Definition expired_credentials : Startup.Credentials :=
  {| Startup.token := "old"; Startup.valid := false;
     Startup.expired := true; Startup.refresh_token := Some "r" |}.

(** The last step of [_authenticate], from the credentials on. *)
Definition build_step (w : Startup.World) (creds : Startup.Credentials)
    : Startup.M Startup.Service :=
  Startup.try_except
    (Startup.bind (Startup.build_service (Startup.build w creds))
       (fun service =>
          Startup.bind (Startup.print Startup.LineServiceBuilt)
            (fun _ => Startup.ret service)))
    Startup.is_HttpError
    (fun err =>
       Startup.bind (Startup.print Startup.LineBuildFailed)
         (fun _ => Startup.raise err)).

(** What a step adds to the console satisfies [P]. *)
Definition adds {A} (P : Startup.Line -> Prop) (m : Startup.M A)
    (s : Startup.Sys) : Prop :=
  exists out,
    Startup.console (snd (m s)) = Startup.console s ++ out /\ Forall P out.

(** The two lines of the [except FileNotFoundError] branches of
    [main]. *)
Definition not_found_line (l : Startup.Line) : bool :=
  match l with
  | Startup.LineReaderNotFound | Startup.LineClientNotFound => true
  | _ => false
  end.

(** * Part II: properties *)

(** ** The date format *)

Example strptime_ok : strptime "2024-07-20" = Ok {| year := 2024; month := 7; day := 20 |}.
Proof. reflexivity. Qed.
Example strptime_short : strptime "2024-7-5" = Ok {| year := 2024; month := 7; day := 5 |}.
Proof. reflexivity. Qed.
Example strptime_bad1 : strptime "not-a-date" = Raise ValueError.
Proof. reflexivity. Qed.
Example strptime_bad2 : strptime "2023-02-29" = Raise ValueError.
Proof. reflexivity. Qed.
Example strptime_bad3 : strptime "2024-07-205" = Raise ValueError.
Proof. reflexivity. Qed.
Example strptime_13 : strptime "2024-13-05" = Raise ValueError.
Proof. reflexivity. Qed.
Example iso_ok : isoformat {| year := 2024; month := 7; day := 20 |} = "2024-07-20T00:00:00".
Proof. reflexivity. Qed.
Example iso_ok2 : isoformat {| year := 24; month := 12; day := 1 |} = "0024-12-01T00:00:00".
Proof. reflexivity. Qed.


(** ** The destination client *)

Ltac open_env e :=
  destruct e as [[ls ts n [q1 q2 q3 q4 q5]] out]; simpl in *.

Ltac client_unfold :=
  unfold get_task_list_by_title, get_task_lists, create_task_list,
    delete_task_list, create_task, get_tasks_in_list, due_entry,
    try_except, bind, api, print, modify, lift_res, raise,
    tasklists_list, tasklists_insert, tasklists_delete, tasks_insert,
    tasks_list, next_fault, gets, ret in *.

Lemma get_task_lists_ok (e : Env) :
  goes_through (on_lists_list (faults (remote e))) ->
  fst (get_task_lists e) = Ok (lists (remote e)).
Proof.
  client_unfold. open_env e.
  destruct q1 as [|f q1]; simpl.
  - intros _. destruct ls; reflexivity.
  - intros ->. simpl. destruct ls; reflexivity.
Qed.

Lemma get_task_lists_http (e : Env) :
  fails_http (on_lists_list (faults (remote e))) ->
  fst (get_task_lists e) = Ok [].
Proof.
  client_unfold. open_env e.
  destruct q1 as [|[|st|] q1]; simpl; try contradiction. reflexivity.
Qed.

Lemma get_task_list_by_title_find (title : option string) (e : Env) :
  fst (get_task_list_by_title title e)
  = match fst (get_task_lists e) with
    | Ok task_lists =>
        Ok (List.find (fun l => bool_decide (tl_title l = title)) task_lists)
    | Raise err => Raise err
    end.
Proof.
  unfold get_task_list_by_title, bind, ret.
  destruct (get_task_lists e) as [[l|err] e']; reflexivity.
Qed.

Lemma find_title_none (title : option string) (l : list TaskList) :
  (forall x, In x l -> tl_title x <> title) ->
  List.find (fun x => bool_decide (tl_title x = title)) l = None.
Proof.
  induction l as [|a l IH]; simpl; intros H; [reflexivity|].
  rewrite bool_decide_eq_false_2 by (apply H; now left).
  apply IH. intros x Hx. apply H. now right.
Qed.

Lemma find_title_first (title : option string) (pre post : list TaskList)
    (l : TaskList) :
  (forall x, In x pre -> tl_title x <> title) ->
  tl_title l = title ->
  List.find (fun x => bool_decide (tl_title x = title)) (pre ++ l :: post)
  = Some l.
Proof.
  induction pre as [|a pre IH]; simpl; intros H Hl.
  - now rewrite bool_decide_eq_true_2.
  - rewrite bool_decide_eq_false_2 by (apply H; now left).
    apply IH; [|exact Hl]. intros x Hx. apply H. now right.
Qed.

(** Claim C10 (first-match title lookup).  [get_task_list_by_title]
    returns [None] when the listing is answered by an API error, and when
    the listing goes through but no list has exactly the title asked for;
    when the listing goes through and several lists have the title, it
    returns the first of them in the order of the listing. *)
Theorem get_task_list_by_title_first_match (title : option string) (e : Env) :
  (fails_http (on_lists_list (faults (remote e))) ->
   fst (get_task_list_by_title title e) = Ok None)
  /\ (goes_through (on_lists_list (faults (remote e))) ->
      (forall x, In x (lists (remote e)) -> tl_title x <> title) ->
      fst (get_task_list_by_title title e) = Ok None)
  /\ (goes_through (on_lists_list (faults (remote e))) ->
      forall pre l post,
        lists (remote e) = pre ++ l :: post ->
        (forall x, In x pre -> tl_title x <> title) ->
        tl_title l = title ->
        fst (get_task_list_by_title title e) = Ok (Some l)).
Proof.
  rewrite get_task_list_by_title_find. repeat split.
  - intros H. now rewrite get_task_lists_http.
  - intros H Hno. rewrite get_task_lists_ok by exact H.
    now rewrite find_title_none.
  - intros H pre l post Hl Hpre Ht. rewrite get_task_lists_ok by exact H.
    rewrite Hl. now rewrite find_title_first.
Qed.

Lemma get_task_list_by_title_first_match_witness :
  fst (get_task_list_by_title (Some "Work") two_work_lists)
  = Ok (Some {| tl_id := "b"; tl_title := Some "Work" |}).
Proof.
  refine (proj2 (proj2 (get_task_list_by_title_first_match
            (Some "Work") two_work_lists)) _
            [ {| tl_id := "a"; tl_title := Some "Home" |} ]
            {| tl_id := "b"; tl_title := Some "Work" |}
            [ {| tl_id := "c"; tl_title := Some "Work" |} ] _ _ _).
  - simpl. exact I.
  - reflexivity.
  - intros x [<-|[]]. simpl. discriminate.
  - reflexivity.
Defined.

(** *** create_task *)

Lemma strptime_raises (s : string) (err : Exn) :
  strptime s = Raise err -> err = ValueError.
Proof.
  unfold strptime.
  destruct (pattern_match _) as [[[[y m] d] [|c r]]|]; try congruence.
  destruct (_ && _); congruence.
Qed.

Lemma say_nil (e : Env) : say [] e = e.
Proof. destruct e; unfold say; simpl. now rewrite app_nil_r. Qed.

Lemma due_entry_spec (due : DueValue) (e : Env) :
  due_entry due e
  = match due with
    | DueObject true => (Raise TypeError, e)
    | _ => (Ok (due_of due), say (due_warnings due) e)
    end.
Proof.
  unfold due_entry, due_of, due_warnings.
  destruct due as [|s|[|]]; try (now rewrite say_nil); try reflexivity.
  destruct (truthy s); [|now rewrite say_nil].
  client_unfold.
  destruct (strptime s) as [dt|err] eqn:E.
  - now rewrite say_nil.
  - apply strptime_raises in E. subst err. reflexivity.
Qed.

Lemma create_task_spec (task_list_id : string) (title notes : option string)
    (due : DueValue) (parent : option string) (e : Env) :
  create_task task_list_id title notes due parent e
  = match due with
    | DueObject true => (Raise TypeError, e)
    | _ =>
        let e1 := say (due_warnings due) e in
        match tasks_insert task_list_id (task_body title notes due)
                (parent_entry parent) (remote e1) with
        | (Ok g, sv) => (Ok (Some g), {| remote := sv; stdout := stdout e1 |})
        | (Raise (HttpError st), sv) =>
            (Ok None,
             {| remote := sv;
                stdout := stdout e1
                          ++ [MsgCreateTaskError title task_list_id
                                (HttpError st)] |})
        | (Raise err, sv) => (Raise err, {| remote := sv; stdout := stdout e1 |})
        end
    end.
Proof.
  unfold create_task. unfold bind at 1. rewrite due_entry_spec.
  destruct due as [|s|[|]]; try reflexivity.
  all: unfold task_body, parent_entry, try_except, bind, api, ret, print, modify.
  all: destruct (truthy_opt parent).
  all: match goal with |- context [tasks_insert ?a ?b ?c ?d] =>
         destruct (tasks_insert a b c d) as [[g|[]] sv] end; reflexivity.
Qed.

Lemma tasks_insert_spec (l : string) (b : TaskBody) (p : option string)
    (sv : Service) :
  tasks_insert l b p sv
  = match on_tasks_insert (faults sv) with
    | [] | NoFault :: _ =>
        let sv1 := set_faults (set_on_tasks_insert
                                 (tl (on_tasks_insert (faults sv)))
                                 (faults sv)) sv in
        let g := {| t_id := "task-" +:+ pretty (next_id sv);
                    t_tasklist := l; t_body := b; t_parent := p |} in
        (Ok g, {| lists := lists sv; tasks := tasks sv ++ [g];
                  next_id := N.succ (next_id sv); faults := faults sv1 |})
    | FaultHttp st :: q =>
        (Raise (HttpError st),
         set_faults (set_on_tasks_insert q (faults sv)) sv)
    | FaultTransport :: q =>
        (Raise TransportError,
         set_faults (set_on_tasks_insert q (faults sv)) sv)
    end.
Proof.
  unfold tasks_insert, bind, next_fault.
  destruct sv as [ls ts n [q1 q2 q3 q4 q5]]; simpl.
  destruct q4 as [|[|st|] q4]; reflexivity.
Qed.

Lemma truthy_true (s : string) : truthy s = true <-> s <> "".
Proof.
  unfold truthy. rewrite negb_true_iff. split.
  - intros H ->. now rewrite String.eqb_refl in H.
  - intros H. now apply String.eqb_neq.
Qed.

(** Claim C5 (graceful due-date degradation).  When the insertion goes
    through: with the due-date text ["2024-07-20"] the created task has
    the due time ["2024-07-20T00:00:00Z"], midnight UTC in RFC 3339, and
    nothing is printed; with ["not-a-date"] a task is still created and
    stored, it has no due entry, the warning is printed, and its title
    and notes are the ones of the call: it is the very task that the same
    call without a due date creates. *)
Theorem create_task_due_date_degrades (task_list_id : string)
    (title notes parent : option string) (e : Env) :
  goes_through (on_tasks_insert (faults (remote e))) ->
  (exists g e',
      create_task task_list_id title notes (DueText "2024-07-20") parent e
      = (Ok (Some g), e')
      /\ b_due (t_body g) = Some "2024-07-20T00:00:00Z"
      /\ stdout e' = stdout e)
  /\ (exists g e',
         create_task task_list_id title notes (DueText "not-a-date") parent e
         = (Ok (Some g), e')
         /\ In g (tasks (remote e'))
         /\ b_due (t_body g) = None
         /\ stdout e' = stdout e ++ [MsgInvalidDueDate "not-a-date"]
         /\ b_title (t_body g) = title
         /\ b_notes (t_body g) = (if truthy_opt notes then notes else None)
         /\ fst (create_task task_list_id title notes DueNone parent e)
            = Ok (Some g)).
Proof.
  intros H. rewrite !create_task_spec. cbv zeta.
  rewrite !tasks_insert_spec. open_env e.
  destruct q4 as [|f q4]; simpl in H; subst; simpl.
  all: split; eexists; eexists; repeat split; try reflexivity.
  all: try (now rewrite app_nil_r).
  all: apply in_or_app; right; now left.
Qed.

Lemma create_task_body (task_list_id : string) (title notes : option string)
    (due : DueValue) (parent : option string) (e : Env) (g : RemoteTask) :
  fst (create_task task_list_id title notes due parent e) = Ok (Some g) ->
  t_body g = task_body title notes due
  /\ t_tasklist g = task_list_id
  /\ t_parent g = parent_entry parent
  /\ truthy (t_id g) = true.
Proof.
  rewrite create_task_spec.
  destruct due as [|s|[|]]; cbv zeta.
  3: discriminate.
  all: rewrite tasks_insert_spec; simpl.
  all: destruct (on_tasks_insert _) as [|[|st|] q]; simpl; intros H;
    inversion H; subst; simpl; auto.
Qed.

(** Claim C9 (falsy fields are left out).  The task [create_task]
    returns has a notes entry exactly when [notes] is a non-empty string,
    and a due entry only when [due_date_str] is a non-empty text; empty
    notes behave as no notes, and an empty due-date text behaves as no
    due date: no due entry and no warning. *)
Theorem create_task_omits_falsy_fields (task_list_id : string)
    (title notes : option string) (due : DueValue) (parent : option string)
    (e : Env) :
  (forall g,
      fst (create_task task_list_id title notes due parent e) = Ok (Some g) ->
      (forall n, b_notes (t_body g) = Some n <-> notes = Some n /\ n <> "")
      /\ (forall d, b_due (t_body g) = Some d ->
                    exists s, due = DueText s /\ s <> ""))
  /\ create_task task_list_id title (Some "") due parent e
     = create_task task_list_id title None due parent e
  /\ create_task task_list_id title notes (DueText "") parent e
     = create_task task_list_id title notes DueNone parent e
  /\ (forall x,
        In (MsgInvalidDueDate x)
           (stdout (snd (create_task task_list_id title notes (DueText "")
                           parent e))) ->
        In (MsgInvalidDueDate x) (stdout e)).
Proof.
  split; [|split; [|split]].
  - intros g H. apply create_task_body in H as (Hb & _). rewrite Hb. simpl.
    split.
    + intros n. destruct notes as [s|]; simpl.
      * destruct (truthy s) eqn:E.
        -- apply truthy_true in E. split; [intros [= <-]; auto|now intros [? ?]].
        -- split; [discriminate|]. intros [[= <-] Hn].
           apply truthy_true in Hn. congruence.
      * split; [discriminate|now intros [? ?]].
    + intros d Hd. destruct due as [|s|b]; simpl in Hd; try discriminate.
      destruct (truthy s) eqn:E; [|discriminate].
      exists s. split; [reflexivity|]. now apply truthy_true.
  - rewrite !create_task_spec. reflexivity.
  - rewrite !create_task_spec. reflexivity.
  - intros x. rewrite create_task_spec. cbv zeta. rewrite tasks_insert_spec.
    open_env e. destruct q4 as [|[|st|] q4]; simpl; rewrite ?app_nil_r;
      try (intros H; exact H).
    rewrite in_app_iff. intros [H|[H|[]]]; [exact H|discriminate].
Qed.

Lemma create_task_omits_falsy_fields_witness :
  (Some "milk" = Some "milk" /\ "milk" <> "")
  /\ (exists s, DueText "2024-07-20" = DueText s /\ s <> "").
Proof.
  pose proof (proj1 (create_task_omits_falsy_fields "L" (Some "t")
                       (Some "milk") (DueText "2024-07-20") None fresh_env)
                {| t_id := "task-0"; t_tasklist := "L";
                   t_body := {| b_title := Some "t"; b_notes := Some "milk";
                                b_due := Some "2024-07-20T00:00:00Z" |};
                   t_parent := None |} eq_refl) as [Hn Hd].
  split.
  - apply (proj1 (Hn "milk")). reflexivity.
  - apply (Hd "2024-07-20T00:00:00Z"). reflexivity.
Defined.

Lemma create_task_due_date_degrades_witness :
  exists g e',
    create_task "L" (Some "t") (Some "n") (DueText "not-a-date") None fresh_env
    = (Ok (Some g), e')
    /\ In g (tasks (remote e'))
    /\ b_due (t_body g) = None
    /\ stdout e' = stdout fresh_env ++ [MsgInvalidDueDate "not-a-date"]
    /\ b_title (t_body g) = Some "t"
    /\ b_notes (t_body g) = Some "n"
    /\ fst (create_task "L" (Some "t") (Some "n") DueNone None fresh_env)
       = Ok (Some g).
Proof.
  refine (proj2 (create_task_due_date_degrades "L" (Some "t") (Some "n")
                   None fresh_env _)).
  simpl. exact I.
Defined.

(** *** Failure conversion *)

Lemma contains_http_bind {S A B} (m : M S A) (k : A -> M S B) :
  contains_http m -> (forall a, contains_http (k a)) ->
  contains_http (bind m k).
Proof.
  intros Hm Hk s st. unfold bind. specialize (Hm s).
  destruct (m s) as [[a|err] s']; simpl in *.
  - apply Hk.
  - intros [= ->]. now apply (Hm st).
Qed.

Lemma contains_http_try {S A} (m : M S A) (h : Exn -> M S A) :
  (forall err, contains_http (h err)) ->
  contains_http (try_except m is_HttpError h).
Proof.
  intros Hh s st. unfold try_except.
  destruct (m s) as [[a|err] s']; simpl; [discriminate|].
  destruct (is_HttpError err) eqn:E.
  - apply Hh.
  - simpl. intros [= ->]. discriminate.
Qed.

Lemma contains_http_ret {S A} (a : A) : contains_http (@ret S A a).
Proof. intros s st. discriminate. Qed.

Lemma contains_http_print (m : Msg) : contains_http (print m).
Proof. intros s st. discriminate. Qed.

Lemma contains_http_for_each {S A} (xs : list A) (body : A -> M S unit) :
  (forall x, contains_http (body x)) -> contains_http (for_each xs body).
Proof.
  intros H. induction xs as [|x xs IH]; simpl.
  - apply contains_http_ret.
  - apply contains_http_bind; auto.
Qed.

Lemma contains_http_get_task_lists : contains_http get_task_lists.
Proof.
  apply contains_http_try. intros err.
  apply contains_http_bind; [apply contains_http_print|].
  intros _. apply contains_http_ret.
Qed.

Lemma contains_http_get_task_list_by_title (title : option string) :
  contains_http (get_task_list_by_title title).
Proof.
  apply contains_http_bind; [apply contains_http_get_task_lists|].
  intros a. apply contains_http_ret.
Qed.

Lemma contains_http_create_task_list (title : option string) :
  contains_http (create_task_list title).
Proof.
  apply contains_http_try. intros err.
  apply contains_http_bind; [apply contains_http_print|].
  intros _. apply contains_http_ret.
Qed.

Lemma contains_http_delete_task_list (id : string) :
  contains_http (delete_task_list id).
Proof.
  apply contains_http_try. intros err.
  destruct err as [st| | | | |]; try apply contains_http_print.
  destruct (st) as [|p|p]; try apply contains_http_print.
  do 9 (destruct p; try apply contains_http_print).
Qed.

Lemma contains_http_clear_all : contains_http clear_all_task_lists_and_tasks.
Proof.
  apply contains_http_bind; [apply contains_http_print|]. intros _.
  apply contains_http_bind; [apply contains_http_get_task_lists|].
  intros [|l ls]; [apply contains_http_print|].
  apply contains_http_bind; [|intros _; apply contains_http_print].
  apply contains_http_for_each. intros x.
  apply contains_http_bind; [apply contains_http_print|]. intros _.
  apply contains_http_try. intros err. apply contains_http_print.
Qed.

Lemma contains_http_create_task (task_list_id : string)
    (title notes : option string) (due : DueValue) (parent : option string) :
  contains_http (create_task task_list_id title notes due parent).
Proof.
  intros e st. rewrite create_task_spec.
  destruct due as [|s|[|]]; cbv zeta; try discriminate.
  all: destruct (tasks_insert _ _ _ _) as [[g|[]] sv]; discriminate.
Qed.

Lemma contains_http_get_tasks_in_list (id : string) (c h : bool) :
  contains_http (get_tasks_in_list id c h).
Proof.
  apply contains_http_try. intros err.
  apply contains_http_bind; [apply contains_http_print|].
  intros _. apply contains_http_ret.
Qed.

Lemma create_task_list_http (title : option string) (e : Env) :
  fails_http (on_lists_insert (faults (remote e))) ->
  fst (create_task_list title e) = Ok None.
Proof.
  client_unfold. open_env e.
  destruct q2 as [|[|st|] q2]; simpl; try contradiction. reflexivity.
Qed.

Lemma create_task_http (task_list_id : string) (title notes : option string)
    (due : DueValue) (parent : option string) (e : Env) :
  due <> DueObject true ->
  fails_http (on_tasks_insert (faults (remote e))) ->
  fst (create_task task_list_id title notes due parent e) = Ok None.
Proof.
  intros Hdue Hf. rewrite create_task_spec.
  destruct due as [|s|[|]]; try congruence; cbv zeta.
  all: rewrite tasks_insert_spec; simpl.
  all: destruct (on_tasks_insert _) as [|[|st|] q]; simpl in *;
    try contradiction; reflexivity.
Qed.

Lemma get_tasks_in_list_http (id : string) (c h : bool) (e : Env) :
  fails_http (on_tasks_list (faults (remote e))) ->
  fst (get_tasks_in_list id c h e) = Ok [].
Proof.
  client_unfold. open_env e.
  destruct q5 as [|[|st|] q5]; simpl; try contradiction. reflexivity.
Qed.

Lemma delete_task_list_http (id : string) (e : Env) :
  fails_http (on_lists_delete (faults (remote e))) ->
  fst (delete_task_list id e) = Ok tt.
Proof.
  client_unfold. open_env e.
  destruct q3 as [|[|st|] q3]; simpl; try contradiction. intros _.
  destruct st as [|p|p]; try reflexivity.
  do 9 (destruct p; try reflexivity).
Qed.

(** Claim C6 (failure conversion).  An API error of the remote call, the
    [HttpError] of the client library, is caught inside each method: the
    listings return the empty list, the creations return [None], the
    deletion returns normally, and no method of the client, the
    clearing of all lists included, ever lets an [HttpError] escape. *)
Theorem client_converts_remote_errors (e : Env) :
  (fails_http (on_lists_list (faults (remote e))) ->
   fst (get_task_lists e) = Ok [])
  /\ (fails_http (on_tasks_list (faults (remote e))) ->
      forall id c h, fst (get_tasks_in_list id c h e) = Ok [])
  /\ (fails_http (on_lists_insert (faults (remote e))) ->
      forall title, fst (create_task_list title e) = Ok None)
  /\ (fails_http (on_tasks_insert (faults (remote e))) ->
      forall id title notes due parent,
        due <> DueObject true ->
        fst (create_task id title notes due parent e) = Ok None)
  /\ (fails_http (on_lists_delete (faults (remote e))) ->
      forall id, fst (delete_task_list id e) = Ok tt)
  /\ (forall st,
        fst (get_task_lists e) <> Raise (HttpError st)
        /\ (forall title,
              fst (get_task_list_by_title title e) <> Raise (HttpError st))
        /\ (forall id c h,
              fst (get_tasks_in_list id c h e) <> Raise (HttpError st))
        /\ (forall title,
              fst (create_task_list title e) <> Raise (HttpError st))
        /\ (forall id title notes due parent,
              fst (create_task id title notes due parent e)
              <> Raise (HttpError st))
        /\ (forall id, fst (delete_task_list id e) <> Raise (HttpError st))
        /\ fst (clear_all_task_lists_and_tasks e) <> Raise (HttpError st)).
Proof.
  split; [apply get_task_lists_http|].
  split; [intros H id c h; now apply get_tasks_in_list_http|].
  split; [intros H title; now apply create_task_list_http|].
  split; [intros H id title notes due parent Hd; now apply create_task_http|].
  split; [intros H id; now apply delete_task_list_http|].
  intros st.
  split; [apply contains_http_get_task_lists|].
  split; [intros title; apply contains_http_get_task_list_by_title|].
  split; [intros id c h; apply contains_http_get_tasks_in_list|].
  split; [intros title; apply contains_http_create_task_list|].
  split; [intros; apply contains_http_create_task|].
  split; [intros id; apply contains_http_delete_task_list|].
  apply contains_http_clear_all.
Qed.

Lemma client_converts_remote_errors_witness :
  fst (get_task_lists failing_env) = Ok []
  /\ fst (get_tasks_in_list "a" false false failing_env) = Ok []
  /\ fst (create_task_list (Some "New List") failing_env) = Ok None
  /\ fst (create_task "a" (Some "Test Task") None DueNone None failing_env)
     = Ok None
  /\ fst (delete_task_list "a" failing_env) = Ok tt.
Proof.
  pose proof (client_converts_remote_errors failing_env)
    as (H1 & H2 & H3 & H4 & H5 & _).
  split; [apply H1; exact I|].
  split; [apply H2; exact I|].
  split; [apply H3; exact I|].
  split; [apply H4; [exact I|discriminate]|].
  apply H5; exact I.
Defined.

(** ** Reasoning about the monad *)

Section Rules.
Context {S : Type}.

Lemma keeps_ret {A} (I : S -> Prop) (a : A) : keeps I (ret a).
Proof. intros s H. exact H. Qed.

Lemma keeps_raise {A} (I : S -> Prop) (e : Exn) : keeps I (@raise S A e).
Proof. intros s H. exact H. Qed.

Lemma keeps_gets {A} (I : S -> Prop) (f : S -> A) : keeps I (gets f).
Proof. intros s H. exact H. Qed.

Lemma keeps_lift_res {A} (I : S -> Prop) (r : Res A) :
  keeps I (@lift_res S A r).
Proof. intros s H. exact H. Qed.

Lemma keeps_modify (I : S -> Prop) (f : S -> S) :
  (forall s, I s -> I (f s)) -> keeps I (modify f).
Proof. intros Hf s H. now apply Hf. Qed.

Lemma keeps_bind {A B} (I : S -> Prop) (m : M S A) (k : A -> M S B) :
  keeps I m -> (forall a, keeps I (k a)) -> keeps I (bind m k).
Proof.
  intros Hm Hk s H. unfold bind. specialize (Hm s H).
  destruct (m s) as [[a|e] s']; simpl in *; [now apply Hk|exact Hm].
Qed.

Lemma keeps_try {A} (I : S -> Prop) (m : M S A) (c : Exn -> bool)
    (h : Exn -> M S A) :
  keeps I m -> (forall e, keeps I (h e)) -> keeps I (try_except m c h).
Proof.
  intros Hm Hh s H. unfold try_except. specialize (Hm s H).
  destruct (m s) as [[a|e] s']; simpl in *; [exact Hm|].
  destruct (c e); [now apply Hh|exact Hm].
Qed.

Lemma keeps_for_each {A} (I : S -> Prop) (xs : list A)
    (body : A -> M S unit) :
  (forall x, In x xs -> keeps I (body x)) -> keeps I (for_each xs body).
Proof.
  induction xs as [|x xs IH]; intros H; simpl.
  - apply keeps_ret.
  - apply keeps_bind; [apply H; now left|].
    intros _. apply IH. intros y Hy. apply H. now right.
Qed.

End Rules.


Lemma call_snd {A} (c : M Env A) (s : State) :
  snd (call c s) = with_env (snd (c (env s))) s.
Proof. unfold call. now destruct (c (env s)). Qed.

(** *** What the client methods of the migration do to the destination *)

Lemma get_task_lists_spec (e : Env) :
  get_task_lists e
  = let sv := remote e in
    let rest q := {| remote := set_faults (set_on_lists_list q (faults sv)) sv;
                     stdout := stdout e |} in
    match on_lists_list (faults sv) with
    | [] => (Ok (lists sv), e)
    | NoFault :: q => (Ok (lists sv), rest q)
    | FaultHttp st :: q =>
        (Ok [], say [MsgFetchListsError (HttpError st)] (rest q))
    | FaultTransport :: q => (Raise TransportError, rest q)
    end.
Proof.
  client_unfold. open_env e.
  destruct q1 as [|[|st|] q1]; simpl; try reflexivity.
  all: destruct ls; reflexivity.
Qed.

Lemma create_task_list_spec (title : option string) (e : Env) :
  create_task_list title e
  = let sv := remote e in
    let rest q := set_faults (set_on_lists_insert q (faults sv)) sv in
    let made (sv1 : Service) :=
      let l := {| tl_id := "list-" +:+ pretty (next_id sv1);
                  tl_title := title |} in
      (Ok (Some l),
       {| remote := {| lists := lists sv1 ++ [l]; tasks := tasks sv1;
                       next_id := N.succ (next_id sv1);
                       faults := faults sv1 |};
          stdout := stdout e ++ [MsgListCreated title (tl_id l)] |}) in
    match on_lists_insert (faults sv) with
    | [] => made sv
    | NoFault :: q => made (rest q)
    | FaultHttp st :: q =>
        (Ok None,
         {| remote := rest q;
            stdout := stdout e ++ [MsgCreateListError title (HttpError st)] |})
    | FaultTransport :: q =>
        (Raise TransportError, {| remote := rest q; stdout := stdout e |})
    end.
Proof.
  client_unfold. open_env e.
  destruct q2 as [|[|st|] q2]; reflexivity.
Qed.

Lemma get_task_list_by_title_spec (title : option string) (e : Env) :
  get_task_list_by_title title e
  = match get_task_lists e with
    | (Ok task_lists, e') =>
        (Ok (List.find (fun l => bool_decide (tl_title l = title)) task_lists),
         e')
    | (Raise err, e') => (Raise err, e')
    end.
Proof.
  unfold get_task_list_by_title, bind, ret.
  destruct (get_task_lists e) as [[l|err] e']; reflexivity.
Qed.

Lemma tasks_grow_get_task_list_by_title (title : option string) :
  tasks_grow (get_task_list_by_title title).
Proof.
  intros e x H. rewrite get_task_list_by_title_spec, get_task_lists_spec.
  cbv zeta. destruct (on_lists_list _) as [|[|st|] q]; exact H.
Qed.

Lemma tasks_grow_create_task_list (title : option string) :
  tasks_grow (create_task_list title).
Proof.
  intros e x H. rewrite create_task_list_spec.
  cbv zeta. destruct (on_lists_insert _) as [|[|st|] q]; exact H.
Qed.

Lemma tasks_grow_create_task (id : string) (title notes : option string)
    (due : DueValue) (parent : option string) :
  tasks_grow (create_task id title notes due parent).
Proof.
  intros e x H. rewrite create_task_spec.
  destruct due as [|s|[|]]; cbv zeta; try exact H.
  all: rewrite tasks_insert_spec; simpl.
  all: destruct (on_tasks_insert _) as [|[|st|] q]; simpl; try exact H.
  all: apply in_or_app; now left.
Qed.

Lemma create_task_stored (id : string) (title notes : option string)
    (due : DueValue) (parent : option string) (e : Env) (g : RemoteTask) :
  fst (create_task id title notes due parent e) = Ok (Some g) ->
  In g (tasks (remote (snd (create_task id title notes due parent e)))).
Proof.
  rewrite create_task_spec.
  destruct due as [|s|[|]]; cbv zeta; try discriminate.
  all: rewrite tasks_insert_spec; simpl.
  all: destruct (on_tasks_insert _) as [|[|st|] q]; simpl; try discriminate.
  all: intros [= <-]; apply in_or_app; right; now left.
Qed.

(** ** The clean-slate prompt *)

Lemma lower_ascii_y (c : ascii) :
  lower_ascii c = "y"%char -> c = "y"%char \/ c = "Y"%char.
Proof.
  destruct c as [[|] [|] [|] [|] [|] [|] [|] [|]]; vm_compute; intros H;
    first [discriminate H | now left | now right].
Qed.

Lemma lower_is_y (s : string) : lower s = "y" -> s = "y" \/ s = "Y".
Proof.
  destruct s as [|c [|c' r]]; simpl; try discriminate.
  intros [= H]. apply lower_ascii_y in H as [->| ->]; auto.
Qed.

(** Claim C7 (declined reset).  With the clean-slate flag set and any
    answer other than ["y"] or ["Y"], [main] ends by [sys.exit(0)]: the
    exit status is zero, the client environment is untouched (no remote
    call was made, so nothing was created or deleted), and the
    connection of the reader is closed. *)
Theorem declined_clean_slate_exits_cleanly (db : Database) (confirm : string)
    (s : State) :
  confirm <> "y" -> confirm <> "Y" ->
  fst (main db true confirm s) = Raise (SystemExit 0)
  /\ exit_status (fst (main db true confirm s)) = 0
  /\ env (snd (main db true confirm s)) = env s
  /\ db_open (snd (main db true confirm s)) = false.
Proof.
  intros H1 H2.
  assert (E : String.eqb (lower confirm) "y" = false).
  { apply String.eqb_neq. intros H. apply lower_is_y in H as [?|?]; auto. }
  unfold main, clean_slate_operation. rewrite E.
  repeat split.
Qed.

Lemma declined_clean_slate_exits_cleanly_witness :
  fst (main {| areas_table := []; tasks_table := [] |} true "yes"
         (initial failing_env)) = Raise (SystemExit 0)
  /\ exit_status (fst (main {| areas_table := []; tasks_table := [] |} true
                         "yes" (initial failing_env))) = 0
  /\ env (snd (main {| areas_table := []; tasks_table := [] |} true "yes"
                 (initial failing_env))) = env (initial failing_env)
  /\ db_open (snd (main {| areas_table := []; tasks_table := [] |} true "yes"
                     (initial failing_env))) = false.
Proof.
  apply declined_clean_slate_exits_cleanly; discriminate.
Defined.

(** ** A whole run *)

(** The scenario of the specification on an empty destination: the lists
    "Work" and "Things Imported Tasks"; "Launch" at the top of "Work",
    the placeholder of "Prep" under it, "Write docs" under the
    placeholder; "Buy milk" at the top of the default list. *)
Example end_to_end_scenario :
  let s' := snd (main scenario_db false "" (initial fresh_env)) in
  fst (main scenario_db false "" (initial fresh_env)) = Ok tt
  /\ lists (remote (env s'))
     = [ {| tl_id := "list-0"; tl_title := Some "Work" |};
         {| tl_id := "list-4"; tl_title := Some "Things Imported Tasks" |} ]
  /\ tasks (remote (env s'))
     = [ plain_task "task-1" "list-0" "Launch" None;
         plain_task "task-2" "list-0" "--- Prep ---" (Some "task-1");
         plain_task "task-3" "list-0" "Write docs" (Some "task-2");
         plain_task "task-5" "list-4" "Buy milk" None ]
  /\ db_open s' = false.
Proof. vm_compute. auto. Qed.

(** ** The placed set *)

Lemma bind_call {A B} (c : M Env A) (k : A -> M State B) (s : State) :
  bind (call c) k s
  = match fst (c (env s)) with
    | Ok a => k a (with_env (snd (c (env s))) s)
    | Raise e => (Raise e, with_env (snd (c (env s))) s)
    end.
Proof. unfold bind, call. now destruct (c (env s)) as [[a|e] e']. Qed.

Lemma bind_modify {S B} (f : S -> S) (k : unit -> M S B) (s : S) :
  bind (modify f) k s = k tt (f s).
Proof. reflexivity. Qed.

Lemma bind_gets {S A B} (f : S -> A) (k : A -> M S B) (s : S) :
  bind (gets f) k s = k (f s) s.
Proof. reflexivity. Qed.

(** Run the assignments at the head of the computation. *)
Ltac run_assign :=
  unfold record, add_migrated, set_default, cache_store, set_cache,
    set_migrated, close;
  repeat (rewrite bind_modify || rewrite bind_gets);
  unfold modify, ret; simpl.

Lemma placed_sound_mono (s s' : State) :
  placed_sound s ->
  (forall x, In x (journal s) -> In x (journal s')) ->
  (forall x, In x (tasks (remote (env s))) -> In x (tasks (remote (env s')))) ->
  migrated_project_task_ids s' ⊆ migrated_project_task_ids s ->
  placed_sound s'.
Proof.
  intros H Hj Ht Hm u Hu. destruct (H u) as (site & g & H1 & H2 & H3).
  { now apply Hm. }
  exists site, g. auto.
Qed.

Lemma placed_sound_place (s s' : State) (site : Site) (u : string)
    (g : RemoteTask) :
  placed_sound s ->
  site <> StandaloneSite ->
  In g (tasks (remote (env s))) ->
  journal s' = journal s ++ [Created site u g] ->
  env s' = env s ->
  migrated_project_task_ids s' = {[u]} ∪ migrated_project_task_ids s ->
  placed_sound s'.
Proof.
  intros H Hs Hg Hj He Hm v Hv. rewrite Hm in Hv. rewrite Hj, He.
  apply elem_of_union in Hv as [Hv|Hv].
  - apply elem_of_singleton in Hv as ->. exists site, g.
    split; [apply in_or_app; right; now left|auto].
  - destruct (H v Hv) as (site' & g' & H1 & H2 & H3).
    exists site', g'. split; [apply in_or_app; now left|auto].
Qed.

Lemma keeps_call_placed_sound {A} (c : M Env A) :
  tasks_grow c -> keeps placed_sound (call c).
Proof.
  intros Hc s H. rewrite call_snd.
  apply (placed_sound_mono s); simpl; auto.
Qed.

Ltac sound_mono :=
  match goal with
  | H : placed_sound ?s |- placed_sound _ =>
      apply (placed_sound_mono s); simpl;
      [exact H
      | try (intros ? ?; repeat (apply in_or_app; left); assumption); auto
      | auto | try set_solver ]
  end.

Lemma keeps_placed_sound_default :
  keeps placed_sound get_or_create_default_list.
Proof.
  intros s H. unfold get_or_create_default_list.
  unfold bind at 1. unfold gets.
  destruct (default_google_list_cache s) as [l|]; simpl.
  { sound_mono. }
  rewrite bind_call.
  pose proof (tasks_grow_get_task_list_by_title (Some DEFAULT_LIST_TITLE)
                (env s)) as G1.
  destruct (fst (get_task_list_by_title _ (env s))) as [[l|]|err]; simpl.
  - sound_mono.
  - rewrite bind_call.
    pose proof (tasks_grow_create_task_list (Some DEFAULT_LIST_TITLE)
                  (snd (get_task_list_by_title (Some DEFAULT_LIST_TITLE)
                          (env s)))) as G2.
    destruct (fst (create_task_list _ _)) as [[l|]|err]; simpl; sound_mono.
  - sound_mono.
Qed.

Lemma keeps_placed_sound_target_list (u : string) (a : option string) :
  keeps placed_sound (target_list u a).
Proof.
  intros s H. unfold target_list. unfold bind at 1, gets.
  destruct (cached_list _ _); simpl; [exact H|].
  apply keeps_placed_sound_default. sound_mono.
Qed.

(** Case analysis on the outcome of the next [create_task] call. *)
Ltac run_create s :=
  rewrite bind_call;
  match goal with
  | |- context [fst (create_task ?id ?t ?n ?d ?p (env s))] =>
      let G := fresh "G" in
      let St := fresh "St" in
      let Bd := fresh "Bd" in
      pose proof (tasks_grow_create_task id t n d p (env s)) as G;
      pose proof (create_task_stored id t n d p (env s)) as St;
      pose proof (create_task_body id t n d p (env s)) as Bd;
      destruct (fst (create_task id t n d p (env s))) as [[?g|]|?err];
      run_assign
  end.

Ltac sound_place s :=
  eapply (placed_sound_place (with_env _ s)); simpl; eauto;
  [apply (placed_sound_mono s); simpl; auto | discriminate].

Lemma keeps_placed_sound_heading_task (p h id : string) (gh : RemoteTask)
    (task : SubTaskDict) :
  keeps placed_sound (migrate_heading_task p h id gh task).
Proof.
  intros s H. unfold migrate_heading_task. cbv zeta. run_create s.
  - sound_place s.
  - sound_mono.
  - sound_mono.
Qed.

Lemma keeps_placed_sound_direct_task (p id : string) (gp : RemoteTask)
    (task : SubTaskDict) :
  keeps placed_sound (migrate_direct_task p id gp task).
Proof.
  intros s H. unfold migrate_direct_task. cbv zeta. run_create s.
  - sound_place s.
  - sound_mono.
  - sound_mono.
Qed.

Lemma keeps_placed_sound_heading (db : Database) (p id : string)
    (gp : RemoteTask) (heading : HeadingDict) :
  keeps placed_sound (migrate_heading db p id gp heading).
Proof.
  intros s H. unfold migrate_heading. cbv zeta. run_create s.
  - apply keeps_for_each.
    + intros x _. apply keeps_placed_sound_heading_task.
    + sound_place s.
  - sound_mono.
  - sound_mono.
Qed.

Lemma keeps_placed_sound_project (db : Database) (project : ProjectDict) :
  keeps placed_sound (migrate_project db project).
Proof.
  intros s H. unfold migrate_project. cbv zeta.
  pose proof (keeps_placed_sound_target_list (pd_uuid project)
                (pd_area_uuid project) s H) as H1.
  unfold bind at 1.
  destruct (target_list _ _ s) as [[[l|]|err] s1]; simpl in *; try exact H1.
  run_create s1.
  - apply keeps_bind.
    + apply keeps_for_each. intros x _. apply keeps_placed_sound_heading.
    + intros _. apply keeps_for_each. intros x _.
      apply keeps_placed_sound_direct_task.
    + sound_place s1.
  - apply (placed_sound_mono s1); simpl; auto.
  - apply (placed_sound_mono s1); simpl; auto.
Qed.

Lemma keeps_placed_sound_step2 (db : Database) :
  keeps placed_sound (step2 db).
Proof.
  apply keeps_try; [|intros e; apply keeps_ret].
  apply keeps_bind; [apply keeps_lift_res|].
  intros projects. apply keeps_for_each. intros x _.
  apply keeps_placed_sound_project.
Qed.

Lemma keeps_placed_sound_standalone (task : TaskDict) :
  keeps placed_sound (migrate_standalone_task task).
Proof.
  intros s H. unfold migrate_standalone_task. cbv zeta.
  pose proof (keeps_placed_sound_target_list (td_uuid task)
                (td_area_uuid task) s H) as H1.
  unfold bind at 1.
  destruct (target_list _ _ s) as [[[l|]|err] s1]; simpl in *; try exact H1.
  run_create s1.
  - apply (placed_sound_mono s1); simpl; auto.
    intros x Hx. apply in_or_app. now left.
  - apply (placed_sound_mono s1); simpl; auto.
  - apply (placed_sound_mono s1); simpl; auto.
Qed.

Lemma keeps_placed_sound_step3 (db : Database) :
  keeps placed_sound (step3 db).
Proof.
  apply keeps_try; [|intros e; apply keeps_ret].
  apply keeps_bind; [apply keeps_lift_res|]. intros all_tasks.
  apply keeps_bind; [apply keeps_gets|]. intros migrated.
  apply keeps_for_each. intros x _. apply keeps_placed_sound_standalone.
Qed.

(** *** Invariants that do not look at the client *)

Lemma keeps_call {A} (I : State -> Prop) (c : M Env A) :
  (forall s e, I s -> I (with_env e s)) -> keeps I (call c).
Proof. intros H s Hs. rewrite call_snd. now apply H. Qed.

Ltac keeps_leaf :=
  let s := fresh "s" in
  let H := fresh "H" in
  first
    [ apply keeps_ret | apply keeps_raise | apply keeps_gets
    | apply keeps_lift_res
    | apply keeps_call; intros s ? H; simpl in *; solve [auto | set_solver]
    | apply keeps_modify; intros s H; simpl in *;
      solve [auto | set_solver
            | intros; rewrite ?in_app_iff in *; simpl in *; intuition eauto ] ].

Ltac keeps_auto :=
  unfold main, migration, clean_slate_operation, step1, step2, step3,
    migrate_area, migrate_project, migrate_heading, migrate_heading_task,
    migrate_direct_task, migrate_standalone_task, target_list,
    get_or_create_default_list, sys_exit;
  unfold record, add_migrated, set_default, cache_store, set_cache,
    set_migrated, close;
  cbv zeta;
  repeat first
    [ apply keeps_bind; [|intros ?]
    | apply keeps_try; [|intros ?]
    | apply keeps_for_each; intros ? _
    | match goal with
      | |- keeps _ (match ?x with _ => _ end) => destruct x
      end
    | keeps_leaf ].

Lemma step3_keeps_placed_set (db : Database) (X : gset string) :
  keeps (fun s => migrated_project_task_ids s = X) (step3 db).
Proof. keeps_auto. Qed.

Lemma step2_grows_placed_set (db : Database) (X : gset string) :
  keeps (fun s => X ⊆ migrated_project_task_ids s) (step2 db).
Proof. keeps_auto. Qed.

Lemma clean_slate_keeps_placed_set (b : bool) (confirm : string)
    (X : gset string) :
  keeps (fun s => migrated_project_task_ids s = X)
    (clean_slate_operation b confirm).
Proof. keeps_auto. Qed.

Lemma keeps_placed_sound_modify (f : State -> State) :
  (forall s, (forall x, In x (journal s) -> In x (journal (f s)))
             /\ env (f s) = env s
             /\ migrated_project_task_ids (f s)
                ⊆ migrated_project_task_ids s) ->
  keeps placed_sound (modify f).
Proof.
  intros Hf. apply keeps_modify. intros s H.
  destruct (Hf s) as (H1 & H2 & H3).
  apply (placed_sound_mono s); auto. now rewrite H2.
Qed.

Lemma keeps_placed_sound_step1 (db : Database) :
  keeps placed_sound (step1 db).
Proof.
  apply keeps_try; [|intros e; apply keeps_ret].
  apply keeps_for_each. intros area _. unfold migrate_area. cbv zeta.
  apply keeps_bind.
  { apply keeps_call_placed_sound, tasks_grow_get_task_list_by_title. }
  intros [l|].
  { apply keeps_placed_sound_modify. intros s. simpl. auto. }
  apply keeps_bind.
  { apply keeps_call_placed_sound, tasks_grow_create_task_list. }
  intros [l|]; [|apply keeps_ret].
  apply keeps_placed_sound_modify. intros s. simpl. auto.
Qed.

Lemma keeps_placed_sound_migration (db : Database) :
  keeps placed_sound (migration db).
Proof.
  unfold migration.
  apply keeps_bind.
  { apply keeps_placed_sound_modify. intros s. simpl. auto. }
  intros _. apply keeps_bind; [apply keeps_placed_sound_step1|].
  intros _. apply keeps_bind.
  { apply keeps_placed_sound_modify. intros s. simpl. auto. }
  intros _. apply keeps_bind.
  { apply keeps_placed_sound_modify. intros s. simpl.
    split; [auto|split; [auto|set_solver]]. }
  intros _. apply keeps_bind; [apply keeps_placed_sound_step2|].
  intros _. apply keeps_bind; [apply keeps_placed_sound_step3|].
  intros _. apply keeps_try; [|intros e; apply keeps_ret].
  apply keeps_placed_sound_modify. intros s. simpl. auto.
Qed.

Lemma placed_sound_empty (s : State) :
  migrated_project_task_ids s = ∅ -> placed_sound s.
Proof. intros H u Hu. rewrite H in Hu. set_solver. Qed.

(** Claim C8 (soundness of the placed set).  At the end of a run every
    identifier of the placed set has an entry of the journal written by a
    site of step 2, that is, it was added just after a create call
    returned a task, and that task is held by the destination; step 3
    leaves the set as it is, and step 2 only adds to it. *)
Theorem placed_set_is_sound (db : Database) (clean_slate : bool)
    (confirm : string) (e : Env) :
  placed_sound (snd (main db clean_slate confirm (initial e)))
  /\ (forall s,
        migrated_project_task_ids (snd (step3 db s))
        = migrated_project_task_ids s)
  /\ (forall s,
        migrated_project_task_ids s
        ⊆ migrated_project_task_ids (snd (step2 db s))).
Proof.
  split; [|split].
  - unfold main.
    pose proof (clean_slate_keeps_placed_set clean_slate confirm ∅
                  (initial e) eq_refl) as H0.
    unfold bind.
    destruct (clean_slate_operation clean_slate confirm (initial e))
      as [[[]|err] s1]; simpl in *.
    + apply keeps_placed_sound_migration. now apply placed_sound_empty.
    + now apply placed_sound_empty.
  - intros s. now apply (step3_keeps_placed_set db _ s).
  - intros s. now apply (step2_grows_placed_set db _ s).
Qed.

(** ** The shape of the hierarchy *)

Lemma entry_ok_mono (db : Database) (j j' : list Event) (ev : Event) :
  (forall x, In x j -> In x j') -> entry_ok db j ev -> entry_ok db j' ev.
Proof.
  intros Hj. destruct ev as [[| p | p h | p |] u g| | |]; simpl; auto.
  - intros (H1 & gp & H2 & H3). split; [exact H1|]. exists gp. auto.
  - intros (H1 & gh & H2 & H3). split; [exact H1|]. exists gh. auto.
  - intros (H1 & gp & H2 & H3). split; [exact H1|]. exists gp. auto.
Qed.

Lemma hierarchy_ok_same (db : Database) (s s' : State) :
  journal s' = journal s -> hierarchy_ok db s -> hierarchy_ok db s'.
Proof. intros E H ev. rewrite E. apply H. Qed.

Lemma hierarchy_ok_add (db : Database) (s s' : State) (ev : Event) :
  journal s' = journal s ++ [ev] ->
  hierarchy_ok db s ->
  entry_ok db (journal s ++ [ev]) ev ->
  hierarchy_ok db s'.
Proof.
  intros E H Hev x. rewrite E. intros Hx.
  apply in_app_or in Hx as [Hx|[<-|[]]]; [|exact Hev].
  apply (entry_ok_mono db (journal s)); [|now apply H].
  intros y Hy. apply in_or_app. now left.
Qed.

Lemma parent_entry_id (g : RemoteTask) :
  truthy (t_id g) = true -> parent_entry (Some (t_id g)) = Some (t_id g).
Proof. intros H. unfold parent_entry. simpl. now rewrite H. Qed.

Lemma keeps_and {S A} (I J : S -> Prop) (m : M S A) :
  keeps I m -> keeps J m -> keeps (fun s => I s /\ J s) m.
Proof. intros HI HJ s [H1 H2]. split; [now apply HI|now apply HJ]. Qed.

(** Whatever the body of the inner loop does, the journal only grows. *)
Lemma journal_grows_heading_task (ev : Event) (p h id : string)
    (gh : RemoteTask) (task : SubTaskDict) :
  keeps (fun s => In ev (journal s)) (migrate_heading_task p h id gh task).
Proof. keeps_auto. Qed.

Lemma keeps_hier_modify (db : Database) (f : State -> State) :
  (forall s, journal (f s) = journal s
             \/ exists ev, journal (f s) = journal s ++ [ev]
                           /\ forall j, entry_ok db j ev) ->
  keeps (hierarchy_ok db) (modify f).
Proof.
  intros Hf. apply keeps_modify. intros s H.
  destruct (Hf s) as [E|(ev & E & Hev)].
  - now apply (hierarchy_ok_same db s).
  - now apply (hierarchy_ok_add db s _ ev).
Qed.

Ltac hier_leaf :=
  first
    [ apply keeps_ret | apply keeps_raise | apply keeps_gets
    | apply keeps_lift_res
    | apply keeps_call; intros ? ? ?;
      eapply hierarchy_ok_same; [|eassumption]; reflexivity
    | apply keeps_hier_modify; intros ?; simpl;
      first [ left; reflexivity
            | right; eexists; split; [reflexivity|]; intros ?; exact I ] ].

Ltac hier_auto :=
  unfold main, migration, clean_slate_operation, step1, step2, step3,
    migrate_area, target_list, get_or_create_default_list, sys_exit;
  unfold record, add_migrated, set_default, cache_store, set_cache,
    set_migrated, close;
  cbv zeta;
  repeat first
    [ apply keeps_bind; [|intros ?]
    | apply keeps_try; [|intros ?]
    | apply keeps_for_each; intros ? ?
    | match goal with
      | |- keeps _ (match ?x with _ => _ end) => destruct x
      end
    | hier_leaf ].

Lemma hier_target_list (db : Database) (u : string) (a : option string) :
  keeps (hierarchy_ok db) (target_list u a).
Proof. hier_auto. Qed.

Lemma hier_step1 (db : Database) : keeps (hierarchy_ok db) (step1 db).
Proof. hier_auto. Qed.

Lemma hier_clean_slate (db : Database) (b : bool) (confirm : string) :
  keeps (hierarchy_ok db) (clean_slate_operation b confirm).
Proof. hier_auto. Qed.

Ltac hier_same s :=
  match goal with
  | H : hierarchy_ok ?db s |- hierarchy_ok ?db _ =>
      apply (hierarchy_ok_same db s); [reflexivity|exact H]
  end.

Lemma hier_heading_task (db : Database) (p h id : string) (gh : RemoteTask)
    (task : SubTaskDict) :
  truthy (t_id gh) = true ->
  t_tasklist gh = id ->
  In task (get_tasks_for_heading db h) ->
  keeps (fun s => hierarchy_ok db s
                  /\ In (Created (HeadingSite p) h gh) (journal s))
    (migrate_heading_task p h id gh task).
Proof.
  intros Hid Hl Hin s [H C]. unfold migrate_heading_task. cbv zeta.
  run_create s.
  - split; [|apply in_or_app; now left].
    eapply (hierarchy_ok_add db s); [reflexivity|exact H|]. simpl.
    destruct (Bd g eq_refl) as (_ & B2 & B3 & _).
    split; [now apply in_map|]. exists gh.
    split; [apply in_or_app; now left|].
    rewrite B3, B2, Hl. split; [now apply parent_entry_id|reflexivity].
  - split; [hier_same s|exact C].
  - split; [hier_same s|exact C].
Qed.

Lemma hier_direct_task (db : Database) (p id : string) (gp : RemoteTask)
    (task : SubTaskDict) :
  truthy (t_id gp) = true ->
  t_tasklist gp = id ->
  In task (get_tasks_for_project db p) ->
  keeps (fun s => hierarchy_ok db s
                  /\ In (Created ProjectSite p gp) (journal s))
    (migrate_direct_task p id gp task).
Proof.
  intros Hid Hl Hin s [H C]. unfold migrate_direct_task. cbv zeta.
  run_create s.
  - split; [|apply in_or_app; now left].
    eapply (hierarchy_ok_add db s); [reflexivity|exact H|]. simpl.
    destruct (Bd g eq_refl) as (_ & B2 & B3 & _).
    split; [now apply in_map|]. exists gp.
    split; [apply in_or_app; now left|].
    rewrite B3, B2, Hl. split; [now apply parent_entry_id|reflexivity].
  - split; [hier_same s|exact C].
  - split; [hier_same s|exact C].
Qed.

Lemma hier_heading (db : Database) (p id : string) (gp : RemoteTask)
    (heading : HeadingDict) :
  truthy (t_id gp) = true ->
  t_tasklist gp = id ->
  In heading (get_headings_for_project db p) ->
  keeps (fun s => hierarchy_ok db s
                  /\ In (Created ProjectSite p gp) (journal s))
    (migrate_heading db p id gp heading).
Proof.
  intros Hid Hl Hin s [H C]. unfold migrate_heading. cbv zeta.
  run_create s.
  - destruct (Bd g eq_refl) as (_ & B2 & B3 & B4).
    match goal with
    | |- context [for_each ?xs ?body ?s1] =>
        assert (K : (hierarchy_ok db s1
                     /\ In (Created (HeadingSite p) (hd_uuid heading) g)
                          (journal s1))
                    /\ In (Created ProjectSite p gp) (journal s1))
    end.
    { simpl. split; [split|].
      - eapply (hierarchy_ok_add db s); [reflexivity|exact H|]. simpl.
        split; [now apply in_map|]. exists gp.
        split; [apply in_or_app; now left|].
        rewrite B3, B2, Hl. split; [now apply parent_entry_id|reflexivity].
      - apply in_or_app. right. now left.
      - apply in_or_app. now left. }
    revert K.
    match goal with
    | |- ?P ?s1 -> _ =>
        intros K;
        pose proof (keeps_for_each
          (fun s => (hierarchy_ok db s
                     /\ In (Created (HeadingSite p) (hd_uuid heading) g)
                          (journal s))
                    /\ In (Created ProjectSite p gp) (journal s))
          (get_tasks_for_heading db (hd_uuid heading))
          (migrate_heading_task p (hd_uuid heading) id g)) as L
    end.
    match goal with
    | |- context [for_each ?xs ?body ?s1] =>
        specialize (L ltac:(intros x Hx; apply keeps_and;
                             [now apply hier_heading_task
                             |apply journal_grows_heading_task]) s1 K)
    end.
    split; [apply L|apply L].
  - split; [hier_same s|exact C].
  - split; [hier_same s|exact C].
Qed.


Lemma hier_project (db : Database) (projects : list ProjectDict)
    (project : ProjectDict) :
  get_projects db = Ok projects ->
  In project projects ->
  keeps (hierarchy_ok db) (migrate_project db project).
Proof.
  intros Hps Hin s H. unfold migrate_project. cbv zeta.
  pose proof (hier_target_list db (pd_uuid project) (pd_area_uuid project)
                s H) as H1.
  unfold bind at 1.
  destruct (target_list _ _ s) as [[[l|]|err] s1]; simpl in *; try exact H1.
  run_create s1.
  - destruct (Bd g eq_refl) as (_ & B2 & B3 & B4).
    set (I := fun s => hierarchy_ok db s
                       /\ In (Created ProjectSite (pd_uuid project) g)
                            (journal s)).
    assert (K : keeps I
                  (for_each (get_headings_for_project db (pd_uuid project))
                     (migrate_heading db (pd_uuid project) (tl_id l) g) ;;
                   for_each (get_tasks_for_project db (pd_uuid project))
                     (migrate_direct_task (pd_uuid project) (tl_id l) g))).
    { apply keeps_bind.
      - apply keeps_for_each. intros x Hx. now apply hier_heading.
      - intros _. apply keeps_for_each. intros x Hx.
        now apply hier_direct_task. }
    apply K. split; simpl.
    + eapply (hierarchy_ok_add db s1); [reflexivity|exact H1|]. simpl.
      split; [exists projects; split; [exact Hps|now apply in_map]|].
      now rewrite B3.
    + apply in_or_app. right. now left.
  - hier_same s1.
  - hier_same s1.
Qed.

Lemma hier_step2 (db : Database) : keeps (hierarchy_ok db) (step2 db).
Proof.
  unfold step2. apply keeps_try; [|intros e; apply keeps_ret].
  intros s H. unfold bind at 1, lift_res.
  destruct (get_projects db) as [projects|err] eqn:E; simpl; [|exact H].
  apply keeps_for_each; [|exact H].
  intros x Hx. now apply (hier_project db projects).
Qed.

Lemma hier_standalone (db : Database) (task : TaskDict) :
  keeps (hierarchy_ok db) (migrate_standalone_task task).
Proof.
  intros s H. unfold migrate_standalone_task. cbv zeta.
  pose proof (hier_target_list db (td_uuid task) (td_area_uuid task) s H)
    as H1.
  unfold bind at 1.
  destruct (target_list _ _ s) as [[[l|]|err] s1]; simpl in *; try exact H1.
  run_create s1.
  - eapply (hierarchy_ok_add db s1); [reflexivity|exact H1|]. simpl.
    destruct (Bd g eq_refl) as (_ & _ & B3 & _). now rewrite B3.
  - hier_same s1.
  - hier_same s1.
Qed.

Lemma hier_step3 (db : Database) : keeps (hierarchy_ok db) (step3 db).
Proof.
  unfold step3. apply keeps_try; [|intros e; apply keeps_ret].
  apply keeps_bind; [apply keeps_lift_res|]. intros all_tasks.
  apply keeps_bind; [apply keeps_gets|]. intros migrated.
  apply keeps_for_each. intros x _. apply hier_standalone.
Qed.

Lemma hier_main (db : Database) (b : bool) (confirm : string) :
  keeps (hierarchy_ok db) (main db b confirm).
Proof.
  unfold main. apply keeps_bind; [apply hier_clean_slate|]. intros _.
  unfold migration.
  apply keeps_bind; [hier_auto|]. intros _.
  apply keeps_bind; [apply hier_step1|]. intros _.
  apply keeps_bind; [hier_auto|]. intros _.
  apply keeps_bind; [hier_auto|]. intros _.
  apply keeps_bind; [apply hier_step2|]. intros _.
  apply keeps_bind; [apply hier_step3|]. intros _.
  hier_auto.
Qed.

(** Claim C2 (shape of the hierarchy).  For every task created for a
    task [t] under a heading [h] of a project [p]: [p] is a project of
    the source, [h] one of its headings and [t] a task of [h]; the parent
    of the created task is the placeholder created for [h], whose parent
    is the task created for [p], which has no parent; and the three are
    in the same list. *)
Theorem hierarchy_shape_preserved (db : Database) (clean_slate : bool)
    (confirm : string) (e : Env) (p h t : string) (gt : RemoteTask) :
  In (Created (HeadingTaskSite p h) t gt)
     (journal (snd (main db clean_slate confirm (initial e)))) ->
  (exists projects,
      get_projects db = Ok projects /\ In p (map pd_uuid projects))
  /\ In h (map hd_uuid (get_headings_for_project db p))
  /\ In t (map sd_uuid (get_tasks_for_heading db h))
  /\ exists gh gp,
       In (Created (HeadingSite p) h gh)
          (journal (snd (main db clean_slate confirm (initial e))))
       /\ In (Created ProjectSite p gp)
            (journal (snd (main db clean_slate confirm (initial e))))
       /\ t_parent gt = Some (t_id gh)
       /\ t_parent gh = Some (t_id gp)
       /\ t_parent gp = None
       /\ t_tasklist gt = t_tasklist gh
       /\ t_tasklist gh = t_tasklist gp.
Proof.
  intros Ht.
  assert (H : hierarchy_ok db (snd (main db clean_slate confirm (initial e)))).
  { apply hier_main. intros ev []. }
  destruct (H _ Ht) as (T1 & gh & Hh & T2 & T3).
  destruct (H _ Hh) as (H1 & gp & Hp & H2 & H3).
  destruct (H _ Hp) as (P1 & P2).
  split; [exact P1|]. split; [exact H1|]. split; [exact T1|].
  exists gh, gp. repeat split; assumption.
Qed.

Lemma hierarchy_shape_preserved_witness :
  exists gh gp,
    In (Created (HeadingSite "P") "H" gh)
       (journal (snd (main sample_db false "" (initial fresh_env))))
    /\ In (Created ProjectSite "P" gp)
         (journal (snd (main sample_db false "" (initial fresh_env))))
    /\ Some "task-2" = Some (t_id gh)
    /\ t_parent gh = Some (t_id gp)
    /\ t_parent gp = None
    /\ "list-0" = t_tasklist gh
    /\ t_tasklist gh = t_tasklist gp.
Proof.
  refine (proj2 (proj2 (proj2
    (hierarchy_shape_preserved sample_db false "" fresh_env "P" "H" "T"
       {| t_id := "task-3"; t_tasklist := "list-0";
          t_body := {| b_title := Some "Write docs"; b_notes := None;
                       b_due := None |};
          t_parent := Some "task-2" |} _)))).
  vm_compute. auto 10.
Defined.

(** ** The default list *)

(** Walk down a computation, leaving the assignments and calls to [leaf]. *)
Ltac walk leaf :=
  cbv zeta;
  repeat first
    [ leaf
    | apply keeps_bind; [|intros ?]
    | apply keeps_try; [|intros ?]
    | apply keeps_for_each; intros ? ?
    | match goal with
      | |- keeps _ (match ?x with _ => _ end) => destruct x
      | |- keeps _ (if ?x then _ else _) => destruct x
      end
    | apply keeps_ret | apply keeps_raise | apply keeps_gets
    | apply keeps_lift_res ].

Lemma default_created_app (j : list Event) (ev : Event) :
  default_created (j ++ [ev])
  = (default_created j + if is_default_created ev then 1 else 0)%nat.
Proof.
  unfold default_created. rewrite List.filter_app, length_app. simpl.
  destruct (is_default_created ev); reflexivity.
Qed.

Lemma default_memo_same (s s' : State) :
  journal s' = journal s ->
  default_google_list_cache s' = default_google_list_cache s ->
  default_memo s -> default_memo s'.
Proof. unfold default_memo. intros -> ->. auto. Qed.

Lemma default_memo_add (s s' : State) (ev : Event) :
  journal s' = journal s ++ [ev] ->
  default_google_list_cache s' = default_google_list_cache s ->
  is_default_created ev = false ->
  (forall l, ev <> DefaultListReturned l) ->
  default_memo s -> default_memo s'.
Proof.
  unfold default_memo. intros -> -> Hc Hr (H1 & H2 & H3 & H4).
  rewrite default_created_app, Hc, Nat.add_0_r.
  split; [exact H1|]. split; [|split].
  - intros l Hl. apply in_app_or in Hl as [Hl|[Hl|[]]]; [auto|].
    now destruct (Hr (Some l)).
  - intros l Hl. apply in_app_or in Hl as [Hl|[Hl|[]]]; [auto|].
    subst ev. discriminate.
  - intros x Hx Hd. apply in_app_or in Hx as [Hx|[<-|[]]].
    + destruct (H4 x Hx Hd) as [u Hu]. exists u. apply in_or_app. now left.
    + destruct ev; simpl in *; try contradiction; try discriminate.
      now destruct (Hr r).
Qed.

Lemma keeps_default_memo_modify (f : State -> State) :
  (forall s, default_google_list_cache (f s) = default_google_list_cache s
             /\ (journal (f s) = journal s
                 \/ exists ev, journal (f s) = journal s ++ [ev]
                               /\ is_default_created ev = false
                               /\ forall l, ev <> DefaultListReturned l)) ->
  keeps default_memo (modify f).
Proof.
  intros Hf. apply keeps_modify. intros s H.
  destruct (Hf s) as (Hd & [Hj|(ev & Hj & H1 & H2)]).
  - now apply (default_memo_same s).
  - now apply (default_memo_add s _ ev).
Qed.

Ltac memo_leaf :=
  first
    [ apply keeps_call; intros ? ? ?;
      eapply default_memo_same; [| |eassumption]; reflexivity
    | apply keeps_default_memo_modify; intros ?; simpl;
      split; [reflexivity|];
      first [ left; reflexivity
            | right; eexists; split; [reflexivity|];
              split; [reflexivity|]; intros ?; discriminate ] ].

(** The helper, run for an item that fell back. *)
Lemma default_memo_helper (u : string) :
  keeps (fun s => default_memo s /\ In (Fallback u) (journal s))
    get_or_create_default_list.
Proof.
  intros s [(H1 & H2 & H3 & H4) F]. unfold get_or_create_default_list.
  rewrite bind_gets.
  destruct (default_google_list_cache s) as [l|] eqn:E.
  - run_assign. rewrite ?E.
    split; [|apply in_or_app; now left].
    unfold default_memo; simpl. rewrite ?E, default_created_app. simpl.
    rewrite Nat.add_0_r. split; [exact H1|]. split; [|split].
    + intros l' Hl. apply in_app_or in Hl as [Hl|[[= <-]|[]]]; auto.
    + intros l' Hl. apply in_app_or in Hl as [Hl|[[=]|[]]]; auto.
    + intros ev _ _. exists u. apply in_or_app. now left.
  - assert (N2 : forall l, ~ In (DefaultListReturned (Some l)) (journal s)).
    { intros l Hl. apply H2 in Hl. discriminate. }
    assert (N3 : forall l, ~ In (DefaultListCreated l) (journal s)).
    { intros l Hl. apply H3 in Hl. discriminate. }
    rewrite bind_call.
    destruct (fst (get_task_list_by_title _ (env s))) as [[l|]|err];
      run_assign.
    + split; [|apply in_or_app; now left].
      unfold default_memo; simpl. rewrite default_created_app. simpl.
      rewrite Nat.add_0_r, H1. split; [lia|]. split; [|split].
      * intros l' Hl. apply in_app_or in Hl as [Hl|[[= <-]|[]]]; auto.
        now destruct (N2 l').
      * intros l' Hl. apply in_app_or in Hl as [Hl|[[=]|[]]].
        now destruct (N3 l').
      * intros ev _ _. exists u. apply in_or_app. now left.
    + rewrite bind_call.
      destruct (fst (create_task_list _ _)) as [[l|]|err]; run_assign.
      * split; [|apply in_or_app; left; apply in_or_app; now left].
        unfold default_memo; simpl. rewrite !default_created_app. simpl.
        rewrite H1. split; [lia|]. split; [|split].
        -- intros l' Hl. apply in_app_or in Hl as [Hl|[[= <-]|[]]]; auto.
           apply in_app_or in Hl as [Hl|[[=]|[]]]. now destruct (N2 l').
        -- intros l' Hl. apply in_app_or in Hl as [Hl|[[=]|[]]].
           apply in_app_or in Hl as [Hl|[[= <-]|[]]]; auto.
           now destruct (N3 l').
        -- intros ev _ _. exists u. apply in_or_app. left.
           apply in_or_app. now left.
      * split; [|apply in_or_app; now left].
        unfold default_memo; simpl. rewrite ?E, default_created_app. simpl.
        rewrite Nat.add_0_r. split; [exact H1|]. split; [|split].
        -- intros l' Hl. apply in_app_or in Hl as [Hl|[[=]|[]]].
           now destruct (N2 l').
        -- intros l' Hl. apply in_app_or in Hl as [Hl|[[=]|[]]].
           now destruct (N3 l').
        -- intros ev _ _. exists u. apply in_or_app. now left.
      * split; [|exact F]. unfold default_memo; simpl. rewrite ?E. auto.
    + split; [|exact F]. unfold default_memo; simpl. rewrite ?E. auto.
Qed.

Lemma default_memo_target_list (u : string) (a : option string) :
  keeps default_memo (target_list u a).
Proof.
  intros s H. unfold target_list. rewrite bind_gets.
  destruct (cached_list _ _); [exact H|].
  run_assign.
  apply (default_memo_helper u). split; [|apply in_or_app; right; now left].
  apply (default_memo_add s _ (Fallback u)); auto; discriminate.
Qed.

Lemma default_memo_step2 (db : Database) : keeps default_memo (step2 db).
Proof.
  unfold step2, migrate_project, migrate_heading, migrate_heading_task,
    migrate_direct_task, record, add_migrated.
  walk ltac:(first [apply default_memo_target_list | memo_leaf]).
Qed.

Lemma default_memo_step3 (db : Database) : keeps default_memo (step3 db).
Proof.
  unfold step3, migrate_standalone_task, record.
  walk ltac:(first [apply default_memo_target_list | memo_leaf]).
Qed.

(** From an invariant [A] to a goal [B] along a sequence. *)
Lemma keeps_then {S A B} (I J : S -> Prop) (m : M S A) (k : A -> M S B) :
  keeps I m ->
  (forall s, I s -> J s) ->
  (forall a s, I s -> J (snd (k a s))) ->
  forall s, I s -> J (snd (bind m k s)).
Proof.
  intros Hm HJ Hk s H. unfold bind. specialize (Hm s H).
  destruct (m s) as [[a|e] s']; simpl in *; [now apply Hk|now apply HJ].
Qed.

Lemma journal_empty_clean_slate (b : bool) (confirm : string) :
  keeps (fun s => journal s = []) (clean_slate_operation b confirm).
Proof. keeps_auto. Qed.

Lemma journal_empty_step1 (db : Database) :
  keeps (fun s => journal s = []) (step1 db).
Proof. keeps_auto. Qed.

Lemma journal_empty_set_cache (c : gmap string TaskList) :
  keeps (fun s => journal s = []) (set_cache c).
Proof. keeps_auto. Qed.

Lemma default_memo_empty (s : State) : journal s = [] -> default_memo s.
Proof.
  intros E. unfold default_memo. rewrite E. simpl.
  split; [destruct (default_google_list_cache s); auto|].
  repeat split; intros; contradiction.
Qed.

Lemma default_memo_main (db : Database) (b : bool) (confirm : string)
    (e : Env) :
  default_memo (snd (main db b confirm (initial e))).
Proof.
  unfold main, migration.
  apply (keeps_then (fun s => journal s = []));
    [apply journal_empty_clean_slate|apply default_memo_empty| |reflexivity].
  intros _ s0 H0. revert s0 H0.
  apply (keeps_then (fun s => journal s = []));
    [apply journal_empty_set_cache|apply default_memo_empty|].
  intros _.
  apply (keeps_then (fun s => journal s = []));
    [apply journal_empty_step1|apply default_memo_empty|].
  intros _ s H. run_assign.
  assert (K : keeps default_memo (step2 db ;; step3 db ;;
                try_except close is_Exception (fun _ => ret tt))).
  { apply keeps_bind; [apply default_memo_step2|]. intros _.
    apply keeps_bind; [apply default_memo_step3|]. intros _.
    unfold close. walk memo_leaf. }
  apply K. now apply default_memo_empty.
Qed.

Lemma memoized_default_is_returned (s : State) (l : TaskList) :
  default_google_list_cache s = Some l ->
  fst (get_or_create_default_list s) = Ok (Some l)
  /\ env (snd (get_or_create_default_list s)) = env s.
Proof.
  intros E. unfold get_or_create_default_list. rewrite bind_gets, E.
  run_assign. auto.
Qed.

(** Claim C4 (memoized default list).  Over a whole run the helper
    creates the default list at most once; whenever it returns a list it
    is the same one, the one it keeps; it runs only for an item that fell
    back to it; and once the list is kept, the helper returns it without
    any remote call. *)
Theorem default_list_memoized (db : Database) (clean_slate : bool)
    (confirm : string) (e : Env) :
  let s' := snd (main db clean_slate confirm (initial e)) in
  (default_created (journal s') <= 1)%nat
  /\ (forall l l',
        In (DefaultListReturned (Some l)) (journal s') ->
        In (DefaultListReturned (Some l')) (journal s') -> l = l')
  /\ (forall l,
        In (DefaultListCreated l) (journal s') ->
        default_google_list_cache s' = Some l)
  /\ (forall ev,
        In ev (journal s') -> is_default_event ev ->
        exists u, In (Fallback u) (journal s'))
  /\ (forall s l,
        default_google_list_cache s = Some l ->
        fst (get_or_create_default_list s) = Ok (Some l)
        /\ env (snd (get_or_create_default_list s)) = env s).
Proof.
  intros s'. destruct (default_memo_main db clean_slate confirm e)
    as (H1 & H2 & H3 & H4). fold s' in H1, H2, H3, H4.
  split; [destruct (default_google_list_cache s'); lia|].
  split.
  { intros l l' Hl Hl'. apply H2 in Hl, Hl'. congruence. }
  split; [exact H3|]. split; [exact H4|].
  apply memoized_default_is_returned.
Qed.

Lemma default_list_memoized_witness :
  default_google_list_cache
    (snd (main sample_db false "" (initial fresh_env)))
  = Some {| tl_id := "list-5"; tl_title := Some "Things Imported Tasks" |}.
Proof.
  refine (proj1 (proj2 (proj2
            (default_list_memoized sample_db false "" fresh_env))) _ _).
  vm_compute. auto 10.
Defined.

(** ** Step 1 run twice *)

Lemma calm_tail (f : Fault) (q : list Fault) : calm (f :: q) -> calm q.
Proof. intros H. now inversion H. Qed.

Lemma calm_head (f : Fault) (q : list Fault) : calm (f :: q) -> f = NoFault.
Proof. intros H. now inversion H. Qed.

Lemma count_title_app (t : option string) (ls : list TaskList)
    (l : TaskList) :
  count_title t (ls ++ [l])
  = (count_title t ls + if has_title t l then 1 else 0)%nat.
Proof.
  unfold count_title. rewrite List.filter_app, length_app. simpl.
  destruct (has_title t l); reflexivity.
Qed.

Lemma find_none_count (t : option string) (ls : list TaskList) :
  List.find (has_title t) ls = None -> count_title t ls = 0%nat.
Proof.
  unfold count_title. induction ls as [|l ls IH]; simpl; [reflexivity|].
  destruct (has_title t l); [discriminate|exact IH].
Qed.

(** The lookup when the listing goes through. *)
Lemma lookup_calm (title : option string) (e : Env) :
  calm (on_lists_list (faults (remote e))) ->
  fst (get_task_list_by_title title e)
  = Ok (List.find (has_title title) (lists (remote e)))
  /\ lists (remote (snd (get_task_list_by_title title e))) = lists (remote e)
  /\ next_id (remote (snd (get_task_list_by_title title e)))
     = next_id (remote e)
  /\ on_lists_insert (faults (remote (snd (get_task_list_by_title title e))))
     = on_lists_insert (faults (remote e))
  /\ calm (on_lists_list
             (faults (remote (snd (get_task_list_by_title title e))))).
Proof.
  intros Hc. rewrite get_task_list_by_title_spec, get_task_lists_spec.
  cbv zeta. destruct (on_lists_list _) as [|f q] eqn:E; simpl.
  - rewrite E. repeat split; auto.
  - rewrite (calm_head _ _ Hc). simpl. repeat split; auto.
    now apply calm_tail in Hc.
Qed.

(** The creation of a list, whatever is planned for it. *)
Lemma create_list_cases (title : option string) (e : Env) :
  on_lists_list (faults (remote (snd (create_task_list title e))))
  = on_lists_list (faults (remote e))
  /\ match fst (create_task_list title e) with
     | Ok (Some l) =>
         tl_title l = title
         /\ lists (remote (snd (create_task_list title e)))
            = lists (remote e) ++ [l]
     | _ =>
         lists (remote (snd (create_task_list title e))) = lists (remote e)
     end.
Proof.
  rewrite create_task_list_spec. cbv zeta.
  destruct (on_lists_insert _) as [|[|st|] q]; simpl; auto.
Qed.

Lemma create_list_calm (title : option string) (e : Env) :
  calm (on_lists_insert (faults (remote e))) ->
  exists l,
    fst (create_task_list title e) = Ok (Some l)
    /\ calm (on_lists_insert
               (faults (remote (snd (create_task_list title e))))).
Proof.
  intros Hc. rewrite create_task_list_spec. cbv zeta.
  destruct (on_lists_insert _) as [|f q] eqn:E; simpl.
  - eexists. split; [reflexivity|]. now rewrite E.
  - rewrite (calm_head _ _ Hc). simpl. eexists. split; [reflexivity|].
    now apply calm_tail in Hc.
Qed.


Lemma titles_bounded_area (t : option string) (n0 : nat) (area : AreaDict) :
  keeps (titles_bounded t n0) (migrate_area area).
Proof.
  intros s [Hc Hn]. unfold migrate_area. cbv zeta. rewrite bind_call.
  destruct (lookup_calm (ad_title area) (env s) Hc)
    as (L1 & L2 & _ & _ & L5).
  rewrite L1. destruct (List.find _ _) as [l|] eqn:F.
  - run_assign. unfold titles_bounded; simpl. split; [exact L5|].
    now rewrite L2.
  - rewrite bind_call.
    destruct (create_list_cases (ad_title area)
                (snd (get_task_list_by_title (ad_title area) (env s))))
      as (C1 & C2).
    destruct (fst (create_task_list _ _)) as [[l|]|err]; run_assign;
      unfold titles_bounded; simpl.
    + destruct C2 as [Ct Cl]. split; [now rewrite C1|].
      rewrite Cl, count_title_app, L2.
      destruct (has_title t l) eqn:B; [|lia].
      apply bool_decide_eq_true_1 in B. rewrite Ct in B. subst t.
      rewrite (find_none_count _ _ F). lia.
    + split; [now rewrite C1|]. now rewrite C2, L2.
    + split; [now rewrite C1|]. now rewrite C2, L2.
Qed.

Lemma titles_bounded_step1 (t : option string) (n0 : nat) (db : Database) :
  keeps (titles_bounded t n0) (step1 db).
Proof.
  apply keeps_try; [|intros e; apply keeps_ret].
  apply keeps_for_each. intros a _. apply titles_bounded_area.
Qed.

Lemma step1_twice_bounded (db : Database) (e : Env) (t : option string) :
  calm (on_lists_list (faults (remote e))) ->
  (count_title t (lists (remote (env (step1_again db
                                        (snd (step1 db (initial e)))))))
   <= Nat.max 1 (count_title t (lists (remote e))))%nat.
Proof.
  intros Hc.
  assert (H1 : titles_bounded t (count_title t (lists (remote e)))
                 (snd (step1 db (initial e)))).
  { apply titles_bounded_step1. split; [exact Hc|simpl; lia]. }
  unfold step1_again. apply titles_bounded_step1. exact H1.
Qed.

(** Claim C3 as stated fails when a listing fails: the lookup then answers
    that there is no such list, the title is created a second time, and
    the second run resolves the area to the new list. *)
Lemma step1_rerun_duplicates_when_listing_fails :
  let s1 := snd (step1 work_area_db (initial second_listing_fails)) in
  let s2 := step1_again work_area_db s1 in
  count_title (Some "Work") (lists (remote (env s2))) = 2%nat
  /\ google_task_lists_cache s1 !! "A"
     = Some {| tl_id := "list-0"; tl_title := Some "Work" |}
  /\ google_task_lists_cache s2 !! "A"
     = Some {| tl_id := "list-1"; tl_title := Some "Work" |}.
Proof. vm_compute. auto. Qed.


Lemma find_app_stable {A} (P : A -> bool) (l ext : list A) (x : A) :
  List.find P l = Some x -> List.find P (l ++ ext) = Some x.
Proof.
  induction l as [|a l IH]; simpl; [discriminate|].
  destruct (P a); auto.
Qed.

Lemma find_app_new (t : option string) (ls : list TaskList) (l : TaskList) :
  List.find (has_title t) ls = None -> tl_title l = t ->
  List.find (has_title t) (ls ++ [l]) = Some l.
Proof.
  intros Hn Ht. induction ls as [|a ls IH]; simpl in *.
  - unfold has_title. now rewrite bool_decide_eq_true_2.
  - destruct (has_title t a); [discriminate|auto].
Qed.

(** One area in a first run where nothing fails. *)
Lemma migrate_area_calm (area : AreaDict) (s : State) :
  calm_lists (env s) ->
  exists l ext,
    fst (migrate_area area s) = Ok tt
    /\ calm_lists (env (snd (migrate_area area s)))
    /\ lists (remote (env (snd (migrate_area area s))))
       = lists (remote (env s)) ++ ext
    /\ List.find (has_title (ad_title area))
         (lists (remote (env (snd (migrate_area area s))))) = Some l
    /\ google_task_lists_cache (snd (migrate_area area s))
       = <[ad_uuid area := l]> (google_task_lists_cache s).
Proof.
  intros [Hc Hi]. unfold migrate_area. cbv zeta. rewrite bind_call.
  destruct (lookup_calm (ad_title area) (env s) Hc)
    as (L1 & L2 & _ & L4 & L5).
  rewrite L1. destruct (List.find _ _) as [l|] eqn:F.
  - destruct l as [li lt]. run_assign.
    exists {| tl_id := li; tl_title := lt |}, []. rewrite app_nil_r, L2.
    repeat split; auto. now rewrite L4.
  - rewrite bind_call. cbn [env with_env].
    set (e1 := snd (get_task_list_by_title (ad_title area) (env s))) in *.
    rewrite <- L4 in Hi.
    destruct (create_list_calm (ad_title area) e1 Hi) as (l & K1 & K2).
    destruct (create_list_cases (ad_title area) e1) as (C1 & C2).
    rewrite K1 in C2. destruct C2 as [Ct Cl]. destruct l as [li lt].
    subst e1. rewrite K1. run_assign. exists {| tl_id := li; tl_title := lt |}, [{| tl_id := li; tl_title := lt |}].
    rewrite Cl, L2.
    repeat split; auto.
    + now rewrite C1.
    + now apply find_app_new.
Qed.

(** The first run: every area resolves, to the first list of its title
    in the destination the run leaves behind. *)
Lemma first_run (areas : list AreaDict) (s : State) :
  calm_lists (env s) ->
  fst (for_each areas migrate_area s) = Ok tt
  /\ calm_lists (env (snd (for_each areas migrate_area s)))
  /\ (exists ext,
         lists (remote (env (snd (for_each areas migrate_area s))))
         = lists (remote (env s)) ++ ext)
  /\ (forall a, In a areas ->
        exists l,
          List.find (has_title (ad_title a))
            (lists (remote (env (snd (for_each areas migrate_area s)))))
          = Some l)
  /\ google_task_lists_cache (snd (for_each areas migrate_area s))
     = resolved_cache
         (lists (remote (env (snd (for_each areas migrate_area s)))))
         areas (google_task_lists_cache s).
Proof.
  revert s. induction areas as [|a areas IH]; intros s Hs.
  - simpl. split; [reflexivity|]. split; [exact Hs|].
    split; [exists []; now rewrite app_nil_r|].
    split; [intros a []|reflexivity].
  - simpl for_each. unfold bind at 1 2 3 4 5 6.
    destruct (migrate_area_calm a s Hs) as (l & ext & A1 & A2 & A3 & A4 & A5).
    destruct (migrate_area a s) as [r sa]; simpl in *. subst r.
    destruct (IH sa A2) as (I1 & I2 & (ext' & I3) & I4 & I5).
    split; [exact I1|]. split; [exact I2|].
    split; [exists (ext ++ ext'); now rewrite I3, A3, app_assoc|].
    split.
    + intros x [<-|Hx]; [|now apply I4].
      exists l. rewrite I3. now apply find_app_stable.
    + rewrite I5. unfold resolved_cache. simpl. f_equal.
      unfold resolve_area. rewrite I3, (find_app_stable _ _ _ _ A4).
      now rewrite A5.
Qed.

(** A later run over a destination that has a list for every title. *)
Lemma later_run (areas : list AreaDict) (s : State) :
  calm (on_lists_list (faults (remote (env s)))) ->
  (forall a, In a areas ->
     exists l,
       List.find (has_title (ad_title a)) (lists (remote (env s))) = Some l) ->
  fst (for_each areas migrate_area s) = Ok tt
  /\ lists (remote (env (snd (for_each areas migrate_area s))))
     = lists (remote (env s))
  /\ google_task_lists_cache (snd (for_each areas migrate_area s))
     = resolved_cache (lists (remote (env s))) areas
         (google_task_lists_cache s).
Proof.
  revert s. induction areas as [|a areas IH]; intros s Hc Hall.
  - simpl. auto.
  - simpl for_each. unfold bind at 1 2 3.
    destruct (Hall a (or_introl eq_refl)) as [l Hl].
    destruct (lookup_calm (ad_title a) (env s) Hc)
      as (L1 & L2 & _ & _ & L5).
    assert (E : migrate_area a s
                = (Ok tt,
                   snd (cache_store (ad_uuid a) l
                          (with_env (snd (get_task_list_by_title
                                            (ad_title a) (env s))) s)))).
    { unfold migrate_area. cbv zeta. rewrite bind_call, L1, Hl.
      now destruct l. }
    rewrite E. simpl.
    match goal with
    | |- context [for_each areas migrate_area ?sa] =>
        destruct (IH sa) as (I1 & I2 & I3)
    end.
    + exact L5.
    + simpl. rewrite L2. intros x Hx. apply Hall. now right.
    + simpl in *. rewrite L2 in *. split; [exact I1|]. split; [exact I2|].
      rewrite I3. unfold resolved_cache. simpl. f_equal.
      unfold resolve_area. now rewrite Hl.
Qed.

Lemma step1_for_each (db : Database) (s : State) :
  fst (for_each (get_areas db) migrate_area s) = Ok tt ->
  snd (step1 db s) = snd (for_each (get_areas db) migrate_area s).
Proof.
  unfold step1, try_except. cbv zeta.
  destruct (for_each _ _ s) as [[[]|err] s']; simpl; [auto|discriminate].
Qed.

Lemma find_some_in {A} (P : A -> bool) (l : list A) (x : A) :
  List.find P l = Some x -> In x l /\ P x = true.
Proof. apply List.find_some. Qed.

(** Claim C3, amended (idempotent list resolution).  When no listing
    fails, two runs of step 1 in a row leave at most one list under a
    title that had none, and add none under a title that had one; when
    no list creation fails either, the second run creates no list and
    ends with the cache of the first, and for every area the lookup by
    its title returns a list of the destination the first run left. *)
Theorem step1_rerun_idempotent (db : Database) (e : Env) :
  calm (on_lists_list (faults (remote e))) ->
  let s1 := snd (step1 db (initial e)) in
  let s2 := step1_again db s1 in
  (forall t,
      (count_title t (lists (remote (env s2)))
       <= Nat.max 1 (count_title t (lists (remote e))))%nat)
  /\ (calm (on_lists_insert (faults (remote e))) ->
      lists (remote (env s2)) = lists (remote (env s1))
      /\ google_task_lists_cache s2 = google_task_lists_cache s1
      /\ forall a, In a (get_areas db) ->
           exists l,
             In l (lists (remote (env s1)))
             /\ tl_title l = ad_title a
             /\ fst (get_task_list_by_title (ad_title a) (env s1))
                = Ok (Some l)).
Proof.
  intros Hc s1 s2. split.
  { intros t. now apply step1_twice_bounded. }
  intros Hi.
  destruct (first_run (get_areas db) (initial e) (conj Hc Hi))
    as (F1 & [F2 F2'] & _ & F4 & F5).
  assert (E1 : s1 = snd (for_each (get_areas db) migrate_area (initial e))).
  { unfold s1. now apply step1_for_each. }
  rewrite <- E1 in F2, F2', F4, F5.
  destruct (later_run (get_areas db) (initial (env s1)) F2 F4)
    as (G1 & G2 & G3).
  assert (E2 : s2 = snd (for_each (get_areas db) migrate_area
                           (initial (env s1)))).
  { unfold s2, step1_again. now apply step1_for_each. }
  rewrite <- E2 in G2, G3. simpl in G2, G3.
  split; [exact G2|]. split; [now rewrite G3, F5|].
  intros a Ha. destruct (F4 a Ha) as [l Hl]. exists l.
  destruct (find_some_in _ _ _ Hl) as [Hin Ht].
  split; [exact Hin|]. split; [now apply bool_decide_eq_true_1 in Ht|].
  destruct (lookup_calm (ad_title a) (env s1) F2) as (L1 & _).
  now rewrite L1, Hl.
Qed.

Lemma step1_rerun_idempotent_witness :
  lists (remote (env (step1_again sample_db
                        (snd (step1 sample_db (initial fresh_env))))))
  = lists (remote (env (snd (step1 sample_db (initial fresh_env)))))
  /\ google_task_lists_cache
       (step1_again sample_db (snd (step1 sample_db (initial fresh_env))))
     = google_task_lists_cache (snd (step1 sample_db (initial fresh_env))).
Proof.
  pose proof (proj2 (step1_rerun_idempotent sample_db fresh_env
                       (Forall_nil_2 _)) (Forall_nil_2 _)) as (H1 & H2 & _).
  split; [exact H1|exact H2].
Defined.

(** ** No double placement *)

Lemma sources_app (j k : list Event) :
  sources (j ++ k) = sources j ++ sources k.
Proof. unfold sources. apply flat_map_app. Qed.

Lemma emits_same {A} (m : M State A) :
  (forall s, sources (journal (snd (m s))) = sources (journal s)) ->
  emits m [].
Proof.
  intros H s. exists []. rewrite H, app_nil_r. split; [reflexivity|].
  constructor.
Qed.

Lemma emits_weaken {A} (m : M State A) (v v' : list string) :
  emits m v -> sublist v v' -> emits m v'.
Proof.
  intros H Hv s. destruct (H s) as (k & E & Hk). exists k.
  split; [exact E|]. now transitivity v.
Qed.

Lemma emits_bind {A B} (m : M State A) (k : A -> M State B)
    (v1 v2 : list string) :
  emits m v1 -> (forall a, emits (k a) v2) -> emits (bind m k) (v1 ++ v2).
Proof.
  intros Hm Hk s. unfold bind. destruct (Hm s) as (k1 & E1 & S1).
  destruct (m s) as [[a|e] s1]; simpl in *.
  - destruct (Hk a s1) as (k2 & E2 & S2). exists (k1 ++ k2).
    split; [now rewrite E2, E1, app_assoc|]. now apply sublist_app.
  - exists k1. split; [exact E1|]. now apply sublist_inserts_r.
Qed.

Lemma emits_try {A} (m : M State A) (c : Exn -> bool) (h : Exn -> M State A)
    (v : list string) :
  emits m v -> (forall e, emits (h e) []) -> emits (try_except m c h) v.
Proof.
  intros Hm Hh s. unfold try_except. destruct (Hm s) as (k1 & E1 & S1).
  destruct (m s) as [[a|e] s1]; simpl in *; [now exists k1|].
  destruct (c e); [|now exists k1].
  destruct (Hh e s1) as (k2 & E2 & S2). apply sublist_nil_r in S2. subst k2.
  exists k1. rewrite E2, app_nil_r. auto.
Qed.

Lemma emits_for_each {A} (xs : list A) (body : A -> M State unit)
    (f : A -> list string) :
  (forall x, In x xs -> emits (body x) (f x)) ->
  emits (for_each xs body) (flat_map f xs).
Proof.
  induction xs as [|x xs IH]; intros H; simpl.
  - apply emits_same. reflexivity.
  - apply emits_bind; [apply H; now left|].
    intros _. apply IH. intros y Hy. apply H. now right.
Qed.

Lemma emits_call {A} (c : M Env A) : emits (call c) [].
Proof. apply emits_same. intros s. now rewrite call_snd. Qed.

Lemma emits_record_created (site : Site) (u : string) (g : RemoteTask) :
  emits (record (Created site u g)) [u].
Proof.
  intros s. exists [u]. simpl. rewrite sources_app. simpl.
  split; [reflexivity|]. reflexivity.
Qed.

Ltac emits_nothing :=
  apply emits_same; intros ?; simpl; rewrite ?sources_app; simpl;
  rewrite ?app_nil_r; reflexivity.

Lemma emits_default : emits get_or_create_default_list [].
Proof.
  unfold get_or_create_default_list.
  change (@nil string) with (@nil string ++ []).
  apply emits_bind; [emits_nothing|]. intros [l|].
  { change (@nil string) with (@nil string ++ []).
    apply emits_bind; [|intros _]; emits_nothing. }
  change (@nil string) with (@nil string ++ []).
  apply emits_bind; [apply emits_call|]. intros [l|].
  { change (@nil string) with (@nil string ++ [] ++ []).
    apply emits_bind; [emits_nothing|]. intros _.
    apply emits_bind; [|intros _]; emits_nothing. }
  change (@nil string) with (@nil string ++ []).
  apply emits_bind; [apply emits_call|]. intros [l|].
  - change (@nil string) with (@nil string ++ [] ++ [] ++ []).
    apply emits_bind; [emits_nothing|]. intros _.
    apply emits_bind; [emits_nothing|]. intros _.
    apply emits_bind; [|intros _]; emits_nothing.
  - change (@nil string) with (@nil string ++ []).
    apply emits_bind; [|intros _]; emits_nothing.
Qed.

Lemma emits_target_list (u : string) (a : option string) :
  emits (target_list u a) [].
Proof.
  unfold target_list.
  change (@nil string) with (@nil string ++ []).
  apply emits_bind; [emits_nothing|]. intros cache.
  destruct (cached_list _ _); [emits_nothing|].
  change (@nil string) with (@nil string ++ []).
  apply emits_bind; [emits_nothing|]. intros _. apply emits_default.
Qed.

(** A create call followed, on success, by the record of its source. *)
Lemma emits_create {B} (site : Site) (u id : string)
    (title notes : option string) (due : DueValue) (parent : option string)
    (k : RemoteTask -> M State B) (none : M State B) (v : list string) :
  (forall g, emits (k g) v) ->
  emits none [] ->
  emits (bind (call (create_task id title notes due parent))
           (fun g_task =>
              match g_task with
              | Some g => record (Created site u g) ;; k g
              | None => none
              end))
    (u :: v).
Proof.
  intros Hk Hn. change (u :: v) with ([] ++ u :: v).
  apply emits_bind; [apply emits_call|]. intros [g|].
  - change (u :: v) with ([u] ++ v).
    apply emits_bind; [apply emits_record_created|]. intros _. apply Hk.
  - apply (emits_weaken _ []); [exact Hn|]. apply sublist_nil_l.
Qed.

Lemma emits_heading_task (p h id : string) (gh : RemoteTask)
    (task : SubTaskDict) :
  emits (migrate_heading_task p h id gh task) [sd_uuid task].
Proof.
  unfold migrate_heading_task. cbv zeta.
  apply emits_create; [intros g|]; emits_nothing.
Qed.

Lemma emits_direct_task (p id : string) (gp : RemoteTask)
    (task : SubTaskDict) :
  emits (migrate_direct_task p id gp task) [sd_uuid task].
Proof.
  unfold migrate_direct_task. cbv zeta.
  apply emits_create; [intros g|]; emits_nothing.
Qed.

Lemma flat_map_singleton {A B} (f : A -> B) (l : list A) :
  flat_map (fun x => [f x]) l = map f l.
Proof. induction l; simpl; congruence. Qed.

Lemma emits_heading (db : Database) (p id : string) (gp : RemoteTask)
    (heading : HeadingDict) :
  emits (migrate_heading db p id gp heading) (visited_heading db heading).
Proof.
  unfold migrate_heading, visited_heading. cbv zeta.
  apply emits_create; [intros g|emits_nothing].
  change (map sd_uuid ?l) with ([] ++ map sd_uuid l).
  apply emits_bind; [emits_nothing|]. intros _.
  rewrite <- flat_map_singleton. apply emits_for_each.
  intros x _. apply emits_heading_task.
Qed.

Lemma emits_project (db : Database) (project : ProjectDict) :
  emits (migrate_project db project) (visited_project db project).
Proof.
  unfold migrate_project, visited_project. cbv zeta.
  match goal with |- emits _ ?v => change v with ([] ++ v) end.
  apply emits_bind; [apply emits_target_list|]. intros [l|].
  2: { apply (emits_weaken _ []); [emits_nothing|apply sublist_nil_l]. }
  apply emits_create; [intros g|emits_nothing].
  match goal with |- emits _ ?v => change v with ([] ++ v) end.
  apply emits_bind; [emits_nothing|]. intros _.
  apply emits_bind.
  - apply emits_for_each. intros x _. apply emits_heading.
  - intros _. rewrite <- flat_map_singleton. apply emits_for_each.
    intros x _. apply emits_direct_task.
Qed.

Lemma emits_lift_res {A B} (r : Res A) (k : A -> M State B)
    (f : A -> list string) :
  (forall a, r = Ok a -> emits (k a) (f a)) ->
  emits (bind (lift_res r) k)
    (match r with Ok a => f a | Raise _ => [] end).
Proof.
  intros H. destruct r as [a|e].
  - intros s. apply (H a eq_refl s).
  - emits_nothing.
Qed.

Lemma emits_step2 (db : Database) : emits (step2 db) (visited db).
Proof.
  unfold step2, visited. apply emits_try; [|intros e; emits_nothing].
  apply (emits_lift_res _ _ (flat_map (visited_project db))).
  intros projects _. apply emits_for_each. intros x _. apply emits_project.
Qed.

Lemma emits_standalone (task : TaskDict) :
  emits (migrate_standalone_task task) [td_uuid task].
Proof.
  unfold migrate_standalone_task. cbv zeta.
  match goal with |- emits _ ?v => change v with ([] ++ v) end.
  apply emits_bind; [apply emits_target_list|]. intros [l|].
  2: { apply (emits_weaken _ []); [emits_nothing|apply sublist_nil_l]. }
  change [td_uuid task] with ([] ++ [td_uuid task]).
  apply emits_bind; [apply emits_call|]. intros [g|].
  - apply emits_record_created.
  - apply (emits_weaken _ []); [emits_nothing|apply sublist_nil_l].
Qed.

Lemma step3_emits (db : Database) (s : State) :
  exists k,
    sources (journal (snd (step3 db s))) = sources (journal s) ++ k
    /\ sublist k (standalone_ids db (migrated_project_task_ids s)).
Proof.
  unfold step3, standalone_ids, try_except.
  unfold bind at 1, lift_res.
  destruct (get_tasks db) as [all|err]; simpl.
  2: { exists []. rewrite app_nil_r.
       split; [now destruct (is_Exception err)|constructor]. }
  rewrite bind_gets.
  pose proof (emits_for_each
                (List.filter (is_standalone (migrated_project_task_ids s)) all)
                migrate_standalone_task (fun t => [td_uuid t])
                (fun x _ => emits_standalone x) s) as (k & E & Hk).
  rewrite flat_map_singleton in Hk.
  destruct (for_each _ _ s) as [[[]|err] s']; simpl in *.
  - now exists k.
  - destruct (is_Exception err); simpl; now exists k.
Qed.

Lemma keeps_no_standalone_step2 (db : Database) :
  keeps no_standalone_yet (step2 db).
Proof.
  unfold step2, migrate_project, migrate_heading, migrate_heading_task,
    migrate_direct_task, target_list, get_or_create_default_list,
    record, add_migrated, set_default.
  walk ltac:(first
    [ apply keeps_call; intros ? ? Hny; exact Hny
    | apply keeps_modify; intros ? Hny; unfold no_standalone_yet in *; simpl;
      intros ? ? Hin; try apply in_app_or in Hin as [Hin|[Hin|[]]];
      solve [ eapply Hny; eassumption | discriminate Hin ] ]).
Qed.

Lemma placed_covers_mono (s s' : State) :
  placed_covers s ->
  journal s' = journal s ->
  migrated_project_task_ids s ⊆ migrated_project_task_ids s' ->
  placed_covers s'.
Proof.
  intros H Hj Hm site u g Hin Hs. rewrite Hj in Hin.
  apply Hm. now apply (H site u g).
Qed.

Lemma placed_covers_place (s s' : State) (site : Site) (u : string)
    (g : RemoteTask) :
  placed_covers s ->
  journal s' = journal s ++ [Created site u g] ->
  migrated_project_task_ids s' = {[u]} ∪ migrated_project_task_ids s ->
  placed_covers s'.
Proof.
  intros H Hj Hm site' u' g' Hin Hs. rewrite Hj in Hin. rewrite Hm.
  apply in_app_or in Hin as [Hin|[[= <- <- <-]|[]]].
  - apply elem_of_union. right. now apply (H site' u' g').
  - apply elem_of_union. left. now apply elem_of_singleton.
Qed.

Lemma placed_covers_other (s s' : State) (ev : Event) :
  placed_covers s ->
  journal s' = journal s ++ [ev] ->
  (forall site u g, ev = Created site u g -> site = StandaloneSite) ->
  migrated_project_task_ids s ⊆ migrated_project_task_ids s' ->
  placed_covers s'.
Proof.
  intros H Hj Hev Hm site u g Hin Hs. rewrite Hj in Hin.
  apply in_app_or in Hin as [Hin|[->|[]]].
  - apply Hm. now apply (H site u g).
  - now destruct Hs; apply (Hev site u g).
Qed.

Lemma keeps_placed_covers_modify (f : State -> State) :
  (forall s, migrated_project_task_ids s ⊆ migrated_project_task_ids (f s)
             /\ (journal (f s) = journal s
                 \/ exists ev, journal (f s) = journal s ++ [ev]
                      /\ forall site u g, ev = Created site u g ->
                                          site = StandaloneSite)) ->
  keeps placed_covers (modify f).
Proof.
  intros Hf. apply keeps_modify. intros s H.
  destruct (Hf s) as (Hm & [Hj|(ev & Hj & Hev)]).
  - now apply (placed_covers_mono s).
  - now apply (placed_covers_other s _ ev).
Qed.

Ltac covers_leaf :=
  first
    [ apply keeps_call; intros ? ? ?;
      eapply placed_covers_mono; [eassumption|reflexivity|reflexivity]
    | apply keeps_placed_covers_modify; intros ?; simpl;
      split; [reflexivity|];
      first [ left; reflexivity
            | right; eexists; split; [reflexivity|];
              intros ? ? ? [=]; subst; reflexivity ] ].

Lemma placed_covers_target_list (u : string) (a : option string) :
  keeps placed_covers (target_list u a).
Proof.
  unfold target_list, get_or_create_default_list, record, set_default.
  walk covers_leaf.
Qed.

Ltac covers_same s :=
  match goal with
  | H : placed_covers s |- placed_covers _ =>
      apply (placed_covers_mono s); [exact H|reflexivity|reflexivity]
  end.

Ltac covers_place s :=
  match goal with
  | H : placed_covers s |- placed_covers _ =>
      eapply (placed_covers_place s); [exact H|reflexivity|reflexivity]
  end.

Lemma placed_covers_heading_task (p h id : string) (gh : RemoteTask)
    (task : SubTaskDict) :
  keeps placed_covers (migrate_heading_task p h id gh task).
Proof.
  intros s H. unfold migrate_heading_task. cbv zeta. run_create s;
    [covers_place s|covers_same s|covers_same s].
Qed.

Lemma placed_covers_direct_task (p id : string) (gp : RemoteTask)
    (task : SubTaskDict) :
  keeps placed_covers (migrate_direct_task p id gp task).
Proof.
  intros s H. unfold migrate_direct_task. cbv zeta. run_create s;
    [covers_place s|covers_same s|covers_same s].
Qed.

Lemma placed_covers_heading (db : Database) (p id : string)
    (gp : RemoteTask) (heading : HeadingDict) :
  keeps placed_covers (migrate_heading db p id gp heading).
Proof.
  intros s H. unfold migrate_heading. cbv zeta. run_create s;
    [|covers_same s|covers_same s].
  apply keeps_for_each.
  - intros x _. apply placed_covers_heading_task.
  - covers_place s.
Qed.

Lemma placed_covers_project (db : Database) (project : ProjectDict) :
  keeps placed_covers (migrate_project db project).
Proof.
  intros s H. unfold migrate_project. cbv zeta.
  pose proof (placed_covers_target_list (pd_uuid project)
                (pd_area_uuid project) s H) as H1.
  unfold bind at 1.
  destruct (target_list _ _ s) as [[[l|]|err] s1]; simpl in *; try exact H1.
  run_create s1; [|covers_same s1|covers_same s1].
  apply keeps_bind.
  - apply keeps_for_each. intros x _. apply placed_covers_heading.
  - intros _. apply keeps_for_each. intros x _.
    apply placed_covers_direct_task.
  - covers_place s1.
Qed.

Lemma placed_covers_step2 (db : Database) : keeps placed_covers (step2 db).
Proof.
  apply keeps_try; [|intros e; apply keeps_ret].
  apply keeps_bind; [apply keeps_lift_res|].
  intros projects. apply keeps_for_each. intros x _.
  apply placed_covers_project.
Qed.

Lemma placed_covers_step3 (db : Database) : keeps placed_covers (step3 db).
Proof.
  unfold step3, migrate_standalone_task, record.
  walk ltac:(first [apply placed_covers_target_list | covers_leaf]).
Qed.

(** *** The walk of step 2 visits every identifier once *)

Lemma map_filter_sublist {A B} (f : A -> B) (P : A -> bool) (l : list A) :
  sublist (map f (List.filter P l)) (map f l).
Proof.
  induction l as [|a l IH]; simpl; [constructor|].
  destruct (P a); simpl; now constructor.
Qed.

Lemma NoDup_map_filter {A B} (f : A -> B) (P : A -> bool) (l : list A) :
  NoDup (map f l) -> NoDup (map f (List.filter P l)).
Proof. intros H. eapply sublist_NoDup; [exact H|apply map_filter_sublist]. Qed.

Lemma map_res_map {A B C} (f : A -> Res B) (g : B -> C) (h : A -> C)
    (xs : list A) (ys : list B) :
  (forall x y, f x = Ok y -> g y = h x) ->
  map_res f xs = Ok ys -> map g ys = map h xs.
Proof.
  intros Hf. revert ys. induction xs as [|x xs IH]; simpl; intros ys.
  - now intros [= <-].
  - destruct (f x) as [y|e] eqn:E; [|discriminate].
    destruct (map_res f xs) as [ys'|e]; [|discriminate].
    intros [= <-]. simpl. now rewrite (Hf x y E), (IH ys').
Qed.

Lemma get_projects_uuids (db : Database) (projects : list ProjectDict) :
  get_projects db = Ok projects ->
  map pd_uuid projects
  = map uuid (List.filter (fun t => (type t =? 1) && (trashed t =? 0))
                (tasks_table db)).
Proof.
  apply map_res_map. intros x y.
  destruct (area_uuid_of db (area x)); [|discriminate]. now intros [= <-].
Qed.

Lemma get_tasks_uuids (db : Database) (all : list TaskDict) :
  get_tasks db = Ok all ->
  map td_uuid all
  = map uuid (List.filter (fun t => (type t =? 0) && (trashed t =? 0))
                (tasks_table db)).
Proof.
  apply map_res_map. intros x y.
  destruct (task_uuid_of db (project x)); [|discriminate].
  destruct (area_uuid_of db (area x)); [|discriminate].
  destruct (task_uuid_of db (heading x)); [|discriminate]. now intros [= <-].
Qed.

Lemma unique_row (db : Database) (r r' : TMTask) :
  unique_uuids db ->
  In r (tasks_table db) -> In r' (tasks_table db) -> uuid r = uuid r' ->
  r = r'.
Proof.
  unfold unique_uuids. induction (tasks_table db) as [|a l IH]; simpl.
  - intros _ [].
  - intros Hn [->|Hr] [->|Hr'] E; auto.
    + apply NoDup_cons in Hn as [Hn _]. destruct Hn.
      rewrite E. apply list_elem_of_In. now apply in_map.
    + apply NoDup_cons in Hn as [Hn _]. destruct Hn.
      rewrite <- E. apply list_elem_of_In. now apply in_map.
    + apply NoDup_cons in Hn as [_ Hn]. auto.
Qed.

Lemma tagged_unique (db : Database) (b : string) (t t' : Tag) :
  unique_uuids db -> tagged db b t -> tagged db b t' -> t = t'.
Proof.
  intros Hu (r & Hr & <- & <-) (r' & Hr' & E & <-).
  now rewrite (unique_row db r r' Hu Hr Hr').
Qed.

Lemma col_eq_true (c : option string) (v : string) :
  col_eq c v = true -> c = Some v.
Proof.
  destruct c as [u|]; simpl; [|discriminate].
  intros H. apply String.eqb_eq in H. now subst.
Qed.

Lemma in_map_filter {A B} (f : A -> B) (P : A -> bool) (l : list A) (b : B) :
  In b (map f (List.filter P l)) ->
  exists a, In a l /\ f a = b /\ P a = true.
Proof.
  intros H. apply in_map_iff in H as (a & E & Ha).
  apply filter_In in Ha as [Ha Hp]. now exists a.
Qed.

Lemma tagged_heading_task (db : Database) (h b : string) :
  In b (map sd_uuid (get_tasks_for_heading db h)) ->
  tagged db b (TagUnder h).
Proof.
  unfold get_tasks_for_heading. rewrite map_map.
  intros H. apply in_map_filter in H as (r & Hr & E & P).
  apply andb_true_iff in P as [P P3]. apply andb_true_iff in P as [P1 P2].
  exists r. split; [exact Hr|]. split; [exact E|].
  unfold tag. apply Z.eqb_eq in P1. rewrite P1. simpl.
  now rewrite (col_eq_true _ _ P3).
Qed.

Lemma tagged_direct_task (db : Database) (p b : string) :
  In b (map sd_uuid (get_tasks_for_project db p)) ->
  tagged db b (TagDirect (Some p)).
Proof.
  unfold get_tasks_for_project. rewrite map_map.
  intros H. apply in_map_filter in H as (r & Hr & E & P).
  apply andb_true_iff in P as [P P4]. apply andb_true_iff in P as [P P3].
  apply andb_true_iff in P as [P1 P2].
  exists r. split; [exact Hr|]. split; [exact E|].
  unfold tag. apply Z.eqb_eq in P1. rewrite P1. simpl.
  destruct (heading r); [discriminate|].
  now rewrite (col_eq_true _ _ P3).
Qed.

Lemma tagged_heading (db : Database) (p b : string) :
  In b (map hd_uuid (get_headings_for_project db p)) ->
  tagged db b (TagHeading (Some p)).
Proof.
  unfold get_headings_for_project. rewrite map_map.
  intros H. apply in_map_filter in H as (r & Hr & E & P).
  apply andb_true_iff in P as [P P3]. apply andb_true_iff in P as [P1 P2].
  exists r. split; [exact Hr|]. split; [exact E|].
  unfold tag. apply Z.eqb_eq in P1. rewrite P1. simpl.
  now rewrite (col_eq_true _ _ P3).
Qed.

Lemma tagged_project (db : Database) (projects : list ProjectDict)
    (b : string) :
  get_projects db = Ok projects ->
  In b (map pd_uuid projects) ->
  tagged db b TagProject.
Proof.
  intros Hp. rewrite (get_projects_uuids db projects Hp).
  intros H. apply in_map_filter in H as (r & Hr & E & P).
  apply andb_true_iff in P as [P1 P2].
  exists r. split; [exact Hr|]. split; [exact E|].
  unfold tag. apply Z.eqb_eq in P1. now rewrite P1.
Qed.

(** Lists laid one after the other have no repetition when their keys
    differ and an element determines the key of its list. *)
Lemma NoDup_flat_map_key {A} (key : A -> string) (f : A -> list string)
    (l : list A) :
  NoDup (map key l) ->
  (forall x, In x l -> NoDup (f x)) ->
  (forall x y b, In x l -> In y l -> In b (f x) -> In b (f y) ->
                 key x = key y) ->
  NoDup (flat_map f l).
Proof.
  induction l as [|a l IH]; simpl; intros Hk Hf Hd; [constructor|].
  apply NoDup_cons in Hk as [Hk1 Hk2].
  apply NoDup_app. split; [apply Hf; now left|]. split.
  - intros b Hb Hb'. apply list_elem_of_In in Hb, Hb'.
    apply in_flat_map in Hb' as (y & Hy & Hby).
    apply Hk1. rewrite (Hd a y b); auto.
    apply list_elem_of_In. now apply in_map.
  - apply IH; auto. intros x y b Hx Hy. apply Hd; now right.
Qed.

Lemma sub_task_uuids (l : list TMTask) :
  map sd_uuid (map sub_task_dict l) = map uuid l.
Proof. rewrite map_map. reflexivity. Qed.

Lemma heading_uuids (db : Database) (p : string) :
  map hd_uuid (get_headings_for_project db p)
  = map uuid (List.filter
                (fun t => (type t =? 2) && (trashed t =? 0)
                          && col_eq (project t) p)
                (tasks_table db)).
Proof. unfold get_headings_for_project. now rewrite map_map. Qed.

Lemma visited_heading_tagged (db : Database) (p : string) (h : HeadingDict)
    (b : string) :
  In h (get_headings_for_project db p) ->
  In b (visited_heading db h) ->
  (b = hd_uuid h /\ tagged db b (TagHeading (Some p)))
  \/ tagged db b (TagUnder (hd_uuid h)).
Proof.
  intros Hh [<-|Hb].
  - left. split; [reflexivity|]. apply tagged_heading. now apply in_map.
  - right. now apply tagged_heading_task.
Qed.

Ltac tag_clash Hu :=
  match goal with
  | H1 : tagged ?db ?b ?t, H2 : tagged ?db ?b ?t' |- _ =>
      let E := fresh "E" in
      pose proof (tagged_unique db b t t' Hu H1 H2) as E;
      first [ discriminate E | injection E as E ]; clear H2
  end.

Lemma NoDup_visited_heading (db : Database) (p : string) (h : HeadingDict) :
  unique_uuids db ->
  In h (get_headings_for_project db p) ->
  NoDup (visited_heading db h).
Proof.
  intros Hu Hh. unfold visited_heading. apply NoDup_cons. split.
  - intros Hin. apply list_elem_of_In in Hin.
    apply tagged_heading_task in Hin.
    assert (T : tagged db (hd_uuid h) (TagHeading (Some p))).
    { apply tagged_heading. now apply in_map. }
    tag_clash Hu.
  - unfold get_tasks_for_heading. rewrite sub_task_uuids.
    now apply NoDup_map_filter.
Qed.

Lemma NoDup_visited_headings (db : Database) (p : string) :
  unique_uuids db ->
  NoDup (flat_map (visited_heading db) (get_headings_for_project db p)).
Proof.
  intros Hu. apply (NoDup_flat_map_key hd_uuid).
  - rewrite heading_uuids. now apply NoDup_map_filter.
  - intros h Hh. now apply (NoDup_visited_heading db p).
  - intros x y b Hx Hy Hbx Hby.
    destruct (visited_heading_tagged db p x b Hx Hbx) as [[E1 T1]|T1];
      destruct (visited_heading_tagged db p y b Hy Hby) as [[E2 T2]|T2].
    + congruence.
    + tag_clash Hu.
    + tag_clash Hu.
    + tag_clash Hu. exact E.
Qed.

(** Where an identifier that step 2 visits under a project sits. *)
Lemma visited_project_tagged (db : Database) (p : ProjectDict) (b : string) :
  In b (visited_project db p) ->
  b = pd_uuid p
  \/ tagged db b (TagHeading (Some (pd_uuid p)))
  \/ (exists hu, tagged db hu (TagHeading (Some (pd_uuid p)))
                 /\ tagged db b (TagUnder hu))
  \/ tagged db b (TagDirect (Some (pd_uuid p))).
Proof.
  intros [<-|Hb]; [now left|]. right.
  apply in_app_or in Hb as [Hb|Hb].
  - apply in_flat_map in Hb as (h & Hh & Hb).
    destruct (visited_heading_tagged db (pd_uuid p) h b Hh Hb)
      as [[-> T]|T]; [now left|].
    right. left. exists (hd_uuid h). split; [|exact T].
    apply tagged_heading. now apply in_map.
  - right. right. now apply tagged_direct_task.
Qed.

Lemma NoDup_visited_project (db : Database) (projects : list ProjectDict)
    (p : ProjectDict) :
  unique_uuids db ->
  get_projects db = Ok projects -> In p projects ->
  NoDup (visited_project db p).
Proof.
  intros Hu Hps Hp.
  assert (TP : tagged db (pd_uuid p) TagProject).
  { apply (tagged_project db projects); [exact Hps|now apply in_map]. }
  unfold visited_project. apply NoDup_cons. split.
  - intros Hin. apply list_elem_of_In in Hin.
    assert (Hin' : In (pd_uuid p) (visited_project db p)) by now right.
    clear Hin'. apply in_app_or in Hin as [Hin|Hin].
    + apply in_flat_map in Hin as (h & Hh & Hb).
      destruct (visited_heading_tagged db (pd_uuid p) h _ Hh Hb)
        as [[_ T]|T]; tag_clash Hu.
    + apply tagged_direct_task in Hin. tag_clash Hu.
  - apply NoDup_app. split; [now apply NoDup_visited_headings|]. split.
    + intros b Hb Hb'. apply list_elem_of_In in Hb, Hb'.
      apply tagged_direct_task in Hb'.
      apply in_flat_map in Hb as (h & Hh & Hb).
      destruct (visited_heading_tagged db (pd_uuid p) h b Hh Hb)
        as [[_ T]|T]; tag_clash Hu.
    + unfold get_tasks_for_project. rewrite sub_task_uuids.
      now apply NoDup_map_filter.
Qed.

Lemma NoDup_visited (db : Database) : unique_uuids db -> NoDup (visited db).
Proof.
  intros Hu. unfold visited.
  destruct (get_projects db) as [projects|err] eqn:Hps; [|constructor].
  apply (NoDup_flat_map_key pd_uuid).
  - rewrite (get_projects_uuids db projects Hps). now apply NoDup_map_filter.
  - intros p Hp. now apply (NoDup_visited_project db projects).
  - intros x y b Hx Hy Hbx Hby.
    assert (TX : tagged db (pd_uuid x) TagProject).
    { apply (tagged_project db projects); [exact Hps|now apply in_map]. }
    assert (TY : tagged db (pd_uuid y) TagProject).
    { apply (tagged_project db projects); [exact Hps|now apply in_map]. }
    apply visited_project_tagged in Hbx as [->|[T1|[(h1 & H1 & T1)|T1]]];
      apply visited_project_tagged in Hby as [E|[T2|[(h2 & H2 & T2)|T2]]];
      try congruence; try (subst; tag_clash Hu; fail);
      try (tag_clash Hu; congruence).
    tag_clash Hu. subst h2. tag_clash Hu. congruence.
Qed.

Lemma NoDup_standalone_ids (db : Database) (X : gset string) :
  unique_uuids db -> NoDup (standalone_ids db X).
Proof.
  intros Hu. unfold standalone_ids.
  destruct (get_tasks db) as [all|err] eqn:E; [|constructor].
  eapply sublist_NoDup; [|apply map_filter_sublist].
  rewrite (get_tasks_uuids db all E). now apply NoDup_map_filter.
Qed.

Lemma standalone_ids_not_placed (db : Database) (X : gset string)
    (u : string) :
  In u (standalone_ids db X) -> u ∉ X.
Proof.
  unfold standalone_ids. destruct (get_tasks db) as [all|err]; [|intros []].
  intros H. apply in_map_filter in H as (t & _ & <- & P).
  unfold is_standalone in P. apply andb_true_iff in P as [P _].
  apply negb_true_iff in P. now apply bool_decide_eq_false_1 in P.
Qed.

(** *** At most one task per source *)

Lemma stage {S A B} (P Q R : S -> Prop) (m : M S A) (k : A -> M S B) :
  (forall s, P s -> Q (snd (m s))) ->
  (forall s, Q s -> R s) ->
  (forall a s, Q s -> R (snd (k a s))) ->
  forall s, P s -> R (snd (bind m k s)).
Proof.
  intros Hm HR Hk s H. unfold bind. specialize (Hm s H).
  destruct (m s) as [[a|e] s']; simpl in *; [now apply Hk|now apply HR].
Qed.

Lemma in_sources (j : list Event) (x : string) :
  In x (sources j) <-> exists site g, In (Created site x g) j.
Proof.
  unfold sources. rewrite in_flat_map. split.
  - intros (ev & Hev & Hx). destruct ev; simpl in Hx; try contradiction.
    destruct Hx as [->|[]]. eauto.
  - intros (site & g & H). exists (Created site x g). split; [exact H|].
    now left.
Qed.

Lemma step2_from_empty (db : Database) (s : State) :
  journal s = [] -> after_step2 db (snd (step2 db s)).
Proof.
  intros E. split; [|split].
  - destruct (emits_step2 db s) as (k & Hk & Hs). rewrite Hk, E. exact Hs.
  - apply placed_covers_step2. intros site u g Hin. rewrite E in Hin.
    destruct Hin.
  - apply keeps_no_standalone_step2. intros u g Hin. rewrite E in Hin.
    destruct Hin.
Qed.

Lemma step3_after_step2 (db : Database) (s : State) :
  unique_uuids db -> after_step2 db s ->
  NoDup (sources (journal (snd (step3 db s)))).
Proof.
  intros Hu (H1 & H2 & H3).
  destruct (step3_emits db s) as (k & Hk & Hs). rewrite Hk.
  apply NoDup_app. split; [|split].
  - apply (sublist_NoDup _ (visited db)); [now apply NoDup_visited|exact H1].
  - intros x Hx Hx'. apply list_elem_of_In in Hx.
    apply in_sources in Hx as (site & g & Hin).
    assert (Hm : x ∈ migrated_project_task_ids s).
    { apply (H2 site x g Hin). intros ->. now apply (H3 x g). }
    apply (elem_of_sublist _ _ _ Hx') in Hs. apply list_elem_of_In in Hs.
    now apply standalone_ids_not_placed in Hs.
  - apply (sublist_NoDup _ (standalone_ids db (migrated_project_task_ids s)));
      [now apply NoDup_standalone_ids|exact Hs].
Qed.

Lemma at_most_once_migration (db : Database) (s : State) :
  unique_uuids db -> journal s = [] ->
  NoDup (sources (journal (snd (migration db s)))).
Proof.
  intros Hu. revert s. unfold migration.
  pose (P0 := fun s : State => journal s = []).
  pose (R := fun s : State => NoDup (sources (journal s))).
  assert (E0 : forall s, P0 s -> R s).
  { intros s E. unfold R. rewrite E. constructor. }
  apply (stage P0 P0 R); [intros s H; exact H|exact E0|]. intros _.
  apply (stage P0 P0 R); [apply journal_empty_step1|exact E0|]. intros _.
  apply (stage P0 P0 R); [intros s H; exact H|exact E0|]. intros _.
  apply (stage P0 P0 R); [intros s H; exact H|exact E0|]. intros _.
  apply (stage P0 (after_step2 db) R); [apply step2_from_empty| |].
  { intros s (H1 & _).
    apply (sublist_NoDup _ (visited db)); [now apply NoDup_visited|exact H1]. }
  intros _.
  apply (stage (after_step2 db) R R);
    [intros s H; now apply step3_after_step2|auto|].
  intros _ s H. unfold try_except, close, modify. simpl. exact H.
Qed.

Lemma at_most_once_main (db : Database) (b : bool) (confirm : string)
    (e : Env) :
  unique_uuids db ->
  NoDup (sources (journal (snd (main db b confirm (initial e))))).
Proof.
  intros Hu. unfold main.
  apply (stage (fun s => journal s = []) (fun s => journal s = [])
           (fun s => NoDup (sources (journal s))));
    [apply journal_empty_clean_slate| | |reflexivity].
  - intros s ->. constructor.
  - intros _ s. now apply at_most_once_migration.
Qed.

(** *** Marked exactly when step 2 created the task *)

Lemma placed_covers_empty (s : State) : journal s = [] -> placed_covers s.
Proof. intros E site u g Hin. rewrite E in Hin. destruct Hin. Qed.

Lemma placed_covers_main (db : Database) (b : bool) (confirm : string)
    (e : Env) :
  placed_covers (snd (main db b confirm (initial e))).
Proof.
  pose (P0 := fun s : State => journal s = []).
  unfold main.
  apply (stage P0 P0 placed_covers);
    [apply journal_empty_clean_slate|apply placed_covers_empty|
    |reflexivity].
  intros _. unfold migration.
  apply (stage P0 P0 placed_covers);
    [intros s H; exact H|apply placed_covers_empty|]. intros _.
  apply (stage P0 P0 placed_covers);
    [apply journal_empty_step1|apply placed_covers_empty|]. intros _.
  apply (stage P0 P0 placed_covers);
    [intros s H; exact H|apply placed_covers_empty|]. intros _.
  apply (stage P0 P0 placed_covers);
    [intros s H; exact H|apply placed_covers_empty|]. intros _.
  apply (stage P0 placed_covers placed_covers); [|auto|].
  { intros s H. apply placed_covers_step2. now apply placed_covers_empty. }
  intros _.
  apply (stage placed_covers placed_covers placed_covers);
    [apply placed_covers_step3|auto|].
  intros _ s H. unfold try_except, close, modify. simpl.
  now apply (placed_covers_mono s).
Qed.

(** *** What step 3 creates *)

Lemma keeps_standalone_ok_modify (db : Database) (X : gset string)
    (f : State -> State) :
  (forall s, migrated_project_task_ids (f s) = migrated_project_task_ids s
             /\ (journal (f s) = journal s
                 \/ exists ev, journal (f s) = journal s ++ [ev]
                      /\ forall u g, ev = Created StandaloneSite u g ->
                                     In u (standalone_ids db X))) ->
  keeps (standalone_ok db X) (modify f).
Proof.
  intros Hf. apply keeps_modify. intros s [Hm H].
  destruct (Hf s) as (Em & [Ej|(ev & Ej & Hev)]).
  - split; [congruence|]. intros u g. rewrite Ej. apply H.
  - split; [congruence|]. intros u g. rewrite Ej. intros Hin.
    apply in_app_or in Hin as [Hin|[->|[]]]; [now apply (H u g)|].
    now apply (Hev u g).
Qed.

Ltac standalone_leaf :=
  first
    [ apply keeps_call; intros ? ? Hso; exact Hso
    | apply keeps_standalone_ok_modify; intros ?; simpl;
      split; [reflexivity|];
      first [ left; reflexivity
            | right; eexists; split; [reflexivity|];
              intros ? ? [=]; subst; assumption
            | right; eexists; split; [reflexivity|];
              intros ? ? Heq; discriminate Heq ] ].

Lemma standalone_ok_task (db : Database) (X : gset string) (task : TaskDict) :
  In (td_uuid task) (standalone_ids db X) ->
  keeps (standalone_ok db X) (migrate_standalone_task task).
Proof.
  intros Hin.
  unfold migrate_standalone_task, target_list, get_or_create_default_list,
    record, set_default.
  walk standalone_leaf.
Qed.

Lemma step3_standalone_ok (db : Database) (s : State) :
  no_standalone_yet s ->
  standalone_ok db (migrated_project_task_ids s) (snd (step3 db s)).
Proof.
  intros Hn.
  assert (H0 : standalone_ok db (migrated_project_task_ids s) s).
  { split; [reflexivity|]. intros u g Hin. now destruct (Hn u g). }
  unfold step3, try_except. unfold bind at 1, lift_res.
  destruct (get_tasks db) as [all|err] eqn:E; simpl.
  2: { now destruct (is_Exception err). }
  rewrite bind_gets.
  assert (K : keeps (standalone_ok db (migrated_project_task_ids s))
                (for_each (List.filter
                             (is_standalone (migrated_project_task_ids s))
                             all)
                   migrate_standalone_task)).
  { apply keeps_for_each. intros x Hx. apply standalone_ok_task.
    unfold standalone_ids. rewrite E. now apply in_map. }
  specialize (K s H0).
  destruct (for_each _ _ s) as [[[]|err] s']; simpl in *; [exact K|].
  now destruct (is_Exception err).
Qed.

Lemma standalone_ok_main (db : Database) (b : bool) (confirm : string)
    (e : Env) :
  let s' := snd (main db b confirm (initial e)) in
  forall u g, In (Created StandaloneSite u g) (journal s') ->
              In u (standalone_ids db (migrated_project_task_ids s')).
Proof.
  pose (P0 := fun s : State => journal s = []).
  pose (R := fun s : State =>
               forall u g, In (Created StandaloneSite u g) (journal s) ->
                 In u (standalone_ids db (migrated_project_task_ids s))).
  assert (E0 : forall s, P0 s -> R s).
  { intros s E u g Hin. unfold P0 in E. rewrite E in Hin. destruct Hin. }
  change (R (snd (main db b confirm (initial e)))).
  unfold main.
  apply (stage P0 P0 R); [apply journal_empty_clean_slate|exact E0|
                         |reflexivity].
  intros _. unfold migration.
  apply (stage P0 P0 R); [intros s H; exact H|exact E0|]. intros _.
  apply (stage P0 P0 R); [apply journal_empty_step1|exact E0|]. intros _.
  apply (stage P0 P0 R); [intros s H; exact H|exact E0|]. intros _.
  apply (stage P0 P0 R); [intros s H; exact H|exact E0|]. intros _.
  apply (stage P0 no_standalone_yet R).
  { intros s H. apply keeps_no_standalone_step2. intros u g Hin.
    unfold P0 in H. rewrite H in Hin. destruct Hin. }
  { intros s H u g Hin. now destruct (H u g). }
  intros _.
  apply (stage no_standalone_yet R R); [|auto|].
  { intros s H. destruct (step3_standalone_ok db s H) as [Em Hs].
    intros u g Hin. rewrite Em. now apply (Hs u g). }
  intros _ s H. unfold try_except, close, modify. simpl. exact H.
Qed.

(** *** Exactly one task when nothing fails *)

Lemma lookup_all_calm (title : option string) (e : Env) :
  all_calm e ->
  fst (get_task_list_by_title title e)
  = Ok (List.find (has_title title) (lists (remote e)))
  /\ all_calm (snd (get_task_list_by_title title e)).
Proof.
  intros (H1 & H2 & H3).
  rewrite get_task_list_by_title_spec, get_task_lists_spec. cbv zeta.
  unfold all_calm.
  destruct (on_lists_list _) as [|f q] eqn:E; simpl.
  - rewrite E. auto.
  - rewrite (calm_head _ _ H1). simpl. apply calm_tail in H1. auto.
Qed.

Lemma create_list_all_calm (title : option string) (e : Env) :
  all_calm e ->
  (exists l, fst (create_task_list title e) = Ok (Some l))
  /\ all_calm (snd (create_task_list title e)).
Proof.
  intros (H1 & H2 & H3). rewrite create_task_list_spec. cbv zeta.
  unfold all_calm.
  destruct (on_lists_insert _) as [|f q] eqn:E; simpl.
  - rewrite E. eauto.
  - rewrite (calm_head _ _ H2). simpl. apply calm_tail in H2. eauto.
Qed.

Lemma create_task_all_calm (id : string) (title notes : option string)
    (due : DueValue) (parent : option string) (e : Env) :
  all_calm e -> due <> DueObject true ->
  (exists g, fst (create_task id title notes due parent e) = Ok (Some g))
  /\ all_calm (snd (create_task id title notes due parent e)).
Proof.
  intros (H1 & H2 & H3) Hd. rewrite create_task_spec.
  destruct due as [|s|[|]]; try congruence; cbv zeta.
  all: rewrite tasks_insert_spec; unfold all_calm, say; simpl.
  all: destruct (on_tasks_insert _) as [|f q] eqn:E;
    [|rewrite (calm_head _ _ H3); apply calm_tail in H3]; simpl.
  all: (split; [eexists; reflexivity|]); repeat split; auto; constructor.
Qed.

Lemma keeps_env_call {A} (G : Env -> Prop) (c : M Env A) :
  (forall e, G e -> G (snd (c e))) ->
  keeps (fun s => G (env s)) (call c).
Proof. intros H s Hs. rewrite call_snd. simpl. now apply H. Qed.

Lemma all_calm_step1 (db : Database) :
  keeps (fun s => all_calm (env s)) (step1 db).
Proof.
  unfold step1, migrate_area, cache_store.
  walk ltac:(first
    [ apply keeps_env_call; intros ? Hg;
      first [ now apply lookup_all_calm | now apply create_list_all_calm ]
    | apply keeps_modify; intros ? Hg; exact Hg ]).
Qed.

(** The target list of an item is always found when nothing fails. *)
Lemma target_list_calm (u : string) (a : option string) (s : State) :
  all_calm (env s) ->
  (exists l, fst (target_list u a s) = Ok (Some l))
  /\ all_calm (env (snd (target_list u a s)))
  /\ migrated_project_task_ids (snd (target_list u a s))
     = migrated_project_task_ids s.
Proof.
  intros Hc. unfold target_list. rewrite bind_gets.
  destruct (cached_list _ _) as [l|]; [simpl; eauto|].
  run_assign. unfold get_or_create_default_list. rewrite bind_gets. simpl.
  destruct (default_google_list_cache s) as [l|]; [run_assign; eauto|].
  rewrite bind_call. simpl.
  destruct (lookup_all_calm (Some DEFAULT_LIST_TITLE) (env s) Hc) as [L1 L2].
  rewrite L1. destruct (List.find _ _) as [l|]; [run_assign; eauto|].
  rewrite bind_call. simpl.
  destruct (create_list_all_calm (Some DEFAULT_LIST_TITLE) _ L2)
    as [[l K1] K2].
  rewrite K1. run_assign. eauto.
Qed.

Lemma completes_seq (m k : M State unit) (a b : list string) :
  completes m a -> completes k b -> completes (m ;; k) (a ++ b).
Proof.
  intros Hm Hk s Hs. unfold bind.
  destruct (Hm s Hs) as (M1 & M2 & M3 & M4).
  destruct (m s) as [r s1]; simpl in *. subst r.
  destruct (Hk s1 M2) as (K1 & K2 & K3 & K4).
  split; [exact K1|]. split; [exact K2|]. split.
  - intros u Hu. apply in_app_or in Hu as [Hu|Hu]; [|now apply K3].
    apply K4. now apply M3.
  - set_solver.
Qed.

Lemma completes_for_each {A} (xs : list A) (body : A -> M State unit)
    (marks : A -> list string) :
  (forall x, In x xs -> completes (body x) (marks x)) ->
  completes (for_each xs body) (flat_map marks xs).
Proof.
  induction xs as [|x xs IH]; intros H; simpl.
  - intros s Hs. simpl. split; [reflexivity|]. split; [exact Hs|].
    split; [intros u []|reflexivity].
  - apply completes_seq; [apply H; now left|].
    apply IH. intros y Hy. apply H. now right.
Qed.

(** A create call of step 2 that succeeds, with what follows it. *)
Lemma completes_create (site : Site) (u id : string)
    (title notes : option string) (due : DueValue) (parent : option string)
    (k : RemoteTask -> M State unit) (marks : list string) :
  due <> DueObject true ->
  (forall g, completes (k g) marks) ->
  completes
    (bind (call (create_task id title notes due parent))
       (fun g_task =>
          match g_task with
          | Some g => record (Created site u g) ;; add_migrated u ;; k g
          | None => ret tt
          end))
    (u :: marks).
Proof.
  intros Hd Hk s Hs. rewrite bind_call.
  destruct (create_task_all_calm id title notes due parent (env s) Hs Hd)
    as [[g C1] C2].
  rewrite C1. run_assign.
  match goal with
  | |- context [k g ?s1] => destruct (Hk g s1) as (K1 & K2 & K3 & K4)
  end; [exact C2|].
  simpl in K4.
  split; [exact K1|]. split; [exact K2|]. split.
  - intros v [<-|Hv]; [|now apply K3]. apply K4. set_solver.
  - set_solver.
Qed.

Lemma completes_ret : completes (ret tt) [].
Proof.
  intros s Hs. simpl. split; [reflexivity|]. split; [exact Hs|].
  split; [intros u []|reflexivity].
Qed.

Lemma completes_eq (m m' : M State unit) (marks : list string) :
  (forall s, m s = m' s) -> completes m' marks -> completes m marks.
Proof. intros E H s Hs. rewrite E. now apply H. Qed.


Lemma completes_heading_task (p h id : string) (gh : RemoteTask)
    (task : SubTaskDict) :
  sd_due_date task <> DueObject true ->
  completes (migrate_heading_task p h id gh task) [sd_uuid task].
Proof.
  intros Hd. unfold migrate_heading_task. cbv zeta.
  eapply completes_eq;
    [|apply (completes_create (HeadingTaskSite p h) (sd_uuid task) id
               (sd_title task) (sd_notes task) (sd_due_date task)
               (Some (t_id gh)) (fun _ => ret tt) [] Hd);
      intros g; apply completes_ret].
  intros s. rewrite !bind_call.
  destruct (fst (create_task _ _ _ _ _ _)) as [[g|]|err]; reflexivity.
Qed.

Lemma completes_direct_task (p id : string) (gp : RemoteTask)
    (task : SubTaskDict) :
  sd_due_date task <> DueObject true ->
  completes (migrate_direct_task p id gp task) [sd_uuid task].
Proof.
  intros Hd. unfold migrate_direct_task. cbv zeta.
  eapply completes_eq;
    [|apply (completes_create (DirectTaskSite p) (sd_uuid task) id
               (sd_title task) (sd_notes task) (sd_due_date task)
               (Some (t_id gp)) (fun _ => ret tt) [] Hd);
      intros g; apply completes_ret].
  intros s. rewrite !bind_call.
  destruct (fst (create_task _ _ _ _ _ _)) as [[g|]|err]; reflexivity.
Qed.

Lemma sub_task_due (db : Database) (P : TMTask -> bool) (x : SubTaskDict) :
  text_dues db ->
  In x (map sub_task_dict (List.filter P (tasks_table db))) ->
  sd_due_date x <> DueObject true.
Proof.
  intros Ht Hx. apply in_map_iff in Hx as (r & <- & Hr).
  apply filter_In in Hr as [Hr _]. now apply Ht.
Qed.

Lemma completes_heading (db : Database) (p id : string) (gp : RemoteTask)
    (heading : HeadingDict) :
  text_dues db ->
  completes (migrate_heading db p id gp heading) (visited_heading db heading).
Proof.
  intros Ht. unfold migrate_heading, visited_heading. cbv zeta.
  apply completes_create; [discriminate|]. intros g.
  rewrite <- flat_map_singleton. apply completes_for_each.
  intros x Hx. apply completes_heading_task.
  now apply (sub_task_due db _ x Ht Hx).
Qed.

(** The part of [migrate_project] that follows the choice of the list. *)
Lemma migrate_project_in_list (db : Database) (project : ProjectDict)
    (l : TaskList) (s : State) :
  fst (target_list (pd_uuid project) (pd_area_uuid project) s)
  = Ok (Some l) ->
  migrate_project db project s
  = bind (call (create_task (tl_id l) (Some (fmt (pd_title project)))
                  (pd_notes project) DueNone None))
      (fun g_task =>
         match g_task with
         | Some g =>
             record (Created ProjectSite (pd_uuid project) g) ;;
             add_migrated (pd_uuid project) ;;
             (for_each (get_headings_for_project db (pd_uuid project))
                (migrate_heading db (pd_uuid project) (tl_id l) g) ;;
              for_each (get_tasks_for_project db (pd_uuid project))
                (migrate_direct_task (pd_uuid project) (tl_id l) g))
         | None => ret tt
         end)
      (snd (target_list (pd_uuid project) (pd_area_uuid project) s)).
Proof.
  intros T. unfold migrate_project. cbv zeta. unfold bind at 1.
  destruct (target_list _ _ s) as [r s1]; simpl in *. subst r.
  reflexivity.
Qed.

Lemma completes_project (db : Database) (project : ProjectDict) :
  text_dues db ->
  completes (migrate_project db project) (visited_project db project).
Proof.
  intros Ht s Hs.
  destruct (target_list_calm (pd_uuid project) (pd_area_uuid project) s Hs)
    as ([l T1] & T2 & T3).
  rewrite (migrate_project_in_list db project l s T1). rewrite <- T3.
  revert T2.
  generalize (snd (target_list (pd_uuid project) (pd_area_uuid project) s)).
  unfold visited_project. apply completes_create; [discriminate|].
  intros g. apply completes_seq.
  - apply completes_for_each. intros x _. now apply completes_heading.
  - rewrite <- flat_map_singleton. apply completes_for_each.
    intros x Hx. apply completes_direct_task.
    now apply (sub_task_due db _ x Ht Hx).
Qed.

Lemma step2_completes (db : Database) (projects : list ProjectDict) :
  text_dues db -> get_projects db = Ok projects ->
  completes (step2 db) (visited db).
Proof.
  intros Ht Hp s Hs. unfold step2, visited, try_except. rewrite Hp.
  unfold bind at 1 2 3 4, lift_res.
  destruct (completes_for_each projects (migrate_project db)
              (visited_project db)
              (fun x _ => completes_project db x Ht) s Hs)
    as (K1 & K2 & K3 & K4).
  destruct (for_each _ _ s) as [r s']; simpl in *. subst r. simpl. auto.
Qed.

Lemma in_filter_map {A B} (f : A -> B) (P : A -> bool) (l : list A) (a : A) :
  In a l -> P a = true -> In (f a) (map f (List.filter P l)).
Proof. intros H1 H2. apply in_map. now apply filter_In. Qed.

Lemma project_listed (db : Database) (projects : list ProjectDict)
    (P : TMTask) :
  get_projects db = Ok projects ->
  In P (tasks_table db) -> type P = 1 -> trashed P = 0 ->
  exists pd, In pd projects /\ pd_uuid pd = uuid P.
Proof.
  intros Hp H1 H2 H3.
  assert (Hin : In (uuid P) (map pd_uuid projects)).
  { rewrite (get_projects_uuids db projects Hp).
    apply in_filter_map; [exact H1|]. now rewrite H2, H3. }
  apply in_map_iff in Hin as (pd & E & Hpd). now exists pd.
Qed.

Lemma col_eq_refl (u : string) : col_eq (Some u) u = true.
Proof. simpl. apply String.eqb_refl. Qed.

Lemma in_project_visited (db : Database) (projects : list ProjectDict)
    (T : TMTask) :
  get_projects db = Ok projects -> in_project db T ->
  In (uuid T) (visited db).
Proof.
  intros Hp (T1 & T2 & T3 & P & P1 & P2 & P3 & Hh).
  destruct (project_listed db projects P Hp P1 P2 P3) as (pd & Hpd & Epd).
  unfold visited. rewrite Hp. apply in_flat_map. exists pd.
  split; [exact Hpd|]. unfold visited_project. right. rewrite Epd.
  apply in_or_app. destruct Hh as [[P4 Hn]|(H & H1 & H2 & H3 & H4 & H5)].
  - right. unfold get_tasks_for_project. rewrite sub_task_uuids.
    apply in_filter_map; [exact T1|].
    now rewrite T2, T3, P4, Hn, col_eq_refl.
  - left. apply in_flat_map.
    exists {| hd_uuid := uuid H; hd_title := title H |}. split.
    + unfold get_headings_for_project.
      apply (in_filter_map
               (fun h => {| hd_uuid := uuid h; hd_title := title h |}));
        [exact H1|]. now rewrite H2, H3, H4, col_eq_refl.
    + unfold visited_heading. simpl. right.
      unfold get_tasks_for_heading. rewrite sub_task_uuids.
      apply in_filter_map; [exact T1|]. now rewrite T2, T3, H5, col_eq_refl.
Qed.

Lemma step1_ok (db : Database) (s : State) :
  all_calm (env s) -> fst (step1 db s) = Ok tt.
Proof.
  intros (H1 & H2 & _).
  destruct (first_run (get_areas db) s (conj H1 H2)) as (F & _).
  unfold step1, try_except. cbv zeta.
  destruct (for_each _ _ s) as [r s']; simpl in *. now subst r.
Qed.

Lemma bind_ok {S A B} (m : M S A) (k : A -> M S B) (s : S) (a : A) :
  fst (m s) = Ok a -> bind m k s = k a (snd (m s)).
Proof. unfold bind. destruct (m s) as [r s']; simpl. now intros ->. Qed.

Lemma all_calm_print (m : Msg) : keeps all_calm (print m).
Proof. apply keeps_modify. intros e H. exact H. Qed.

Lemma all_calm_get_task_lists : keeps all_calm get_task_lists.
Proof.
  intros e (H1 & H2 & H3). rewrite get_task_lists_spec. cbv zeta.
  unfold all_calm.
  destruct (on_lists_list _) as [|f q] eqn:E; simpl.
  - rewrite E. auto.
  - rewrite (calm_head _ _ H1). simpl. apply calm_tail in H1. auto.
Qed.

Lemma all_calm_delete_task_list (id : string) :
  keeps all_calm (delete_task_list id).
Proof.
  intros e H. unfold all_calm in *. client_unfold. open_env e.
  unfold bind. simpl.
  destruct q3 as [|[|st|] q3]; simpl;
    try (destruct (existsb _ ls); simpl); try exact H.
  all: destruct st; try exact H.
  all: repeat match goal with
           | |- context [match ?p with xH => _ | xO _ => _ | xI _ => _ end] =>
               destruct p; simpl; try exact H
           end.
Qed.

Lemma all_calm_clear_all : keeps all_calm clear_all_task_lists_and_tasks.
Proof.
  unfold clear_all_task_lists_and_tasks.
  apply keeps_bind; [apply all_calm_print|]. intros _.
  apply keeps_bind; [apply all_calm_get_task_lists|]. intros [|l ls].
  { apply all_calm_print. }
  apply keeps_bind; [|intros _; apply all_calm_print].
  apply keeps_for_each. intros x _.
  apply keeps_bind; [apply all_calm_print|]. intros _.
  apply keeps_try; [apply all_calm_delete_task_list|].
  intros err. apply all_calm_print.
Qed.

Lemma all_calm_clean_slate (b : bool) (confirm : string) :
  keeps (fun s => all_calm (env s)) (clean_slate_operation b confirm).
Proof.
  unfold clean_slate_operation, close, sys_exit.
  walk ltac:(first
    [ apply keeps_env_call; intros ? Hg; now apply all_calm_clear_all
    | apply keeps_modify; intros ? Hg; exact Hg ]).
Qed.

Lemma marked_after_migration (db : Database) (projects : list ProjectDict)
    (u : string) (s : State) :
  text_dues db -> get_projects db = Ok projects -> all_calm (env s) ->
  In u (visited db) ->
  u ∈ migrated_project_task_ids (snd (migration db s)).
Proof.
  intros Ht Hp Hs Hu. unfold migration.
  unfold set_cache at 1. rewrite bind_modify.
  match goal with
  | |- context [bind (step1 db) _ ?s0] => set (s0' := s0)
  end.
  assert (H0 : all_calm (env s0')) by exact Hs.
  rewrite (bind_ok (step1 db) _ s0' tt (step1_ok db s0' H0)).
  pose proof (all_calm_step1 db s0' H0) as H1.
  unfold set_default at 1. rewrite bind_modify.
  unfold set_migrated at 1. rewrite bind_modify.
  match goal with
  | |- context [bind (step2 db) _ ?s1] => set (s1' := s1)
  end.
  assert (H1' : all_calm (env s1')) by exact H1.
  destruct (step2_completes db projects Ht Hp s1' H1') as (K1 & _ & K3 & _).
  rewrite (bind_ok (step2 db) _ s1' tt K1).
  specialize (K3 u Hu).
  assert (K : keeps (fun s => {[u]} ⊆ migrated_project_task_ids s)
                (step3 db ;; try_except close is_Exception
                               (fun _ => ret tt))).
  { apply keeps_bind; [keeps_auto|]. intros _. keeps_auto. }
  apply elem_of_subseteq_singleton, K. now apply elem_of_subseteq_singleton.
Qed.

Lemma placed_sound_main (db : Database) (b : bool) (confirm : string)
    (e : Env) :
  placed_sound (snd (main db b confirm (initial e))).
Proof.
  unfold main.
  pose proof (clean_slate_keeps_placed_set b confirm ∅
                (initial e) eq_refl) as H0.
  unfold bind.
  destruct (clean_slate_operation b confirm (initial e))
    as [[[]|err] s1]; simpl in *.
  - apply keeps_placed_sound_migration. now apply placed_sound_empty.
  - now apply placed_sound_empty.
Qed.

Lemma created_for_le (db : Database) (b : bool) (confirm : string) (e : Env)
    (u : string) :
  unique_uuids db ->
  (created_for u (journal (snd (main db b confirm (initial e)))) <= 1)%nat.
Proof.
  intros Hu. unfold created_for.
  apply (proj1 (List.NoDup_count_occ string_dec _)).
  apply NoDup_ListNoDup. now apply at_most_once_main.
Qed.

Lemma NoDup_map_eq {A B} (f : A -> B) (l : list A) (x y : A) :
  NoDup (map f l) -> In x l -> In y l -> f x = f y -> x = y.
Proof.
  induction l as [|a l IH]; simpl; [intros _ []|].
  intros Hn [->|Hx] [->|Hy] E; auto.
  - apply NoDup_cons in Hn as [Hn _]. destruct Hn.
    rewrite E. apply list_elem_of_In. now apply in_map.
  - apply NoDup_cons in Hn as [Hn _]. destruct Hn.
    rewrite <- E. apply list_elem_of_In. now apply in_map.
  - apply NoDup_cons in Hn as [_ Hn]. auto.
Qed.

Lemma is_standalone_true (X : gset string) (t : TaskDict) :
  is_standalone X t = true ->
  (td_uuid t ∉ X) /\ truthy_opt (td_project_uuid t) = false.
Proof.
  unfold is_standalone. intros H. apply andb_true_iff in H as [H1 H2].
  apply negb_true_iff in H1, H2.
  split; [now apply bool_decide_eq_false_1 in H1|exact H2].
Qed.

(** Step 3 creates nothing for a task that has a project. *)
Lemma sweep_excludes_project_tasks (db : Database) (b : bool)
    (confirm : string) (e : Env) (all : list TaskDict) (t : TaskDict)
    (g : RemoteTask) :
  unique_uuids db ->
  get_tasks db = Ok all -> In t all ->
  truthy_opt (td_project_uuid t) = true ->
  ~ In (Created StandaloneSite (td_uuid t) g)
      (journal (snd (main db b confirm (initial e)))).
Proof.
  intros Hu Hall Ht Hp Hin.
  apply (standalone_ok_main db b confirm e) in Hin.
  unfold standalone_ids in Hin. rewrite Hall in Hin.
  apply in_map_iff in Hin as (t' & E & Hin).
  apply filter_In in Hin as [Hin' Hs].
  apply is_standalone_true in Hs as [_ Hs].
  assert (t' = t).
  { apply (NoDup_map_eq td_uuid all); auto.
    rewrite (get_tasks_uuids db all Hall). now apply NoDup_map_filter. }
  subst t'. congruence.
Qed.

Lemma marked_iff_created (db : Database) (b : bool) (confirm : string)
    (e : Env) (u : string) :
  u ∈ migrated_project_task_ids (snd (main db b confirm (initial e)))
  <-> exists site g,
        In (Created site u g) (journal (snd (main db b confirm (initial e))))
        /\ site <> StandaloneSite.
Proof.
  split.
  - intros H. destruct (placed_sound_main db b confirm e u H)
      as (site & g & H1 & H2 & _). eauto.
  - intros (site & g & H1 & H2).
    now apply (placed_covers_main db b confirm e site u g).
Qed.

Lemma exactly_once (db : Database) (b : bool) (confirm : string) (e : Env)
    (projects : list ProjectDict) (T : TMTask) :
  unique_uuids db -> text_dues db -> all_calm e ->
  fst (clean_slate_operation b confirm (initial e)) = Ok tt ->
  get_projects db = Ok projects -> in_project db T ->
  uuid T ∈ migrated_project_task_ids (snd (main db b confirm (initial e)))
  /\ created_for (uuid T)
       (journal (snd (main db b confirm (initial e)))) = 1%nat.
Proof.
  intros Hu Ht Hc Hr Hp HT.
  assert (Hm : uuid T ∈ migrated_project_task_ids
                 (snd (main db b confirm (initial e)))).
  { unfold main.
    rewrite (bind_ok (clean_slate_operation b confirm) _ _ tt Hr).
    apply (marked_after_migration db projects); auto.
    - now apply (all_calm_clean_slate b confirm (initial e)).
    - now apply (in_project_visited db projects). }
  split; [exact Hm|].
  pose proof (created_for_le db b confirm e (uuid T) Hu) as Hle.
  apply marked_iff_created in Hm as (site & g & Hin & _).
  assert (Hs : In (uuid T)
                 (sources (journal (snd (main db b confirm (initial e)))))).
  { apply in_sources. eauto. }
  apply (proj1 (count_occ_In string_dec _ _)) in Hs.
  unfold created_for in *. lia.
Qed.

(** Claim C1 as stated fails on a project task whose creation the
    destination refuses, and on a task under a trashed heading: neither
    is marked, and no task is created for either in the whole run. *)
Lemma project_task_can_stay_unplaced :
  (in_project one_task_project
     (row "T" 0 "Write docs" None (Some "P") None DueNone)
   /\ ("T" ∉ migrated_project_task_ids
               (snd (main one_task_project false ""
                       (initial second_task_fails))))
   /\ created_for "T"
        (journal (snd (main one_task_project false ""
                         (initial second_task_fails)))) = 0%nat)
  /\ (("T" ∉ migrated_project_task_ids
               (snd (main trashed_heading_db false "" (initial fresh_env))))
      /\ created_for "T"
           (journal (snd (main trashed_heading_db false ""
                            (initial fresh_env)))) = 0%nat).
Proof.
  split; [split; [|split]|split].
  - split; [simpl; auto|]. split; [reflexivity|]. split; [reflexivity|].
    exists (row "P" 1 "Launch" None None None DueNone).
    split; [simpl; auto|]. split; [reflexivity|]. split; [reflexivity|].
    left. split; reflexivity.
  - vm_compute. intros H. discriminate H.
  - vm_compute. reflexivity.
  - vm_compute. intros H. discriminate H.
  - vm_compute. reflexivity.
Qed.

(** Claim C1, amended (no double placement).  Over a whole run on a
    source store with unique identifiers: the filter of step 3 keeps only
    tasks that are not in the placed set and have no project; step 3
    creates nothing for a task that has a project; no source gets more
    than one created task; an identifier is in the placed set exactly
    when a site of step 2 created a task for it; and when the clean-slate
    operation, asked for or not, lets the run go on, no listing, list
    creation or task creation fails, the projects can be read and no due
    date is a non-text object, every
    task of a project that is not trashed, directly under it or under a
    heading of it that is not trashed, is in the placed set and has
    exactly one created task. *)
Theorem no_double_placement (db : Database) (clean_slate : bool)
    (confirm : string) (e : Env) :
  unique_uuids db ->
  let s' := snd (main db clean_slate confirm (initial e)) in
  (forall X t,
      is_standalone X t = true ->
      (td_uuid t ∉ X) /\ truthy_opt (td_project_uuid t) = false)
  /\ (forall all t g,
        get_tasks db = Ok all -> In t all ->
        truthy_opt (td_project_uuid t) = true ->
        ~ In (Created StandaloneSite (td_uuid t) g) (journal s'))
  /\ (forall u, (created_for u (journal s') <= 1)%nat)
  /\ (forall u,
        u ∈ migrated_project_task_ids s'
        <-> exists site g,
              In (Created site u g) (journal s')
              /\ site <> StandaloneSite)
  /\ (fst (clean_slate_operation clean_slate confirm (initial e)) = Ok tt ->
      text_dues db -> all_calm e ->
      (exists projects, get_projects db = Ok projects) ->
      forall T, in_project db T ->
        uuid T ∈ migrated_project_task_ids s'
        /\ created_for (uuid T) (journal s') = 1%nat).
Proof.
  intros Hu s'. split; [apply is_standalone_true|].
  split; [intros all t g; now apply sweep_excludes_project_tasks|].
  split; [intros u; now apply created_for_le|].
  split; [intros u; apply marked_iff_created|].
  intros Hr Ht Hc [projects Hp] T HT.
  now apply (exactly_once db clean_slate confirm e projects T).
Qed.

Lemma no_double_placement_witness :
  "T" ∈ migrated_project_task_ids
          (snd (main sample_db false "" (initial fresh_env)))
  /\ created_for "T"
       (journal (snd (main sample_db false "" (initial fresh_env)))) = 1%nat.
Proof.
  assert (Hu : unique_uuids sample_db).
  { unfold unique_uuids. apply (bool_decide_unpack _). vm_compute. exact I. }
  refine (proj2 (proj2 (proj2 (proj2
            (no_double_placement sample_db false "" fresh_env Hu))))
            eq_refl _ _ _
            (row "T" 0 "Write docs" None (Some "P") (Some "H") DueNone) _).
  - intros r Hr. simpl in Hr.
    repeat (destruct Hr as [<-|Hr]; [discriminate|]). destruct Hr.
  - repeat split; constructor.
  - eexists. vm_compute. reflexivity.
  - split; [simpl; auto 10|]. split; [reflexivity|]. split; [reflexivity|].
    exists (row "P" 1 "Launch" (Some "A") None None DueNone).
    split; [simpl; auto|]. split; [reflexivity|]. split; [reflexivity|].
    right.
    exists (row "H" 2 "Prep" None (Some "P") None DueNone).
    split; [simpl; auto|]. repeat split.
Defined.

(** * Part III: further properties of the code *)

(** ** How [main] ends *)

Lemma never_exits_ret {S A} (a : A) : never_exits (@ret S A a).
Proof. intros s c. discriminate. Qed.

Lemma never_exits_gets {S A} (f : S -> A) : never_exits (gets f).
Proof. intros s c. discriminate. Qed.

Lemma never_exits_modify {S} (f : S -> S) : never_exits (modify f).
Proof. intros s c. discriminate. Qed.

Lemma never_exits_bind {S A B} (m : M S A) (k : A -> M S B) :
  never_exits m -> (forall a, never_exits (k a)) -> never_exits (bind m k).
Proof.
  intros Hm Hk s c. unfold bind. specialize (Hm s c).
  destruct (m s) as [[a|e] s']; simpl in *;
    [apply Hk|intros [= ->]; now apply Hm].
Qed.

Lemma never_exits_try {S A} (m : M S A) (c : Exn -> bool)
    (h : Exn -> M S A) :
  never_exits m -> (forall e, never_exits (h e)) ->
  never_exits (try_except m c h).
Proof.
  intros Hm Hh s code. unfold try_except. specialize (Hm s code).
  destruct (m s) as [[a|e] s']; simpl in *; [discriminate|].
  destruct (c e); [apply Hh|exact Hm].
Qed.

Lemma never_exits_for_each {S A} (xs : list A) (body : A -> M S unit) :
  (forall x, never_exits (body x)) -> never_exits (for_each xs body).
Proof.
  intros H. induction xs as [|x xs IH]; simpl.
  - apply never_exits_ret.
  - apply never_exits_bind; [apply H|intros _; exact IH].
Qed.

Lemma never_exits_next_fault (get : Faults -> list Fault)
    (set : list Fault -> Faults -> Faults) :
  never_exits (next_fault get set).
Proof.
  intros sv c. unfold next_fault.
  destruct (get (faults sv)) as [|[|st|] q]; discriminate.
Qed.

Lemma never_exits_api {A} (c : M Service A) :
  never_exits c -> never_exits (api c).
Proof.
  intros H e code. unfold api. specialize (H (remote e) code).
  destruct (c (remote e)) as [r sv]. exact H.
Qed.

Lemma never_exits_call {A} (c : M Env A) :
  never_exits c -> never_exits (call c).
Proof.
  intros H s code. unfold call. specialize (H (env s) code).
  destruct (c (env s)) as [r e]. exact H.
Qed.

Lemma never_exits_lift_res {S A} (r : Res A) :
  (forall code, r <> Raise (SystemExit code)) -> never_exits (@lift_res S A r).
Proof. intros H s code. apply H. Qed.

(** The steps of a proof that a computation never exits. *)
Ltac no_exit_step :=
  first
    [ apply never_exits_ret | apply never_exits_gets
    | apply never_exits_modify | apply never_exits_next_fault
    | apply never_exits_bind; [|intros ?]
    | apply never_exits_try; [|intros ?]
    | apply never_exits_for_each; intros ?
    | apply never_exits_api | apply never_exits_call
    | match goal with
      | |- never_exits (match ?x with _ => _ end) => destruct x
      | |- never_exits (fun _ => _) => intros ? ?; simpl;
                                       repeat case_match; discriminate
      end ].

Lemma strptime_value_error (s : string) (err : Exn) :
  strptime s = Raise err -> err = ValueError.
Proof.
  unfold strptime. repeat case_match; congruence.
Qed.

Lemma never_exits_get_task_lists : never_exits get_task_lists.
Proof.
  unfold get_task_lists, tasklists_list, print. repeat no_exit_step.
Qed.

Lemma never_exits_get_task_list_by_title (title : option string) :
  never_exits (get_task_list_by_title title).
Proof.
  unfold get_task_list_by_title.
  apply never_exits_bind; [apply never_exits_get_task_lists|].
  intros l. apply never_exits_ret.
Qed.

Lemma never_exits_create_task_list (title : option string) :
  never_exits (create_task_list title).
Proof.
  unfold create_task_list, tasklists_insert, print. repeat no_exit_step.
Qed.

Lemma never_exits_delete_task_list (id : string) :
  never_exits (delete_task_list id).
Proof.
  unfold delete_task_list, tasklists_delete, print. repeat no_exit_step.
Qed.

Lemma never_exits_clear_all : never_exits clear_all_task_lists_and_tasks.
Proof.
  unfold clear_all_task_lists_and_tasks, print.
  apply never_exits_bind; [apply never_exits_modify|]. intros _.
  apply never_exits_bind; [apply never_exits_get_task_lists|].
  intros [|l ls]; [apply never_exits_modify|].
  apply never_exits_bind; [|intros _; apply never_exits_modify].
  apply never_exits_for_each. intros x.
  apply never_exits_bind; [apply never_exits_modify|]. intros _.
  apply never_exits_try; [apply never_exits_delete_task_list|].
  intros err. apply never_exits_modify.
Qed.

Lemma never_exits_create_task (id : string) (title notes : option string)
    (due : DueValue) (parent : option string) :
  never_exits (create_task id title notes due parent).
Proof.
  unfold create_task. apply never_exits_bind.
  - unfold due_entry, print. destruct due as [|s|[|]];
      try apply never_exits_ret; [|intros ? ?; discriminate].
    destruct (truthy s); [|apply never_exits_ret].
    apply never_exits_try.
    + apply never_exits_bind; [|intros ?; apply never_exits_ret].
      apply never_exits_lift_res. intros code E.
      apply strptime_value_error in E. discriminate.
    + intros _. repeat no_exit_step.
  - intros due'. cbv zeta. unfold tasks_insert, print.
    apply never_exits_try; [|intros ?; repeat no_exit_step].
    apply never_exits_bind; [|intros ?; apply never_exits_ret].
    destruct (truthy_opt parent); repeat no_exit_step.
Qed.

Lemma map_res_raises {A B} (f : A -> Res B) (xs : list A) (err : Exn) :
  map_res f xs = Raise err -> exists x, In x xs /\ f x = Raise err.
Proof.
  induction xs as [|x xs IH]; simpl; [discriminate|].
  destruct (f x) as [y|e] eqn:E.
  - destruct (map_res f xs) as [ys|e]; [discriminate|].
    intros [= ->]. destruct (IH eq_refl) as (x' & Hx & Hf). eauto.
  - intros [= ->]. eauto.
Qed.

Lemma area_uuid_of_raises (db : Database) (fk : option string) (err : Exn) :
  area_uuid_of db fk = Raise err -> err = DoesNotExist.
Proof. unfold area_uuid_of. repeat case_match; congruence. Qed.

Lemma task_uuid_of_raises (db : Database) (fk : option string) (err : Exn) :
  task_uuid_of db fk = Raise err -> err = DoesNotExist.
Proof. unfold task_uuid_of. repeat case_match; congruence. Qed.

Lemma get_projects_raises (db : Database) (err : Exn) :
  get_projects db = Raise err -> err = DoesNotExist.
Proof.
  intros H. apply map_res_raises in H as (p & _ & H).
  destruct (area_uuid_of db (area p)) eqn:E; [discriminate|].
  injection H as <-. now apply area_uuid_of_raises in E.
Qed.

Lemma get_tasks_raises (db : Database) (err : Exn) :
  get_tasks db = Raise err -> err = DoesNotExist.
Proof.
  intros H. apply map_res_raises in H as (t & _ & H).
  destruct (task_uuid_of db (project t)) eqn:E1;
    [|injection H as <-; now apply task_uuid_of_raises in E1].
  destruct (area_uuid_of db (area t)) eqn:E2;
    [|injection H as <-; now apply area_uuid_of_raises in E2].
  destruct (task_uuid_of db (heading t)) eqn:E3; [discriminate|].
  injection H as <-. now apply task_uuid_of_raises in E3.
Qed.

Ltac no_exit_driver :=
  repeat first
    [ apply never_exits_call;
      first [ apply never_exits_get_task_list_by_title
            | apply never_exits_create_task_list
            | apply never_exits_create_task
            | apply never_exits_clear_all ]
    | no_exit_step ].

Lemma never_exits_target_list (u : string) (a : option string) :
  never_exits (target_list u a).
Proof.
  unfold target_list, get_or_create_default_list, record, set_default.
  no_exit_driver.
Qed.

Lemma never_exits_migrate_area (area : AreaDict) :
  never_exits (migrate_area area).
Proof. unfold migrate_area, cache_store. cbv zeta. no_exit_driver. Qed.

Lemma never_exits_migrate_project (db : Database) (project : ProjectDict) :
  never_exits (migrate_project db project).
Proof.
  unfold migrate_project, migrate_heading, migrate_heading_task,
    migrate_direct_task, record, add_migrated. cbv zeta.
  apply never_exits_bind; [apply never_exits_target_list|]. intros ?.
  no_exit_driver.
Qed.

Lemma never_exits_migrate_standalone_task (task : TaskDict) :
  never_exits (migrate_standalone_task task).
Proof.
  unfold migrate_standalone_task, record. cbv zeta.
  apply never_exits_bind; [apply never_exits_target_list|]. intros ?.
  no_exit_driver.
Qed.

(** A phase whose body never exits ends normally: its handler catches
    every other exception. *)
Lemma phase_ends_normally {S} (body : M S unit) (s : S) :
  never_exits body ->
  fst (try_except body is_Exception (fun _ => ret tt) s) = Ok tt.
Proof.
  intros H. unfold try_except. specialize (H s).
  destruct (body s) as [[[]|err] s']; simpl in *; [reflexivity|].
  destruct err; try reflexivity. now destruct (H code).
Qed.

Lemma step1_ends_normally (db : Database) (s : State) :
  fst (step1 db s) = Ok tt.
Proof.
  apply phase_ends_normally. cbv zeta. apply never_exits_for_each.
  intros a. apply never_exits_migrate_area.
Qed.

Lemma step2_ends_normally (db : Database) (s : State) :
  fst (step2 db s) = Ok tt.
Proof.
  apply phase_ends_normally. apply never_exits_bind.
  - apply never_exits_lift_res. intros code E.
    apply get_projects_raises in E. discriminate.
  - intros ps. apply never_exits_for_each. intros p.
    apply never_exits_migrate_project.
Qed.

Lemma step3_ends_normally (db : Database) (s : State) :
  fst (step3 db s) = Ok tt.
Proof.
  apply phase_ends_normally. apply never_exits_bind.
  - apply never_exits_lift_res. intros code E.
    apply get_tasks_raises in E. discriminate.
  - intros ts. apply never_exits_bind; [apply never_exits_gets|].
    intros X. cbv zeta. apply never_exits_for_each. intros t.
    apply never_exits_migrate_standalone_task.
Qed.


(** How the clean-slate operation ends. *)
Lemma clean_slate_cases (clean_slate : bool) (confirm : string) (s : State) :
  let r := fst (clean_slate_operation clean_slate confirm s) in
  let s' := snd (clean_slate_operation clean_slate confirm s) in
  if clean_slate then
    if String.eqb (lower confirm) "y" then
      match fst (clear_all_task_lists_and_tasks (env s)) with
      | Ok _ => r = Ok tt /\ db_open s' = db_open s
      | Raise _ => r = Raise (SystemExit 1) /\ db_open s' = false
      end
    else r = Raise (SystemExit 0) /\ db_open s' = false
  else r = Ok tt /\ s' = s.
Proof.
  cbv zeta. unfold clean_slate_operation.
  destruct clean_slate; [|auto].
  destruct (String.eqb (lower confirm) "y"); [|auto].
  unfold try_except, call.
  pose proof (never_exits_clear_all (env s)) as Hn.
  destruct (clear_all_task_lists_and_tasks (env s)) as [[[]|err] e'];
    simpl in *; [auto|].
  destruct err; simpl; auto. now destruct (Hn code).
Qed.


(** ** The migration only adds to the destination *)

Lemma extends_refl (e : Env) : extends e e.
Proof. repeat split; reflexivity. Qed.

Lemma extends_trans (e1 e2 e3 : Env) :
  extends e1 e2 -> extends e2 e3 -> extends e1 e3.
Proof.
  intros (A1 & A2 & A3) (B1 & B2 & B3).
  repeat split; etrans; eassumption.
Qed.

Lemma extends_say (l : list Msg) (e : Env) : extends e (say l e).
Proof.
  repeat split; simpl; try reflexivity. now apply prefix_app_r.
Qed.

Lemma extends_faults (f : Faults) (e : Env) :
  extends e {| remote := set_faults f (remote e); stdout := stdout e |}.
Proof. repeat split; reflexivity. Qed.

Lemma extends_get_task_list_by_title (title : option string) (e : Env) :
  extends e (snd (get_task_list_by_title title e)).
Proof.
  rewrite get_task_list_by_title_spec, get_task_lists_spec. cbv zeta.
  destruct (on_lists_list _) as [|[|st|] q]; simpl;
    try apply extends_refl; try apply extends_faults.
  eapply extends_trans; [apply extends_faults|apply extends_say].
Qed.

Lemma extends_create_task_list (title : option string) (e : Env) :
  extends e (snd (create_task_list title e)).
Proof.
  rewrite create_task_list_spec. cbv zeta.
  destruct (on_lists_insert _) as [|[|st|] q]; simpl.
  - repeat split; simpl; try reflexivity; now apply prefix_app_r.
  - repeat split; simpl; try reflexivity; now apply prefix_app_r.
  - repeat split; simpl; try reflexivity; now apply prefix_app_r.
  - repeat split; reflexivity.
Qed.

Lemma extends_create_task (id : string) (title notes : option string)
    (due : DueValue) (parent : option string) (e : Env) :
  extends e (snd (create_task id title notes due parent e)).
Proof.
  rewrite create_task_spec.
  assert (H : forall e1 : Env,
             extends e e1 ->
             extends e
               (snd (match tasks_insert id (task_body title notes due)
                             (parent_entry parent) (remote e1) with
                     | (Ok g, sv) =>
                         (Ok (Some g),
                          {| remote := sv; stdout := stdout e1 |})
                     | (Raise (HttpError st), sv) =>
                         (Ok None,
                          {| remote := sv;
                             stdout := stdout e1
                                       ++ [MsgCreateTaskError title id
                                             (HttpError st)] |})
                     | (Raise err, sv) =>
                         (Raise err, {| remote := sv; stdout := stdout e1 |})
                     end))).
  { intros e1 H1. eapply extends_trans; [exact H1|].
    rewrite tasks_insert_spec. cbv zeta.
    destruct (on_tasks_insert _) as [|[|st|] q]; simpl;
      repeat split; simpl; try reflexivity; now apply prefix_app_r. }
  destruct due as [|s|[|]]; cbv zeta;
    first [ apply extends_refl | apply H, extends_say ].
Qed.

Lemma keeps_extends_call {A} (e0 : Env) (c : M Env A) :
  (forall e, extends e (snd (c e))) ->
  keeps (fun s => extends e0 (env s)) (call c).
Proof.
  intros H. apply keeps_env_call. intros e He.
  eapply extends_trans; [exact He|apply H].
Qed.

Ltac extends_leaf :=
  first
    [ apply keeps_extends_call; intros ?;
      first [ apply extends_get_task_list_by_title
            | apply extends_create_task_list
            | apply extends_create_task ]
    | apply keeps_modify; intros ? Hg; exact Hg ].

Lemma migration_extends (db : Database) (e0 : Env) :
  keeps (fun s => extends e0 (env s)) (migration db).
Proof.
  unfold migration, step1, step2, step3, migrate_area, migrate_project,
    migrate_heading, migrate_heading_task, migrate_direct_task,
    migrate_standalone_task, target_list, get_or_create_default_list,
    record, add_migrated, set_default, cache_store, set_cache, set_migrated,
    close.
  walk extends_leaf.
Qed.

(** X2 (the migration only adds).  Unless the clean slate was asked for
    and confirmed, a run removes and reorders nothing: the lists and the
    tasks the destination held before the run are a prefix of what it
    holds afterwards, and so are the lines printed by the client. *)
Theorem run_without_reset_only_adds (db : Database) (clean_slate : bool)
    (confirm : string) (e : Env) :
  clean_slate = false \/ lower confirm <> "y" ->
  extends e (env (snd (main db clean_slate confirm (initial e)))).
Proof.
  intros H. unfold main.
  pose proof (clean_slate_cases clean_slate confirm (initial e)) as Hc.
  cbv zeta in Hc. unfold bind.
  destruct (clean_slate_operation clean_slate confirm (initial e))
    as [r s1] eqn:E. simpl in Hc.
  destruct clean_slate.
  - destruct H as [H|H]; [discriminate|].
    apply String.eqb_neq in H. rewrite H in Hc. destruct Hc as [-> _].
    simpl. assert (Es : s1 = snd (clean_slate_operation true confirm
                                    (initial e))) by now rewrite E.
    subst s1. unfold clean_slate_operation. rewrite H.
    apply extends_refl.
  - destruct Hc as [-> ->].
    apply (migration_extends db e (initial e)), extends_refl.
Qed.

Lemma run_without_reset_only_adds_witness :
  extends two_work_lists
    (env (snd (main sample_db false "" (initial two_work_lists)))).
Proof.
  apply (run_without_reset_only_adds sample_db false "" two_work_lists).
  left. reflexivity.
Defined.

(** ** The lists a run resolved *)

Lemma extends_in_lists (e e' : Env) (l : TaskList) :
  extends e e' -> In l (lists (remote e)) -> In l (lists (remote e')).
Proof.
  intros ([k Hk] & _) H. rewrite Hk. apply in_or_app. now left.
Qed.

Lemma lookup_found (title : option string) (e : Env) (l : TaskList) :
  fst (get_task_list_by_title title e) = Ok (Some l) ->
  In l (lists (remote (snd (get_task_list_by_title title e))))
  /\ tl_title l = title.
Proof.
  rewrite get_task_list_by_title_spec, get_task_lists_spec. cbv zeta.
  destruct (on_lists_list _) as [|[|st|] q]; simpl; try discriminate.
  all: intros [= H]; split;
    [ now apply find_some_in in H
    | apply List.find_some in H as [_ H];
      now apply bool_decide_eq_true_1 in H ].
Qed.

Lemma create_found (title : option string) (e : Env) (l : TaskList) :
  fst (create_task_list title e) = Ok (Some l) ->
  In l (lists (remote (snd (create_task_list title e))))
  /\ tl_title l = title.
Proof.
  intros H. destruct (create_list_cases title e) as [_ C].
  rewrite H in C. destruct C as [Ct Cl]. split; [|exact Ct].
  rewrite Cl. apply in_or_app. right. now left.
Qed.

Lemma area_lists_resolved_extends (db : Database) (s : State) (e : Env) :
  extends (env s) e ->
  area_lists_resolved db s -> area_lists_resolved db (with_env e s).
Proof.
  intros He H a l Hl. destruct (H a l Hl) as [H1 H2].
  split; [|exact H2]. simpl. now apply (extends_in_lists (env s)).
Qed.

Lemma default_list_resolved_extends (s : State) (e : Env) :
  extends (env s) e ->
  default_list_resolved s -> default_list_resolved (with_env e s).
Proof.
  intros He H l Hl. destruct (H l Hl) as [H1 H2].
  split; [|exact H2]. simpl. now apply (extends_in_lists (env s)).
Qed.

Lemma keeps_area_lists_call {A} (db : Database) (c : M Env A) :
  (forall e, extends e (snd (c e))) ->
  keeps (area_lists_resolved db) (call c).
Proof.
  intros H s Hs. rewrite call_snd.
  apply area_lists_resolved_extends; [apply H|exact Hs].
Qed.

Lemma keeps_default_list_call {A} (c : M Env A) :
  (forall e, extends e (snd (c e))) ->
  keeps default_list_resolved (call c).
Proof.
  intros H s Hs. rewrite call_snd.
  apply default_list_resolved_extends; [apply H|exact Hs].
Qed.

(** One area of step 1. *)
Lemma area_lists_migrate_area (db : Database) (area : AreaDict) :
  In area (get_areas db) ->
  keeps (area_lists_resolved db) (migrate_area area).
Proof.
  intros Ha s Hs. unfold migrate_area. cbv zeta. rewrite bind_call.
  pose proof (extends_get_task_list_by_title (ad_title area) (env s)) as X1.
  pose proof (lookup_found (ad_title area) (env s)) as F1.
  destruct (get_task_list_by_title (ad_title area) (env s))
    as [[[l|]|err] e1]; simpl in *.
  - destruct (F1 l eq_refl) as [F F']. destruct l as [li lt].
    intros a l. unfold cache_store, modify. simpl.
    destruct (decide (a = ad_uuid area)) as [->|Hne].
    + rewrite lookup_insert_eq. intros [= <-]. split; [exact F|].
      exists area. auto.
    + rewrite lookup_insert_ne by congruence. intros Hl.
      now apply (area_lists_resolved_extends db s e1 X1 Hs).
  - rewrite bind_call. cbn [env with_env].
    pose proof (extends_create_task_list (ad_title area) e1) as X2.
    pose proof (create_found (ad_title area) e1) as F2.
    destruct (create_task_list (ad_title area) e1)
      as [[[l|]|err] e2]; simpl in *.
    + destruct (F2 l eq_refl) as [F F']. destruct l as [li lt].
      intros a l. unfold cache_store, modify. simpl.
      destruct (decide (a = ad_uuid area)) as [->|Hne].
      * rewrite lookup_insert_eq. intros [= <-]. split; [exact F|].
        exists area. auto.
      * rewrite lookup_insert_ne by congruence. intros Hl.
        apply (area_lists_resolved_extends db s e2); [|exact Hs|exact Hl].
        now apply (extends_trans _ e1).
    + apply (area_lists_resolved_extends db s e2); [|exact Hs].
      now apply (extends_trans _ e1).
    + apply (area_lists_resolved_extends db s e2); [|exact Hs].
      now apply (extends_trans _ e1).
  - now apply (area_lists_resolved_extends db s e1).
Qed.

Lemma keeps_resolved_modify (db : Database) (f : State -> State) :
  (forall s, env (f s) = env s
             /\ google_task_lists_cache (f s) = google_task_lists_cache s
             /\ default_google_list_cache (f s)
                = default_google_list_cache s) ->
  keeps (fun s => area_lists_resolved db s /\ default_list_resolved s)
    (modify f).
Proof.
  intros Hf. apply keeps_modify. intros s [H1 H2].
  destruct (Hf s) as (E1 & E2 & E3). split.
  - intros a l. rewrite E1, E2. apply H1.
  - intros l. rewrite E1, E3. apply H2.
Qed.

Lemma keeps_resolved_call {A} (db : Database) (c : M Env A) :
  (forall e, extends e (snd (c e))) ->
  keeps (fun s => area_lists_resolved db s /\ default_list_resolved s)
    (call c).
Proof.
  intros H. apply keeps_and;
    [now apply keeps_area_lists_call|now apply keeps_default_list_call].
Qed.

(** The helper of the default list. *)
Lemma resolved_default_helper (db : Database) :
  keeps (fun s => area_lists_resolved db s /\ default_list_resolved s)
    get_or_create_default_list.
Proof.
  intros s [Ha Hd]. unfold get_or_create_default_list. rewrite bind_gets.
  destruct (default_google_list_cache s) as [l|] eqn:E.
  - run_assign. split.
    + intros a l'. simpl. apply Ha.
    + intros l'. simpl. rewrite E. intros [= <-]. now apply Hd.
  - rewrite bind_call.
    pose proof (extends_get_task_list_by_title (Some DEFAULT_LIST_TITLE)
                  (env s)) as X1.
    pose proof (lookup_found (Some DEFAULT_LIST_TITLE) (env s)) as F1.
    destruct (get_task_list_by_title (Some DEFAULT_LIST_TITLE) (env s))
      as [[[l|]|err] e1]; simpl in *.
    + run_assign. destruct (F1 l eq_refl) as [F F']. split.
      * intros a l'. simpl. intros Hl.
        now apply (area_lists_resolved_extends db s e1 X1 Ha).
      * intros l'. simpl. intros [= <-]. auto.
    + rewrite bind_call. cbn [env with_env].
      pose proof (extends_create_task_list (Some DEFAULT_LIST_TITLE) e1)
        as X2.
      pose proof (create_found (Some DEFAULT_LIST_TITLE) e1) as F2.
      assert (X : extends (env s) (snd (create_task_list
                                          (Some DEFAULT_LIST_TITLE) e1)))
        by now apply (extends_trans _ e1).
      destruct (create_task_list (Some DEFAULT_LIST_TITLE) e1)
        as [[[l|]|err] e2]; simpl in *.
      * run_assign. destruct (F2 l eq_refl) as [F F']. split.
        -- intros a l'. simpl. intros Hl.
           now apply (area_lists_resolved_extends db s e2 X Ha).
        -- intros l'. simpl. intros [= <-]. auto.
      * run_assign. split.
        -- intros a l'. simpl. intros Hl.
           now apply (area_lists_resolved_extends db s e2 X Ha).
        -- intros l'. simpl. rewrite E. discriminate.
      * split.
        -- now apply (area_lists_resolved_extends db s e2 X Ha).
        -- intros l'. simpl. rewrite E. discriminate.
    + split.
      * now apply (area_lists_resolved_extends db s e1 X1 Ha).
      * intros l'. simpl. rewrite E. discriminate.
Qed.

Ltac resolved_leaf db :=
  idtac;
  match goal with
  | |- keeps _ get_or_create_default_list => apply resolved_default_helper
  | |- keeps _ (call _) =>
      apply keeps_resolved_call; intros ?;
      first [ apply extends_get_task_list_by_title
            | apply extends_create_task_list
            | apply extends_create_task ]
  | |- keeps _ (modify _) =>
      apply keeps_resolved_modify; intros ?; simpl; auto
  end.

Lemma resolved_step2 (db : Database) :
  keeps (fun s => area_lists_resolved db s /\ default_list_resolved s)
    (step2 db).
Proof.
  unfold step2, migrate_project, migrate_heading, migrate_heading_task,
    migrate_direct_task, target_list, record, add_migrated.
  walk ltac:(resolved_leaf db).
Qed.

Lemma resolved_step3 (db : Database) :
  keeps (fun s => area_lists_resolved db s /\ default_list_resolved s)
    (step3 db).
Proof.
  unfold step3, migrate_standalone_task, target_list, record.
  walk ltac:(resolved_leaf db).
Qed.

Lemma area_lists_step1 (db : Database) :
  keeps (area_lists_resolved db) (step1 db).
Proof.
  unfold step1. cbv zeta.
  apply keeps_try; [|intros ?; apply keeps_ret].
  apply keeps_for_each. intros a Ha. now apply area_lists_migrate_area.
Qed.

Lemma resolved_migration (db : Database) (s : State) :
  area_lists_resolved db (snd (migration db s))
  /\ default_list_resolved (snd (migration db s)).
Proof.
  pose (R := fun s => area_lists_resolved db s /\ default_list_resolved s).
  change (R (snd (migration db s))). unfold migration.
  unfold set_cache at 1. rewrite bind_modify.
  rewrite (bind_ok (step1 db) _ _ tt (step1_ends_normally db _)).
  unfold set_default at 1. rewrite bind_modify.
  assert (K : keeps R (set_migrated ∅ ;; step2 db ;; step3 db ;;
                       try_except close is_Exception (fun _ => ret tt))).
  { unfold set_migrated, close.
    walk ltac:(first [ apply resolved_step2 | apply resolved_step3
                     | resolved_leaf db ]). }
  apply K. split.
  - intros a l. simpl. apply area_lists_step1.
    intros a' l'. simpl. rewrite lookup_empty. discriminate.
  - intros l. simpl. discriminate.
Qed.

Lemma clean_slate_keeps_caches (b : bool) (confirm : string) :
  keeps (fun s => google_task_lists_cache s = ∅
                  /\ default_google_list_cache s = None)
    (clean_slate_operation b confirm).
Proof. keeps_auto. Qed.

(** X3 (the resolved lists exist).  At the end of a run, every list kept
    for an area identifier is a list the destination holds, under the
    title of an area of that identifier that is not trashed; and the
    default list, when one is kept, is a list the destination holds under
    the title "Things Imported Tasks". *)
Theorem resolved_lists_exist (db : Database) (clean_slate : bool)
    (confirm : string) (e : Env) :
  let s' := snd (main db clean_slate confirm (initial e)) in
  area_lists_resolved db s' /\ default_list_resolved s'.
Proof.
  cbv zeta. unfold main.
  pose proof (clean_slate_keeps_caches clean_slate confirm (initial e)
                (conj eq_refl eq_refl)) as [Hc Hd].
  unfold bind.
  destruct (clean_slate_operation clean_slate confirm (initial e))
    as [[[]|err] s1]; simpl in *.
  - apply resolved_migration.
  - split.
    + intros a l. rewrite Hc, lookup_empty. discriminate.
    + intros l. rewrite Hd. discriminate.
Qed.

(** ** What a created task carries *)

Lemma copies_ok_same (db : Database) (s s' : State) :
  journal s' = journal s -> copies_ok db s -> copies_ok db s'.
Proof. intros E H ev. rewrite E. apply H. Qed.

Lemma copies_ok_add (db : Database) (s s' : State) (ev : Event) :
  journal s' = journal s ++ [ev] -> copies_ok db s -> copy_of db ev ->
  copies_ok db s'.
Proof.
  intros E H Hev x. rewrite E. intros Hx.
  apply in_app_or in Hx as [Hx|[<-|[]]]; [now apply H|exact Hev].
Qed.

Lemma keeps_copies_modify (db : Database) (f : State -> State) :
  (forall s, journal (f s) = journal s
             \/ exists ev, journal (f s) = journal s ++ [ev]
                           /\ copy_of db ev) ->
  keeps (copies_ok db) (modify f).
Proof.
  intros Hf. apply keeps_modify. intros s H.
  destruct (Hf s) as [E|(ev & E & Hev)].
  - now apply (copies_ok_same db s).
  - now apply (copies_ok_add db s _ ev).
Qed.

Ltac copies_leaf :=
  idtac;
  match goal with
  | |- keeps _ (call _) =>
      apply keeps_call; intros ? ? ?;
      eapply copies_ok_same; [|eassumption]; reflexivity
  | |- keeps _ (modify _) =>
      apply keeps_copies_modify; intros ?; simpl;
      first [ left; reflexivity
            | right; eexists; split; [reflexivity|]; exact I ]
  end.

Lemma copies_target_list (db : Database) (u : string) (a : option string) :
  keeps (copies_ok db) (target_list u a).
Proof.
  unfold target_list, get_or_create_default_list, record, set_default.
  walk copies_leaf.
Qed.

Lemma copies_step1 (db : Database) : keeps (copies_ok db) (step1 db).
Proof.
  unfold step1, migrate_area, cache_store. walk copies_leaf.
Qed.

Lemma copies_clean_slate (db : Database) (b : bool) (confirm : string) :
  keeps (copies_ok db) (clean_slate_operation b confirm).
Proof.
  unfold clean_slate_operation, close, sys_exit. walk copies_leaf.
Qed.

Ltac copies_same s :=
  match goal with
  | H : copies_ok ?db s |- copies_ok ?db _ =>
      apply (copies_ok_same db s); [reflexivity|exact H]
  end.

Lemma copies_heading_task (db : Database) (p h id : string)
    (gh : RemoteTask) (task : SubTaskDict) :
  In task (get_tasks_for_heading db h) ->
  keeps (copies_ok db) (migrate_heading_task p h id gh task).
Proof.
  intros Hin s H. unfold migrate_heading_task. cbv zeta.
  run_create s; [|copies_same s|copies_same s].
  eapply (copies_ok_add db s); [reflexivity|exact H|]. simpl.
  destruct (Bd g eq_refl) as (B1 & _). exists task. auto.
Qed.

Lemma copies_direct_task (db : Database) (p id : string) (gp : RemoteTask)
    (task : SubTaskDict) :
  In task (get_tasks_for_project db p) ->
  keeps (copies_ok db) (migrate_direct_task p id gp task).
Proof.
  intros Hin s H. unfold migrate_direct_task. cbv zeta.
  run_create s; [|copies_same s|copies_same s].
  eapply (copies_ok_add db s); [reflexivity|exact H|]. simpl.
  destruct (Bd g eq_refl) as (B1 & _). exists task. auto.
Qed.

Lemma copies_heading (db : Database) (p id : string) (gp : RemoteTask)
    (heading : HeadingDict) :
  In heading (get_headings_for_project db p) ->
  keeps (copies_ok db) (migrate_heading db p id gp heading).
Proof.
  intros Hin s H. unfold migrate_heading. cbv zeta.
  run_create s; [|copies_same s|copies_same s].
  apply keeps_for_each.
  - intros x Hx. now apply copies_heading_task.
  - eapply (copies_ok_add db s); [reflexivity|exact H|]. simpl.
    destruct (Bd g eq_refl) as (B1 & _). exists heading. auto.
Qed.

Lemma copies_project (db : Database) (projects : list ProjectDict)
    (project : ProjectDict) :
  get_projects db = Ok projects -> In project projects ->
  keeps (copies_ok db) (migrate_project db project).
Proof.
  intros Hps Hin s H. unfold migrate_project. cbv zeta.
  pose proof (copies_target_list db (pd_uuid project) (pd_area_uuid project)
                s H) as H1.
  unfold bind at 1.
  destruct (target_list _ _ s) as [[[l|]|err] s1]; simpl in *; try exact H1.
  run_create s1; [|copies_same s1|copies_same s1].
  assert (K : keeps (copies_ok db)
                (for_each (get_headings_for_project db (pd_uuid project))
                   (migrate_heading db (pd_uuid project) (tl_id l) g) ;;
                 for_each (get_tasks_for_project db (pd_uuid project))
                   (migrate_direct_task (pd_uuid project) (tl_id l) g))).
  { apply keeps_bind.
    - apply keeps_for_each. intros x Hx. now apply copies_heading.
    - intros _. apply keeps_for_each. intros x Hx.
      now apply copies_direct_task. }
  apply K. eapply (copies_ok_add db s1); [reflexivity|exact H1|]. simpl.
  destruct (Bd g eq_refl) as (B1 & _). exists projects, project. auto.
Qed.

Lemma copies_step2 (db : Database) : keeps (copies_ok db) (step2 db).
Proof.
  unfold step2. apply keeps_try; [|intros e; apply keeps_ret].
  intros s H. unfold bind at 1, lift_res.
  destruct (get_projects db) as [projects|err] eqn:E; simpl; [|exact H].
  apply keeps_for_each; [|exact H].
  intros x Hx. now apply (copies_project db projects).
Qed.

Lemma copies_standalone (db : Database) (all : list TaskDict)
    (task : TaskDict) :
  get_tasks db = Ok all -> In task all ->
  truthy_opt (td_project_uuid task) = false ->
  keeps (copies_ok db) (migrate_standalone_task task).
Proof.
  intros Ha Hin Hp s H. unfold migrate_standalone_task. cbv zeta.
  pose proof (copies_target_list db (td_uuid task) (td_area_uuid task) s H)
    as H1.
  unfold bind at 1.
  destruct (target_list _ _ s) as [[[l|]|err] s1]; simpl in *; try exact H1.
  run_create s1; [|copies_same s1|copies_same s1].
  eapply (copies_ok_add db s1); [reflexivity|exact H1|]. simpl.
  destruct (Bd g eq_refl) as (B1 & _). exists all, task. auto.
Qed.

Lemma copies_step3 (db : Database) : keeps (copies_ok db) (step3 db).
Proof.
  unfold step3. apply keeps_try; [|intros e; apply keeps_ret].
  intros s H. unfold bind at 1, lift_res.
  destruct (get_tasks db) as [all|err] eqn:E; simpl; [|exact H].
  rewrite bind_gets. cbv zeta.
  apply keeps_for_each; [|exact H].
  intros x Hx. apply List.filter_In in Hx as [Hx Hs].
  apply (copies_standalone db all); auto.
  unfold is_standalone in Hs. apply andb_true_iff in Hs as [_ Hs].
  now apply negb_true_iff in Hs.
Qed.

Lemma copies_main (db : Database) (b : bool) (confirm : string) (e : Env) :
  copies_ok db (snd (main db b confirm (initial e))).
Proof.
  assert (K : keeps (copies_ok db) (main db b confirm)).
  { unfold main, migration, set_cache, set_default, set_migrated, close.
    walk ltac:(first [ apply copies_clean_slate | apply copies_step1
                     | apply copies_step2 | apply copies_step3
                     | copies_leaf ]). }
  apply K. intros ev [].
Qed.

Lemma map_res_in {A B} (f : A -> Res B) (xs : list A) (ys : list B) (y : B) :
  map_res f xs = Ok ys -> In y ys -> exists x, In x xs /\ f x = Ok y.
Proof.
  revert ys. induction xs as [|x xs IH]; simpl; intros ys.
  - intros [= <-] [].
  - destruct (f x) as [y0|e] eqn:E; [|discriminate].
    destruct (map_res f xs) as [ys0|e]; [|discriminate].
    intros [= <-] [<-|Hy]; [eauto|].
    destruct (IH ys0 eq_refl Hy) as (x' & Hx & Hf). eauto.
Qed.

(** A dictionary of [get_projects] comes from a project row that is not
    trashed. *)
Lemma project_row (db : Database) (projects : list ProjectDict)
    (project : ProjectDict) :
  get_projects db = Ok projects -> In project projects ->
  exists r,
    In r (tasks_table db) /\ type r = 1 /\ trashed r = 0
    /\ pd_uuid project = uuid r /\ pd_title project = title r
    /\ pd_notes project = notes r
    /\ area_uuid_of db (area r) = Ok (pd_area_uuid project).
Proof.
  intros Hp Hin. destruct (map_res_in _ _ _ _ Hp Hin) as (r & Hr & Hf).
  apply List.filter_In in Hr as [Hr Ht]. apply andb_true_iff in Ht as [T1 T2].
  apply Z.eqb_eq in T1, T2.
  destruct (area_uuid_of db (area r)) as [au|] eqn:E; [|discriminate].
  injection Hf as <-. exists r. simpl. auto 10.
Qed.

(** A dictionary of [get_tasks] comes from a task row that is not
    trashed. *)
Lemma task_row (db : Database) (all : list TaskDict) (task : TaskDict) :
  get_tasks db = Ok all -> In task all ->
  exists r,
    In r (tasks_table db) /\ type r = 0 /\ trashed r = 0
    /\ td_uuid task = uuid r /\ td_title task = title r
    /\ td_notes task = notes r /\ td_due_date task = dueDate r
    /\ task_uuid_of db (project r) = Ok (td_project_uuid task)
    /\ area_uuid_of db (area r) = Ok (td_area_uuid task)
    /\ task_uuid_of db (heading r) = Ok (td_heading_uuid task).
Proof.
  intros Hp Hin. destruct (map_res_in _ _ _ _ Hp Hin) as (r & Hr & Hf).
  apply List.filter_In in Hr as [Hr Ht]. apply andb_true_iff in Ht as [T1 T2].
  apply Z.eqb_eq in T1, T2.
  destruct (task_uuid_of db (project r)) as [pu|] eqn:E1; [|discriminate].
  destruct (area_uuid_of db (area r)) as [au|] eqn:E2; [|discriminate].
  destruct (task_uuid_of db (heading r)) as [hu|] eqn:E3; [|discriminate].
  injection Hf as <-. exists r. simpl. auto 12.
Qed.

(** A dictionary of [get_headings_for_project]. *)
Lemma heading_row (db : Database) (p : string) (heading : HeadingDict) :
  In heading (get_headings_for_project db p) ->
  exists r,
    In r (tasks_table db) /\ type r = 2 /\ trashed r = 0
    /\ project r = Some p
    /\ hd_uuid heading = uuid r /\ hd_title heading = title r.
Proof.
  unfold get_headings_for_project. intros H.
  apply in_map_iff in H as (r & <- & Hr).
  apply List.filter_In in Hr as [Hr Ht].
  apply andb_true_iff in Ht as [Ht T3]. apply andb_true_iff in Ht as [T1 T2].
  apply Z.eqb_eq in T1, T2. apply col_eq_true in T3.
  exists r. simpl. auto 10.
Qed.

(** A dictionary of [get_tasks_for_heading]. *)
Lemma heading_task_row (db : Database) (h : string) (task : SubTaskDict) :
  In task (get_tasks_for_heading db h) ->
  exists r,
    In r (tasks_table db) /\ type r = 0 /\ trashed r = 0
    /\ heading r = Some h /\ task = sub_task_dict r.
Proof.
  unfold get_tasks_for_heading. intros H.
  apply in_map_iff in H as (r & <- & Hr).
  apply List.filter_In in Hr as [Hr Ht].
  apply andb_true_iff in Ht as [Ht T3]. apply andb_true_iff in Ht as [T1 T2].
  apply Z.eqb_eq in T1, T2. apply col_eq_true in T3.
  exists r. auto 10.
Qed.

(** A dictionary of [get_tasks_for_project]. *)
Lemma direct_task_row (db : Database) (p : string) (task : SubTaskDict) :
  In task (get_tasks_for_project db p) ->
  exists r,
    In r (tasks_table db) /\ type r = 0 /\ trashed r = 0
    /\ project r = Some p /\ heading r = None /\ task = sub_task_dict r.
Proof.
  unfold get_tasks_for_project. intros H.
  apply in_map_iff in H as (r & <- & Hr).
  apply List.filter_In in Hr as [Hr Ht].
  apply andb_true_iff in Ht as [Ht T4]. apply andb_true_iff in Ht as [Ht T3].
  apply andb_true_iff in Ht as [T1 T2].
  apply Z.eqb_eq in T1, T2. apply col_eq_true in T3.
  exists r. destruct (heading r); [discriminate|]. auto 10.
Qed.

Lemma created_entry_row (db : Database) (clean_slate : bool)
    (confirm : string) (e : Env) (site : Site) (u : string)
    (g : RemoteTask) :
  In (Created site u g)
     (journal (snd (main db clean_slate confirm (initial e)))) ->
  exists r,
    In r (tasks_table db) /\ uuid r = u /\ type r = site_type site
    /\ trashed r = 0 /\ t_body g = body_of_row site r.
Proof.
  intros H. apply (copies_main db clean_slate confirm e) in H.
  destruct site as [|p|p h|p|]; simpl in H.
  - destruct H as (projects & project & Hp & Hin & <- & Hb).
    destruct (project_row db projects project Hp Hin)
      as (r & R1 & R2 & R3 & R4 & R5 & R6 & _).
    exists r. simpl. rewrite <- R5, <- R6. auto.
  - destruct H as (heading & Hin & <- & Hb).
    destruct (heading_row db p heading Hin) as (r & R1 & R2 & R3 & _ & R4 & R5).
    exists r. simpl. rewrite <- R5. auto.
  - destruct H as (task & Hin & <- & Hb).
    destruct (heading_task_row db h task Hin) as (r & R1 & R2 & R3 & _ & ->).
    exists r. auto.
  - destruct H as (task & Hin & <- & Hb).
    destruct (direct_task_row db p task Hin)
      as (r & R1 & R2 & R3 & _ & _ & ->).
    exists r. auto.
  - destruct H as (all & task & Ha & Hin & <- & _ & Hb).
    destruct (task_row db all task Ha Hin)
      as (r & R1 & R2 & R3 & R4 & R5 & R6 & R7 & _).
    exists r. simpl. rewrite <- R5, <- R6, <- R7. auto.
Qed.


(** X4 (what a created task carries).  Every task a run creates stands
    for a row of [TMTask] that is not trashed and has the type of the
    place that created it: a project for the project task, a heading for
    a placeholder, a task elsewhere.  Its request body is built from the
    columns of that row: the title and the notes of a project; the title
    of a heading between dashes, without notes; the title, the notes and
    the due date of a task. *)
Theorem created_tasks_copy_rows (db : Database) (clean_slate : bool)
    (confirm : string) (e : Env) (site : Site) (u : string)
    (g : RemoteTask) :
  In (Created site u g)
     (journal (snd (main db clean_slate confirm (initial e)))) ->
  exists r,
    In r (tasks_table db) /\ uuid r = u /\ type r = site_type site
    /\ trashed r = 0 /\ t_body g = body_of_row site r.
Proof. apply created_entry_row. Qed.

Lemma created_tasks_copy_rows_witness :
  exists r,
    In r (tasks_table sample_db) /\ uuid r = "H" /\ type r = 2
    /\ trashed r = 0
    /\ {| b_title := Some "--- Prep ---"; b_notes := None; b_due := None |}
       = body_of_row (HeadingSite "P") r.
Proof.
  apply (created_tasks_copy_rows sample_db false "" fresh_env
           (HeadingSite "P") "H"
           {| t_id := "task-2"; t_tasklist := "list-0";
              t_body := {| b_title := Some "--- Prep ---"; b_notes := None;
                           b_due := None |};
              t_parent := Some "task-1" |}).
  vm_compute. auto 10.
Defined.

(** X5 (trashed rows are left behind).  When the identifiers of the
    source store are unique, a run creates no task for a row that is
    trashed, whatever its type and wherever it sits. *)
Theorem trashed_rows_never_migrated (db : Database) (clean_slate : bool)
    (confirm : string) (e : Env) (r : TMTask) :
  unique_uuids db -> In r (tasks_table db) -> trashed r <> 0 ->
  created_for (uuid r)
    (journal (snd (main db clean_slate confirm (initial e)))) = 0%nat.
Proof.
  intros Hu Hr Ht. unfold created_for.
  apply (proj1 (count_occ_not_In string_dec _ _)). intros Hin.
  apply in_sources in Hin as (site & g & Hin).
  apply created_entry_row in Hin as (r' & R1 & R2 & _ & R3 & _).
  assert (r' = r) by now apply (unique_row db).
  subst r'. contradiction.
Qed.

Lemma trashed_rows_never_migrated_witness :
  created_for "H"
    (journal (snd (main trashed_heading_db false "" (initial fresh_env))))
  = 0%nat.
Proof.
  apply (trashed_rows_never_migrated trashed_heading_db false "" fresh_env
           {| uuid := "H"; type := 2; title := Some "Prep"; notes := None;
              area := None; project := Some "P"; heading := None;
              status := None; dueDate := DueNone; trashed := 1 |}).
  - unfold unique_uuids. apply (bool_decide_unpack _). vm_compute. exact I.
  - simpl. auto.
  - simpl. discriminate.
Defined.

(** ** Where a created task goes *)

Lemma later_refl (s : State) : later s s.
Proof. repeat split; auto. Qed.

Lemma later_trans (s1 s2 s3 : State) :
  later s1 s2 -> later s2 s3 -> later s1 s3.
Proof.
  intros (A1 & A2 & A3) (B1 & B2 & B3). repeat split.
  - congruence.
  - auto.
  - auto.
Qed.

Lemma sent_to_later (s s' : State) (u : string) (a : option string)
    (g : RemoteTask) :
  later s s' -> sent_to s u a g -> sent_to s' u a g.
Proof.
  intros (L1 & L2 & L3). unfold sent_to. rewrite L1.
  destruct (cached_list _ a); [auto|].
  intros (F & l & D & T). split; [auto|]. exists l. auto.
Qed.

Lemma routed_later (db : Database) (s s' : State) (ev : Event) :
  later s s' -> routed db s ev -> routed db s' ev.
Proof.
  intros L. destruct ev as [[| | | |] u g| | |]; simpl; auto.
  - intros (ps & p & H1 & H2 & H3 & H4). exists ps, p.
    repeat split; auto. now apply (sent_to_later s).
  - intros (ts & t & H1 & H2 & H3 & H4). exists ts, t.
    repeat split; auto. now apply (sent_to_later s).
Qed.

Lemma target_of_later (s s' : State) (u : string) (a : option string)
    (l : TaskList) :
  later s s' -> target_of s u a l -> target_of s' u a l.
Proof.
  intros (L1 & L2 & L3). unfold target_of. rewrite L1.
  destruct (cached_list _ a); [auto|]. intros [F D]. auto.
Qed.

(** A step that leaves the journal as it is, or adds an entry that is
    routed. *)
Lemma routing_ok_step (db : Database) (s s' : State) :
  later s s' ->
  (forall ev, In ev (journal s') -> In ev (journal s) \/ routed db s' ev) ->
  routing_ok db s -> routing_ok db s'.
Proof.
  intros L Hj H ev Hev. destruct (Hj ev Hev) as [Hold|Hnew]; [|exact Hnew].
  apply (routed_later db s); [exact L|now apply H].
Qed.

(** The invariant of steps 2 and 3: the journal is routed, and the state
    comes later than [s0]. *)
Lemma later_with_env (e : Env) (s : State) : later s (with_env e s).
Proof. repeat split; simpl; auto. Qed.

Lemma keeps_routing_call {A} (db : Database) (s0 : State) (c : M Env A) :
  keeps (routed_since db s0) (call c).
Proof.
  intros s [H L]. rewrite call_snd. split.
  - apply (routing_ok_step db s); [apply later_with_env| |exact H].
    intros ev; simpl; auto.
  - apply (later_trans _ s); [exact L|apply later_with_env].
Qed.

Lemma keeps_routing_modify (db : Database) (s0 : State)
    (f : State -> State) :
  (forall s, later s (f s)
             /\ forall ev, In ev (journal (f s)) ->
                  In ev (journal s) \/ routed db (f s) ev) ->
  keeps (routed_since db s0) (modify f).
Proof.
  intros Hf. apply keeps_modify. intros s [H L].
  destruct (Hf s) as [L1 H1]. split.
  - now apply (routing_ok_step db s).
  - now apply (later_trans _ s).
Qed.

Ltac later_solve :=
  repeat split; simpl; auto;
  try (intros; discriminate);
  try (intros ? ?; apply in_or_app; now left).

Ltac routing_leaf :=
  idtac;
  match goal with
  | |- keeps _ (call _) => apply keeps_routing_call
  | |- keeps _ (modify _) =>
      apply keeps_routing_modify; intros ?; split;
      [ later_solve
      | simpl; intros ? Hev;
        first [ left; exact Hev
              | apply in_app_or in Hev as [Hev|[<-|[]]];
                [left; exact Hev|right; exact I] ] ]
  end.

Lemma routing_jump (db : Database) (s0 s s1 : State) :
  routing_ok db s -> later s0 s -> later s s1 ->
  (forall ev, In ev (journal s1) -> In ev (journal s) \/ routed db s1 ev) ->
  routing_ok db s1 /\ later s0 s1 /\ later s s1.
Proof.
  intros H L L1 Hj. split; [now apply (routing_ok_step db s)|].
  split; [now apply (later_trans _ s)|exact L1].
Qed.

Lemma later_from_none (s s1 : State) :
  google_task_lists_cache s1 = google_task_lists_cache s ->
  default_google_list_cache s = None ->
  (forall ev, In ev (journal s) -> In ev (journal s1)) ->
  later s s1.
Proof.
  intros H1 H2 H3. split; [exact H1|]. split; [|exact H3].
  intros l. rewrite H2. discriminate.
Qed.

Ltac journal_cases :=
  simpl; intros ? Hev;
  repeat (apply in_app_or in Hev as [Hev|[<-|[]]]; [|right; exact I]);
  left; exact Hev.

Ltac routing_jump_same db s0 s :=
  apply (routing_jump db s0 s);
  [ assumption | assumption | later_solve
  | first [ journal_cases | simpl; auto ] ].

(** The helper of the default list hands out the list it keeps. *)
Lemma routing_default_helper (db : Database) (s0 s : State) :
  routing_ok db s -> later s0 s ->
  let r := fst (get_or_create_default_list s) in
  let s1 := snd (get_or_create_default_list s) in
  (routing_ok db s1 /\ later s0 s1 /\ later s s1)
  /\ forall l, r = Ok (Some l) -> default_google_list_cache s1 = Some l.
Proof.
  intros H L. cbv zeta. unfold get_or_create_default_list.
  rewrite bind_gets.
  destruct (default_google_list_cache s) as [l|] eqn:E.
  - run_assign. split.
    + routing_jump_same db s0 s.
    + intros l' [= <-]. simpl. exact E.
  - rewrite bind_call.
    destruct (get_task_list_by_title (Some DEFAULT_LIST_TITLE) (env s))
      as [[[l|]|err] e1]; simpl.
    + run_assign. split.
      * apply (routing_jump db s0 s); auto; [|journal_cases].
        apply later_from_none; [reflexivity|exact E|].
        simpl. intros ? ?. apply in_or_app. now left.
      * intros l' [= <-]. reflexivity.
    + rewrite bind_call. cbn [env with_env].
      destruct (create_task_list (Some DEFAULT_LIST_TITLE) e1)
        as [[[l|]|err] e2]; simpl.
      * run_assign. split.
        -- apply (routing_jump db s0 s); auto; [|journal_cases].
           apply later_from_none; [reflexivity|exact E|].
           simpl. intros ? ?. apply in_or_app. left. apply in_or_app.
           now left.
        -- intros l' [= <-]. reflexivity.
      * run_assign. split.
        -- routing_jump_same db s0 s.
        -- intros l' [=].
      * split.
        -- routing_jump_same db s0 s.
        -- intros l' [=].
    + split.
      * routing_jump_same db s0 s.
      * intros l' [=].
Qed.

(** [target_list] answers the target of the item. *)
Lemma routing_target_list (db : Database) (s0 s : State) (u : string)
    (a : option string) :
  routing_ok db s -> later s0 s ->
  let r := fst (target_list u a s) in
  let s1 := snd (target_list u a s) in
  (routing_ok db s1 /\ later s0 s1 /\ later s s1)
  /\ forall l, r = Ok (Some l) -> target_of s1 u a l.
Proof.
  intros H L. cbv zeta. unfold target_list. rewrite bind_gets.
  destruct (cached_list (google_task_lists_cache s) a) as [l|] eqn:E.
  - unfold ret. simpl. split.
    + split; [exact H|]. split; [exact L|apply later_refl].
    + intros l' [= <-]. unfold target_of. now rewrite E.
  - unfold record. rewrite bind_modify.
    match goal with
    | |- context [get_or_create_default_list ?x] => set (sf := x)
    end.
    assert (F : routing_ok db sf /\ later s0 sf /\ later s sf).
    { routing_jump_same db s0 s. }
    destruct F as (F1 & F2 & F3).
    destruct (routing_default_helper db s0 sf F1 F2) as [(G1 & G2 & G3) G4].
    split.
    + split; [exact G1|]. split; [exact G2|].
      now apply (later_trans _ sf).
    + intros l Hl. unfold target_of.
      destruct G3 as (C1 & _ & C3). destruct F3 as (C1' & _ & _).
      rewrite C1, C1', E. split; [|now apply G4].
      apply C3. subst sf. simpl. apply in_or_app. right. now left.
Qed.

Lemma routed_since_jump (db : Database) (s0 s s1 : State) :
  routing_ok db s -> later s0 s -> later s s1 ->
  (forall ev, In ev (journal s1) -> In ev (journal s) \/ routed db s1 ev) ->
  routed_since db s0 s1.
Proof.
  intros H L L1 Hj.
  destruct (routing_jump db s0 s s1 H L L1 Hj) as (A & B & _). now split.
Qed.

Lemma target_sent (s : State) (u : string) (a : option string)
    (l : TaskList) (g : RemoteTask) :
  target_of s u a l -> t_tasklist g = tl_id l -> sent_to s u a g.
Proof.
  unfold target_of, sent_to. destruct (cached_list _ a) as [l'|].
  - now intros ->.
  - intros [F D] T. split; [exact F|]. exists l. auto.
Qed.

Lemma routing_sub_items (db : Database) (s0 : State) (p id : string)
    (g : RemoteTask) :
  keeps (routed_since db s0)
    (for_each (get_headings_for_project db p)
       (migrate_heading db p id g) ;;
     for_each (get_tasks_for_project db p)
       (migrate_direct_task p id g)).
Proof.
  unfold migrate_heading, migrate_heading_task, migrate_direct_task,
    record, add_migrated.
  walk routing_leaf.
Qed.

Lemma routing_project (db : Database) (s0 : State)
    (projects : list ProjectDict) (project : ProjectDict) :
  get_projects db = Ok projects -> In project projects ->
  keeps (routed_since db s0) (migrate_project db project).
Proof.
  intros Hps Hin s [H L]. unfold migrate_project. cbv zeta.
  destruct (routing_target_list db s0 s (pd_uuid project)
              (pd_area_uuid project) H L) as [(H1 & L1 & _) T1].
  unfold bind at 1.
  destruct (target_list _ _ s) as [[[l|]|err] s1]; simpl in *;
    try (split; assumption).
  specialize (T1 l eq_refl).
  run_create s1.
  - destruct (Bd g eq_refl) as (_ & B2 & _).
    apply (routing_sub_items db s0 (pd_uuid project) (tl_id l) g).
    apply (routed_since_jump db s0 s1); auto.
    + later_solve.
    + simpl. intros ev Hev.
      apply in_app_or in Hev as [Hev|[<-|[]]]; [now left|right].
      simpl. exists projects, project. repeat split; auto.
      apply (target_sent _ _ _ l); [|exact B2].
      apply (target_of_later s1); [later_solve|exact T1].
  - apply (routed_since_jump db s0 s1); auto; try later_solve;
      simpl; auto.
  - apply (routed_since_jump db s0 s1); auto; try later_solve;
      simpl; auto.
Qed.

Lemma routing_step2 (db : Database) (s0 : State) :
  keeps (routed_since db s0) (step2 db).
Proof.
  unfold step2. apply keeps_try; [|intros e; apply keeps_ret].
  intros s H. unfold bind at 1, lift_res.
  destruct (get_projects db) as [projects|err] eqn:E; simpl; [|exact H].
  apply keeps_for_each; [|exact H].
  intros x Hx. now apply (routing_project db s0 projects).
Qed.

Lemma routing_standalone (db : Database) (s0 : State)
    (all : list TaskDict) (task : TaskDict) :
  get_tasks db = Ok all -> In task all ->
  keeps (routed_since db s0) (migrate_standalone_task task).
Proof.
  intros Ha Hin s [H L]. unfold migrate_standalone_task. cbv zeta.
  destruct (routing_target_list db s0 s (td_uuid task)
              (td_area_uuid task) H L) as [(H1 & L1 & _) T1].
  unfold bind at 1.
  destruct (target_list _ _ s) as [[[l|]|err] s1]; simpl in *;
    try (split; assumption).
  specialize (T1 l eq_refl).
  run_create s1.
  - destruct (Bd g eq_refl) as (_ & B2 & _).
    apply (routed_since_jump db s0 s1); auto.
    + later_solve.
    + simpl. intros ev Hev.
      apply in_app_or in Hev as [Hev|[<-|[]]]; [now left|right].
      simpl. exists all, task. repeat split; auto.
      apply (target_sent _ _ _ l); [|exact B2].
      apply (target_of_later s1); [later_solve|exact T1].
  - apply (routed_since_jump db s0 s1); auto; try later_solve;
      simpl; auto.
  - apply (routed_since_jump db s0 s1); auto; try later_solve;
      simpl; auto.
Qed.

Lemma routing_step3 (db : Database) (s0 : State) :
  keeps (routed_since db s0) (step3 db).
Proof.
  unfold step3. apply keeps_try; [|intros e; apply keeps_ret].
  intros s H. unfold bind at 1, lift_res.
  destruct (get_tasks db) as [all|err] eqn:E; simpl; [|exact H].
  rewrite bind_gets. cbv zeta.
  apply keeps_for_each; [|exact H].
  intros x Hx. apply List.filter_In in Hx as [Hx _].
  now apply (routing_standalone db s0 all).
Qed.

Lemma routing_ok_empty (db : Database) (s : State) :
  journal s = [] -> routing_ok db s.
Proof. intros E ev. rewrite E. intros []. Qed.

Lemma routing_main (db : Database) (b : bool) (confirm : string) (e : Env) :
  routing_ok db (snd (main db b confirm (initial e))).
Proof.
  unfold main, migration.
  apply (keeps_then (fun s => journal s = []));
    [apply journal_empty_clean_slate|apply routing_ok_empty| |reflexivity].
  intros _ s0 H0. revert s0 H0.
  apply (keeps_then (fun s => journal s = []));
    [apply journal_empty_set_cache|apply routing_ok_empty|].
  intros _.
  apply (keeps_then (fun s => journal s = []));
    [apply journal_empty_step1|apply routing_ok_empty|].
  intros _ s H. run_assign.
  match goal with
  | |- routing_ok db (snd (bind (step2 db) _ ?s2)) =>
      assert (K : keeps (routed_since db s2)
                    (step2 db ;; step3 db ;;
                     try_except close is_Exception (fun _ => ret tt)));
      [|apply (K s2); split; [now apply routing_ok_empty|apply later_refl]]
  end.
  apply keeps_bind; [apply routing_step2|]. intros _.
  apply keeps_bind; [apply routing_step3|]. intros _.
  unfold close. walk routing_leaf.
Qed.

Lemma area_uuid_of_ok (db : Database) (fk x : option string) :
  area_uuid_of db fk = Ok x -> x = fk.
Proof. unfold area_uuid_of. repeat case_match; congruence. Qed.

(** X6 (where a created task goes).  At the end of a run, the task
    created for a project and the task created for a standalone task sit
    in the list the run keeps for the area of their row; when the row has
    no area, or an empty one, or the run keeps no list for it, the item
    fell back to the default list and its task sits there. *)
Theorem top_level_tasks_follow_their_area (db : Database)
    (clean_slate : bool) (confirm : string) (e : Env) (site : Site)
    (u : string) (g : RemoteTask) :
  let s' := snd (main db clean_slate confirm (initial e)) in
  In (Created site u g) (journal s') ->
  site = ProjectSite \/ site = StandaloneSite ->
  exists r,
    In r (tasks_table db) /\ uuid r = u /\ type r = site_type site
    /\ trashed r = 0 /\ sent_to s' u (area r) g.
Proof.
  cbv zeta. intros H Hs.
  apply (routing_main db clean_slate confirm e) in H.
  destruct Hs as [-> | ->]; simpl in H.
  - destruct H as (projects & project & Hp & Hin & <- & Hb).
    destruct (project_row db projects project Hp Hin)
      as (r & R1 & R2 & R3 & R4 & _ & _ & R7).
    apply area_uuid_of_ok in R7. exists r. rewrite <- R7. auto.
  - destruct H as (all & task & Ha & Hin & <- & Hb).
    destruct (task_row db all task Ha Hin)
      as (r & R1 & R2 & R3 & R4 & _ & _ & _ & _ & R9 & _).
    apply area_uuid_of_ok in R9. exists r. rewrite <- R9. auto.
Qed.

Lemma top_level_tasks_follow_their_area_witness :
  exists r,
    In r (tasks_table sample_db) /\ uuid r = "W" /\ type r = 0
    /\ trashed r = 0
    /\ sent_to (snd (main sample_db false "" (initial fresh_env))) "W"
         (area r)
         {| t_id := "task-7"; t_tasklist := "list-0";
            t_body := {| b_title := Some "File report"; b_notes := None;
                         b_due := None |};
            t_parent := None |}.
Proof.
  apply (top_level_tasks_follow_their_area sample_db false "" fresh_env
           StandaloneSite "W").
  - vm_compute. auto 12.
  - now right.
Defined.

(** ** Standalone tasks are migrated once *)

Lemma all_calm_create_task (id : string) (title notes : option string)
    (due : DueValue) (parent : option string) :
  keeps all_calm (create_task id title notes due parent).
Proof.
  intros e H. destruct due as [|s|[|]].
  3: rewrite create_task_spec; exact H.
  all: now apply create_task_all_calm.
Qed.

Lemma all_calm_get_task_list_by_title (title : option string) :
  keeps all_calm (get_task_list_by_title title).
Proof. intros e H. now apply lookup_all_calm. Qed.

Lemma all_calm_create_task_list (title : option string) :
  keeps all_calm (create_task_list title).
Proof. intros e H. now apply create_list_all_calm. Qed.

Ltac calm_leaf :=
  idtac;
  match goal with
  | |- keeps _ (call _) =>
      apply keeps_env_call;
      first [ apply all_calm_get_task_list_by_title
            | apply all_calm_create_task_list
            | apply all_calm_create_task ]
  | |- keeps _ (modify _) => apply keeps_modify; intros ? Hg; exact Hg
  end.

Lemma all_calm_step2 (db : Database) :
  keeps (fun s => all_calm (env s)) (step2 db).
Proof.
  unfold step2, migrate_project, migrate_heading, migrate_heading_task,
    migrate_direct_task, target_list, get_or_create_default_list, record,
    add_migrated, set_default.
  walk calm_leaf.
Qed.

Lemma journal_grows_target_list (ev : Event) (u : string)
    (a : option string) :
  keeps (fun s => In ev (journal s)) (target_list u a).
Proof. keeps_auto. Qed.

(** One standalone task when nothing fails. *)
Lemma standalone_task_created (task : TaskDict) (s : State) :
  all_calm (env s) -> td_due_date task <> DueObject true ->
  let s1 := snd (migrate_standalone_task task s) in
  fst (migrate_standalone_task task s) = Ok tt
  /\ all_calm (env s1)
  /\ (forall ev, In ev (journal s) -> In ev (journal s1))
  /\ exists g, In (Created StandaloneSite (td_uuid task) g) (journal s1).
Proof.
  intros Hc Hd. cbv zeta. unfold migrate_standalone_task. cbv zeta.
  destruct (target_list_calm (td_uuid task) (td_area_uuid task) s Hc)
    as ([l T1] & T2 & _).
  assert (T3 : forall ev, In ev (journal s) ->
                 In ev (journal (snd (target_list (td_uuid task)
                                        (td_area_uuid task) s)))).
  { intros ev. apply journal_grows_target_list. }
  rewrite !(bind_ok (target_list (td_uuid task) (td_area_uuid task)) _ s
              (Some l) T1).
  set (s1 := snd (target_list (td_uuid task) (td_area_uuid task) s)) in *.
  rewrite !bind_call.
  destruct (create_task_all_calm (tl_id l) (td_title task) (td_notes task)
              (td_due_date task) None (env s1) T2 Hd) as [[g C1] C2].
  rewrite C1. run_assign.
  split; [reflexivity|]. split; [exact C2|]. split.
  - intros ev Hev. apply in_or_app. left. now apply T3.
  - exists g. apply in_or_app. right. now left.
Qed.

(** The loop of step 3 when nothing fails. *)
Lemma standalone_tasks_created (tasks : list TaskDict) (s : State) :
  all_calm (env s) ->
  (forall t, In t tasks -> td_due_date t <> DueObject true) ->
  let s1 := snd (for_each tasks migrate_standalone_task s) in
  fst (for_each tasks migrate_standalone_task s) = Ok tt
  /\ all_calm (env s1)
  /\ (forall ev, In ev (journal s) -> In ev (journal s1))
  /\ forall t, In t tasks ->
       exists g, In (Created StandaloneSite (td_uuid t) g) (journal s1).
Proof.
  revert s. induction tasks as [|t tasks IH]; intros s Hc Hd; cbv zeta.
  - simpl. split; [reflexivity|]. split; [exact Hc|]. split; [auto|].
    intros t [].
  - simpl for_each.
    destruct (standalone_task_created t s Hc (Hd t (or_introl eq_refl)))
      as (A1 & A2 & A3 & g & A4).
    unfold bind.
    destruct (migrate_standalone_task t s) as [r sa]; simpl in *. subst r.
    destruct (IH sa A2 (fun x Hx => Hd x (or_intror Hx)))
      as (I1 & I2 & I3 & I4).
    split; [exact I1|]. split; [exact I2|]. split; [auto|].
    intros x [<-|Hx]; [|now apply I4]. exists g. auto.
Qed.

(** Step 3 when nothing fails. *)
Lemma step3_creates (db : Database) (all : list TaskDict) (s : State) :
  all_calm (env s) -> text_dues db -> get_tasks db = Ok all ->
  forall t, In t all -> is_standalone (migrated_project_task_ids s) t = true ->
    exists g,
      In (Created StandaloneSite (td_uuid t) g) (journal (snd (step3 db s))).
Proof.
  intros Hc Ht Ha t Hin Hs. unfold step3, try_except.
  unfold bind at 1, lift_res. rewrite Ha. rewrite bind_gets. cbv zeta.
  destruct (standalone_tasks_created
              (List.filter (is_standalone (migrated_project_task_ids s)) all)
              s Hc) as (K1 & _ & _ & K4).
  { intros x Hx. apply List.filter_In in Hx as [Hx _].
    destruct (task_row db all x Ha Hx) as (r & R1 & _ & _ & _ & _ & _ & R7 & _).
    rewrite R7. now apply Ht. }
  destruct (for_each _ _ s) as [r s1]; simpl in *. subst r.
  apply K4. apply List.filter_In. auto.
Qed.

(** The state in which step 3 starts, when the clean-slate operation lets
    the run go on. *)
Lemma main_reaches_step3 (db : Database) (b : bool) (confirm : string)
    (e : Env) :
  fst (clean_slate_operation b confirm (initial e)) = Ok tt ->
  exists sA,
    main db b confirm (initial e)
    = try_except close is_Exception (fun _ => ret tt) (snd (step3 db sA))
    /\ (all_calm e -> all_calm (env sA)).
Proof.
  intros Hr. unfold main.
  rewrite (bind_ok (clean_slate_operation b confirm) _ _ tt Hr).
  set (s1 := snd (clean_slate_operation b confirm (initial e))).
  unfold migration.
  unfold set_cache at 1. rewrite bind_modify.
  rewrite (bind_ok (step1 db) _ _ tt (step1_ends_normally db _)).
  unfold set_default at 1. rewrite bind_modify.
  unfold set_migrated at 1. rewrite bind_modify.
  rewrite (bind_ok (step2 db) _ _ tt (step2_ends_normally db _)).
  rewrite (bind_ok (step3 db) _ _ tt (step3_ends_normally db _)).
  eexists. split; [reflexivity|].
  intros Hc. apply all_calm_step2. simpl.
  apply all_calm_step1. simpl.
  now apply (all_calm_clean_slate b confirm (initial e)).
Qed.

(** X7 (standalone tasks are migrated once).  When the identifiers of the
    source store are unique, the clean-slate operation lets the run go
    on, no listing, list creation or task creation fails, no due date is
    a non-text object and the tasks can be read, every task that
    [get_tasks] returns without a project gets exactly one task in the
    destination: the one of step 2 when step 2 placed it under a heading,
    the one of step 3 otherwise. *)
Theorem tasks_without_project_migrated_once (db : Database)
    (clean_slate : bool) (confirm : string) (e : Env)
    (all_things_tasks : list TaskDict) (task : TaskDict) :
  unique_uuids db -> text_dues db -> all_calm e ->
  fst (clean_slate_operation clean_slate confirm (initial e)) = Ok tt ->
  get_tasks db = Ok all_things_tasks -> In task all_things_tasks ->
  truthy_opt (td_project_uuid task) = false ->
  created_for (td_uuid task)
    (journal (snd (main db clean_slate confirm (initial e)))) = 1%nat.
Proof.
  intros Hu Ht Hc Hr Ha Hin Hp.
  pose proof (created_for_le db clean_slate confirm e (td_uuid task) Hu)
    as Hle.
  assert (Hex : exists site g,
             In (Created site (td_uuid task) g)
               (journal (snd (main db clean_slate confirm (initial e))))).
  { destruct (decide (td_uuid task
                      ∈ migrated_project_task_ids
                          (snd (main db clean_slate confirm (initial e)))))
      as [Hm|Hm].
    - apply marked_iff_created in Hm as (site & g & Hm & _). eauto.
    - destruct (main_reaches_step3 db clean_slate confirm e Hr)
        as (sA & E & HA).
      rewrite E in Hm |- *. unfold try_except, close, modify in Hm |- *.
      simpl in Hm |- *.
      rewrite (step3_keeps_placed_set db (migrated_project_task_ids sA) sA
                 eq_refl) in Hm.
      destruct (step3_creates db all_things_tasks sA (HA Hc) Ht Ha task Hin)
        as [g Hg]; [|eauto].
      unfold is_standalone. rewrite Hp.
      now rewrite (bool_decide_eq_false_2 _ Hm). }
  destruct Hex as (site & g & Hex).
  assert (Hs : In (td_uuid task)
                 (sources (journal (snd (main db clean_slate confirm
                                           (initial e)))))).
  { apply in_sources. eauto. }
  apply (proj1 (count_occ_In string_dec _ _)) in Hs.
  unfold created_for in *. lia.
Qed.

Lemma tasks_without_project_migrated_once_witness :
  created_for "S"
    (journal (snd (main sample_db false "" (initial fresh_env)))) = 1%nat.
Proof.
  apply (tasks_without_project_migrated_once sample_db false "" fresh_env
           (match get_tasks sample_db with Ok l => l | Raise _ => [] end)
           {| td_uuid := "S"; td_title := Some "Buy milk"; td_notes := None;
              td_status := Some "incomplete"; td_due_date := DueNone;
              td_project_uuid := None; td_area_uuid := None;
              td_heading_uuid := None |}).
  - unfold unique_uuids. apply (bool_decide_unpack _). vm_compute. exact I.
  - intros r Hr. simpl in Hr.
    repeat (destruct Hr as [<-|Hr]; [discriminate|]). destruct Hr.
  - repeat split; constructor.
  - reflexivity.
  - vm_compute. reflexivity.
  - vm_compute. auto 10.
  - reflexivity.
Defined.

(** ** Clearing the destination *)

(** [delete_task_list] catches every API error itself, so the handler
    around it in [clear_all_task_lists_and_tasks] never runs. *)
Lemma try_except_unused {S A} (m : M S A) (h : Exn -> M S A) (s : S) :
  contains_http m -> try_except m is_HttpError h s = m s.
Proof.
  intros H. unfold try_except. specialize (H s).
  destruct (m s) as [[a|err] s']; [reflexivity|].
  destruct err as [st| | | | |]; try reflexivity. now destruct (H st).
Qed.

Lemma for_each_ext {S A} (body body' : A -> M S unit) :
  (forall x s, body x s = body' x s) ->
  forall xs s, for_each xs body s = for_each xs body' s.
Proof.
  intros H xs. induction xs as [|x xs IH]; intros s; [reflexivity|].
  simpl. unfold bind. rewrite H.
  destruct (body' x s) as [[[]|err] s1]; [apply IH|reflexivity].
Qed.

Lemma bind_ext {S A B} (m : M S A) (k k' : A -> M S B) (s : S) :
  (forall a s', k a s' = k' a s') -> bind m k s = bind m k' s.
Proof.
  intros H. unfold bind. destruct (m s) as [[a|err] s']; [apply H|reflexivity].
Qed.

(** [clear_all_task_lists_and_tasks] without the handler of its loop. *)
Lemma clear_all_spec (e : Env) :
  clear_all_task_lists_and_tasks e
  = (print MsgClearing ;;
     task_lists <- get_task_lists ;;
     match task_lists with
     | [] => print MsgNoListsToDelete
     | _ => for_each task_lists clear_one ;; print MsgFinishedClearing
     end) e.
Proof.
  unfold clear_all_task_lists_and_tasks.
  apply bind_ext. intros _ e1. apply bind_ext. intros [|l ls] e2;
    [reflexivity|].
  unfold bind.
  rewrite (for_each_ext _ clear_one); [reflexivity|].
  intros x s. unfold clear_one, bind, print, modify.
  apply try_except_unused, contains_http_delete_task_list.
Qed.

(** [delete_task_list], whatever is planned for it. *)
Lemma delete_task_list_spec (id : string) (e : Env) :
  delete_task_list id e
  = let sv := remote e in
    let rest q := set_faults (set_on_lists_delete q (faults sv)) sv in
    let run (sv1 : Service) :=
      if has_list id (lists sv1) then
        (Ok tt,
         {| remote :=
              {| lists := List.filter
                            (fun l => negb (String.eqb (tl_id l) id))
                            (lists sv1);
                 tasks := List.filter
                            (fun t => negb (String.eqb (t_tasklist t) id))
                            (tasks sv1);
                 next_id := next_id sv1; faults := faults sv1 |};
            stdout := stdout e ++ [MsgListDeleted id] |})
      else
        (Ok tt, {| remote := sv1;
                   stdout := stdout e ++ [MsgListNotFound id] |}) in
    match on_lists_delete (faults sv) with
    | [] => run sv
    | NoFault :: q => run (rest q)
    | FaultHttp st :: q =>
        (Ok tt,
         {| remote := rest q;
            stdout := stdout e
                      ++ [if st =? 404 then MsgListNotFound id
                          else MsgDeleteListError id (HttpError st)] |})
    | FaultTransport :: q =>
        (Raise TransportError, {| remote := rest q; stdout := stdout e |})
    end.
Proof.
  unfold has_list. client_unfold. open_env e. unfold bind. simpl.
  destruct q3 as [|[|st|] q3]; simpl;
    try (destruct (existsb _ ls); reflexivity); try reflexivity.
  destruct (Z.eqb_spec st 404) as [->|Hne]; [reflexivity|].
  destruct st as [|p|p]; try reflexivity.
  do 9 (destruct p; try reflexivity). now destruct Hne.
Qed.

(** X8 (nothing to clear).  When the listing is answered by an API error,
    or goes through and finds no list, [clear_all_task_lists_and_tasks]
    returns normally without a single deletion: the lists, the tasks and
    the planned deletions of the destination are untouched, and the last
    line printed is "No task lists found to delete", also after the
    error. *)
Theorem clear_all_without_listing (e : Env) :
  fails_http (on_lists_list (faults (remote e)))
  \/ (goes_through (on_lists_list (faults (remote e)))
      /\ lists (remote e) = []) ->
  let e' := snd (clear_all_task_lists_and_tasks e) in
  fst (clear_all_task_lists_and_tasks e) = Ok tt
  /\ lists (remote e') = lists (remote e)
  /\ tasks (remote e') = tasks (remote e)
  /\ on_lists_delete (faults (remote e'))
     = on_lists_delete (faults (remote e))
  /\ exists out, stdout e' = stdout e ++ out ++ [MsgNoListsToDelete].
Proof.
  intros H. cbv zeta. rewrite clear_all_spec.
  unfold bind at 1. unfold print at 1. unfold modify at 1. cbv iota beta.
  unfold bind at 1. rewrite get_task_lists_spec. cbv zeta.
  open_env e. simpl in *.
  destruct q1 as [|[|st|] q1]; simpl in *.
  - destruct H as [[]|[_ ->]]. simpl.
    repeat split. exists [MsgClearing]. now rewrite <- app_assoc.
  - destruct H as [[]|[_ ->]]. simpl.
    repeat split. exists [MsgClearing]. now rewrite <- app_assoc.
  - repeat split.
    exists [MsgClearing; MsgFetchListsError (HttpError st)].
    now rewrite <- !app_assoc.
  - destruct H as [[]|[[=] _]].
Qed.

Lemma clear_all_without_listing_witness :
  fst (clear_all_task_lists_and_tasks failing_env) = Ok tt
  /\ lists (remote (snd (clear_all_task_lists_and_tasks failing_env)))
     = [ {| tl_id := "a"; tl_title := Some "Home" |} ].
Proof.
  destruct (clear_all_without_listing failing_env) as (H1 & H2 & _).
  - left. exact I.
  - split; [exact H1|exact H2].
Defined.

Lemma has_list_false_filter (id : string) (ls : list TaskList) :
  has_list id ls = false ->
  List.filter (fun l => negb (String.eqb (tl_id l) id)) ls = ls.
Proof.
  unfold has_list. induction ls as [|l ls IH]; simpl; [reflexivity|].
  intros H. apply orb_false_iff in H as [H1 H2].
  rewrite H1. simpl. now rewrite IH.
Qed.

(** One round of the loop when no deletion fails. *)
Lemma clear_one_calm (x : TaskList) (e : Env) :
  calm (on_lists_delete (faults (remote e))) ->
  let e' := snd (clear_one x e) in
  fst (clear_one x e) = Ok tt
  /\ calm (on_lists_delete (faults (remote e')))
  /\ lists (remote e')
     = List.filter (fun l => negb (String.eqb (tl_id l) (tl_id x)))
         (lists (remote e))
  /\ tasks (remote e')
     = if has_list (tl_id x) (lists (remote e))
       then List.filter
              (fun t => negb (String.eqb (t_tasklist t) (tl_id x)))
              (tasks (remote e))
       else tasks (remote e).
Proof.
  intros Hc. cbv zeta. unfold clear_one, bind, print, modify.
  cbv iota beta. rewrite delete_task_list_spec. cbv zeta. simpl.
  destruct (on_lists_delete _) as [|f q] eqn:E.
  - destruct (has_list _ _) eqn:Hl; simpl; rewrite ?E;
      repeat split; auto.
    now rewrite has_list_false_filter.
  - rewrite (calm_head _ _ Hc). apply calm_tail in Hc. simpl.
    destruct (has_list _ _) eqn:Hl; simpl; repeat split; auto.
    now rewrite has_list_false_filter.
Qed.

(** The loop over the lists [xs] when no deletion fails: a list of [xs]
    either is still there or has lost its tasks already. *)
Lemma clear_loop_calm (xs : list TaskList) (e : Env) :
  calm (on_lists_delete (faults (remote e))) ->
  (forall x, In x xs ->
     has_list (tl_id x) (lists (remote e)) = true
     \/ forall t, In t (tasks (remote e)) -> t_tasklist t <> tl_id x) ->
  let e' := snd (for_each xs clear_one e) in
  fst (for_each xs clear_one e) = Ok tt
  /\ (forall l, In l (lists (remote e')) ->
        In l (lists (remote e)) /\ forall x, In x xs -> tl_id l <> tl_id x)
  /\ (forall t, In t (tasks (remote e')) ->
        In t (tasks (remote e)) /\ forall x, In x xs -> t_tasklist t <> tl_id x).
Proof.
  revert e. induction xs as [|x xs IH]; intros e Hc Hx; cbv zeta.
  - simpl. split; [reflexivity|]. split; intros y Hy; split; auto;
      intros ? [].
  - simpl for_each. destruct (clear_one_calm x e Hc) as (A1 & A2 & A3 & A4).
    unfold bind. destruct (clear_one x e) as [r e1]; simpl in *. subst r.
    assert (T1 : forall t, In t (tasks (remote e1)) ->
                   In t (tasks (remote e)) /\ t_tasklist t <> tl_id x).
    { intros t Ht. rewrite A4 in Ht.
      destruct (Hx x (or_introl eq_refl)) as [Hp|Hn].
      - rewrite Hp in Ht. apply List.filter_In in Ht as [Ht Hne].
        split; [exact Ht|]. apply negb_true_iff in Hne.
        now apply String.eqb_neq.
      - destruct (has_list _ _).
        + apply List.filter_In in Ht as [Ht _]. auto.
        + auto. }
    destruct (IH e1 A2) as (I1 & I2 & I3).
    { intros y Hy. destruct (Hx y (or_intror Hy)) as [Hp|Hn].
      - destruct (String.eqb_spec (tl_id y) (tl_id x)) as [Eq|Ne].
        + right. intros t Ht. rewrite Eq. now apply T1.
        + left. rewrite A3. unfold has_list in *.
          apply existsb_exists in Hp as (l & Hl & El).
          apply existsb_exists. exists l. split; [|exact El].
          apply List.filter_In. split; [exact Hl|].
          apply String.eqb_eq in El. apply negb_true_iff.
          apply String.eqb_neq. congruence.
      - right. intros t Ht. apply Hn. now apply T1. }
    split; [exact I1|]. split.
    + intros l Hl. destruct (I2 l Hl) as [J1 J2]. rewrite A3 in J1.
      apply List.filter_In in J1 as [J1 Hne]. split; [exact J1|].
      intros y [<-|Hy]; [|now apply J2].
      apply negb_true_iff in Hne. now apply String.eqb_neq.
    + intros t Ht. destruct (I3 t Ht) as [J1 J2].
      destruct (T1 t J1) as [J3 J4]. split; [exact J3|].
      intros y [<-|Hy]; [exact J4|now apply J2].
Qed.

(** X9 (clearing empties the destination).  When neither the listing nor
    a deletion fails, [clear_all_task_lists_and_tasks] returns normally
    and leaves no list; the tasks that are left are tasks of before that
    belonged to none of the lists. *)
Theorem clear_all_empties_destination (e : Env) :
  calm (on_lists_list (faults (remote e))) ->
  calm (on_lists_delete (faults (remote e))) ->
  let e' := snd (clear_all_task_lists_and_tasks e) in
  fst (clear_all_task_lists_and_tasks e) = Ok tt
  /\ lists (remote e') = []
  /\ forall t, In t (tasks (remote e')) ->
       In t (tasks (remote e))
       /\ forall l, In l (lists (remote e)) -> t_tasklist t <> tl_id l.
Proof.
  intros Hl Hd. cbv zeta.
  remember (clear_all_task_lists_and_tasks e) as run eqn:E.
  rewrite clear_all_spec in E.
  unfold bind at 1 in E. unfold print at 1 in E. unfold modify at 1 in E.
  cbv iota beta in E.
  set (e0 := {| remote := remote e; stdout := stdout e ++ [MsgClearing] |})
    in E.
  assert (G : fst (get_task_lists e0) = Ok (lists (remote e))
              /\ lists (remote (snd (get_task_lists e0))) = lists (remote e)
              /\ tasks (remote (snd (get_task_lists e0))) = tasks (remote e)
              /\ calm (on_lists_delete
                         (faults (remote (snd (get_task_lists e0)))))).
  { rewrite get_task_lists_spec. cbv zeta. subst e0. simpl.
    destruct (on_lists_list _) as [|f q] eqn:E1; simpl; [auto|].
    rewrite (calm_head _ _ Hl). simpl. auto. }
  destruct G as (G1 & G2 & G3 & G4). unfold bind at 1 in E.
  destruct (get_task_lists e0) as [r e1]; simpl in G1, G2, G3, G4. subst r.
  destruct (lists (remote e)) as [|l0 ls0] eqn:EL.
  - unfold print, modify in E. subst run. simpl. rewrite G2, G3.
    repeat split; auto; intros l [].
  - destruct (clear_loop_calm (l0 :: ls0) e1 G4) as (K1 & K2 & K3).
    { intros x Hx. left. rewrite G2. unfold has_list.
      apply existsb_exists. exists x. split; [exact Hx|].
      apply String.eqb_refl. }
    unfold bind in E.
    destruct (for_each _ _ e1) as [r e2]; simpl in K1, K2, K3. subst r.
    unfold print, modify in E. subst run. simpl.
    split; [reflexivity|]. split.
    + destruct (lists (remote e2)) as [|l ls] eqn:E2; [reflexivity|].
      destruct (K2 l (or_introl eq_refl)) as [J1 J2]. rewrite G2 in J1.
      now destruct (J2 l J1).
    + intros t Ht. destruct (K3 t Ht) as [J1 J2]. rewrite G3 in J1. auto.
Qed.

Lemma clear_all_empties_destination_witness :
  fst (clear_all_task_lists_and_tasks two_work_lists) = Ok tt
  /\ lists (remote (snd (clear_all_task_lists_and_tasks two_work_lists)))
     = [].
Proof.
  destruct (clear_all_empties_destination two_work_lists) as (H1 & H2 & _).
  - constructor.
  - constructor.
  - split; [exact H1|exact H2].
Defined.

(** One round of the loop when every deletion reaches the service. *)
Lemma clear_one_goes_on (x : TaskList) (e : Env) :
  no_transport (on_lists_delete (faults (remote e))) ->
  let e' := snd (clear_one x e) in
  fst (clear_one x e) = Ok tt
  /\ no_transport (on_lists_delete (faults (remote e')))
  /\ exists m,
       is_delete_failed m = false
       /\ stdout e'
          = stdout e ++ [MsgDeletingList (tl_title x) (tl_id x); m].
Proof.
  intros Hc. cbv zeta. unfold clear_one, bind, print, modify.
  cbv iota beta. rewrite delete_task_list_spec. cbv zeta. simpl.
  destruct (on_lists_delete _) as [|f q] eqn:E.
  - destruct (has_list _ _); simpl; rewrite ?E; (split; [reflexivity|]);
      (split; [exact Hc|]); eexists; rewrite <- app_assoc;
      (split; [|reflexivity]); reflexivity.
  - inversion Hc as [|f' q' Hf Hq]; subst.
    destruct f as [|st|]; [| |contradiction]; simpl.
    + destruct (has_list _ _); simpl; (split; [reflexivity|]);
        (split; [exact Hq|]); eexists; rewrite <- app_assoc;
        (split; [|reflexivity]); reflexivity.
    + split; [reflexivity|]. split; [exact Hq|].
      eexists. rewrite <- app_assoc. split; [|reflexivity].
      now destruct (st =? 404).
Qed.

Lemma filter_delete_failed_app (out : list Msg) (l : list Msg) :
  forallb (fun m => negb (is_delete_failed m)) l = true ->
  List.filter is_delete_failed (out ++ l) = List.filter is_delete_failed out.
Proof.
  intros H. rewrite List.filter_app.
  induction l as [|m l IH]; simpl in *; [apply app_nil_r|].
  apply andb_true_iff in H as [H1 H2]. apply negb_true_iff in H1.
  rewrite H1. now apply IH.
Qed.

(** The loop when every deletion reaches the service. *)
Lemma clear_loop_goes_on (xs : list TaskList) (e : Env) :
  no_transport (on_lists_delete (faults (remote e))) ->
  let e' := snd (for_each xs clear_one e) in
  fst (for_each xs clear_one e) = Ok tt
  /\ (forall m, In m (stdout e) -> In m (stdout e'))
  /\ (forall x, In x xs ->
        In (MsgDeletingList (tl_title x) (tl_id x)) (stdout e'))
  /\ List.filter is_delete_failed (stdout e')
     = List.filter is_delete_failed (stdout e).
Proof.
  revert e. induction xs as [|x xs IH]; intros e Hc; cbv zeta.
  - simpl. repeat split; auto. intros x [].
  - simpl for_each.
    destruct (clear_one_goes_on x e Hc) as (A1 & A2 & m & A3 & A4).
    unfold bind. destruct (clear_one x e) as [r e1]; simpl in *. subst r.
    destruct (IH e1 A2) as (I1 & I2 & I3 & I4).
    split; [exact I1|]. split; [|split].
    + intros y Hy. apply I2. rewrite A4. apply in_or_app. now left.
    + intros y [<-|Hy]; [|now apply I3].
      apply I2. rewrite A4. apply in_or_app. right. now left.
    + rewrite I4, A4. apply filter_delete_failed_app. simpl.
      now rewrite A3.
Qed.

(** X10 (the clearing goes on after an API error).  When the listing goes
    through and every deletion reaches the service, whatever the service
    answers, [clear_all_task_lists_and_tasks] returns normally after
    announcing the deletion of every list of the destination; and it
    never prints the line of the handler around [delete_task_list],
    because [delete_task_list] catches the API error itself. *)
Theorem clear_all_goes_on_after_errors (e : Env) :
  goes_through (on_lists_list (faults (remote e))) ->
  no_transport (on_lists_delete (faults (remote e))) ->
  let e' := snd (clear_all_task_lists_and_tasks e) in
  fst (clear_all_task_lists_and_tasks e) = Ok tt
  /\ (forall l, In l (lists (remote e)) ->
        In (MsgDeletingList (tl_title l) (tl_id l)) (stdout e'))
  /\ List.filter is_delete_failed (stdout e')
     = List.filter is_delete_failed (stdout e).
Proof.
  intros Hl Hd. cbv zeta.
  remember (clear_all_task_lists_and_tasks e) as run eqn:E.
  rewrite clear_all_spec in E.
  unfold bind at 1 in E. unfold print at 1 in E. unfold modify at 1 in E.
  cbv iota beta in E.
  set (e0 := {| remote := remote e; stdout := stdout e ++ [MsgClearing] |})
    in E.
  assert (G : fst (get_task_lists e0) = Ok (lists (remote e))
              /\ stdout (snd (get_task_lists e0)) = stdout e0
              /\ no_transport
                   (on_lists_delete
                      (faults (remote (snd (get_task_lists e0)))))).
  { rewrite get_task_lists_spec. cbv zeta. subst e0. simpl.
    destruct (on_lists_list _) as [|f q] eqn:E1; simpl; [auto|].
    simpl in Hl. subst f. simpl. auto. }
  destruct G as (G1 & G2 & G3). unfold bind at 1 in E.
  destruct (get_task_lists e0) as [r e1]; simpl in G1, G2, G3. subst r.
  assert (F0 : List.filter is_delete_failed (stdout e1)
               = List.filter is_delete_failed (stdout e)).
  { rewrite G2. subst e0. simpl. now apply filter_delete_failed_app. }
  destruct (lists (remote e)) as [|l0 ls0] eqn:EL.
  - unfold print, modify in E. subst run. simpl.
    split; [reflexivity|]. split; [intros l []|].
    rewrite <- F0. now apply filter_delete_failed_app.
  - destruct (clear_loop_goes_on (l0 :: ls0) e1 G3) as (K1 & K2 & K3 & K4).
    unfold bind in E.
    destruct (for_each _ _ e1) as [r e2]; simpl in K1, K2, K3, K4. subst r.
    unfold print, modify in E. subst run. simpl.
    split; [reflexivity|]. split.
    + intros l Hl'. apply in_or_app. left. now apply K3.
    + rewrite <- F0, <- K4. now apply filter_delete_failed_app.
Qed.

Lemma clear_all_goes_on_after_errors_witness :
  fst (clear_all_task_lists_and_tasks
         {| remote :=
              {| lists := [ {| tl_id := "a"; tl_title := Some "Home" |};
                            {| tl_id := "b"; tl_title := Some "Work" |} ];
                 tasks := []; next_id := 2;
                 faults := {| on_lists_list := []; on_lists_insert := [];
                              on_lists_delete := [FaultHttp 500];
                              on_tasks_insert := [];
                              on_tasks_list := [] |} |};
            stdout := [] |}) = Ok tt.
Proof.
  refine (proj1 (clear_all_goes_on_after_errors _ _ _)).
  - exact I.
  - repeat constructor; discriminate.
Defined.

(** ** Creating and looking up *)

Lemma lookup_goes_through (title : option string) (e : Env) :
  goes_through (on_lists_list (faults (remote e))) ->
  fst (get_task_list_by_title title e)
  = Ok (List.find (has_title title) (lists (remote e))).
Proof.
  intros H. rewrite get_task_list_by_title_spec, get_task_lists_spec.
  cbv zeta. destruct (on_lists_list _) as [|f q]; simpl in *; [reflexivity|].
  subst f. reflexivity.
Qed.

Lemma find_some_count (t : option string) (ls : list TaskList)
    (l : TaskList) :
  List.find (has_title t) ls = Some l -> (0 < count_title t ls)%nat.
Proof.
  unfold count_title. induction ls as [|a ls IH]; simpl; [discriminate|].
  destruct (has_title t a); simpl; [lia|exact IH].
Qed.

(** X11 (a created list is found again).  After [create_task_list]
    returned a list, a lookup of the same title whose listing goes
    through finds a list of that title: the created one when no list of
    the destination carried the title before, an older one otherwise. *)
Theorem created_list_is_found (title : option string) (e : Env)
    (l : TaskList) :
  fst (create_task_list title e) = Ok (Some l) ->
  let e1 := snd (create_task_list title e) in
  goes_through (on_lists_list (faults (remote e1))) ->
  exists l',
    fst (get_task_list_by_title title e1) = Ok (Some l')
    /\ tl_title l' = title
    /\ (count_title title (lists (remote e)) = 0%nat -> l' = l)
    /\ ((0 < count_title title (lists (remote e)))%nat ->
        In l' (lists (remote e))).
Proof.
  intros Hc e1 Hg. subst e1.
  destruct (create_list_cases title e) as [_ C]. rewrite Hc in C.
  destruct C as [Ct Cl]. rewrite (lookup_goes_through _ _ Hg), Cl.
  destruct (List.find (has_title title) (lists (remote e))) as [l0|] eqn:F.
  - exists l0. rewrite (find_app_stable _ _ _ _ F).
    split; [reflexivity|]. split.
    + apply List.find_some in F as [_ F].
      now apply bool_decide_eq_true_1 in F.
    + split.
      * intros H0. apply find_some_count in F. lia.
      * intros _. now apply find_some_in in F.
  - exists l. rewrite (find_app_new _ _ _ F Ct).
    split; [reflexivity|]. split; [exact Ct|]. split; [auto|].
    intros H0. apply find_none_count in F. lia.
Qed.

Lemma created_list_is_found_witness :
  exists l',
    fst (get_task_list_by_title (Some "Work")
           (snd (create_task_list (Some "Work") fresh_env))) = Ok (Some l')
    /\ tl_title l' = Some "Work".
Proof.
  destruct (created_list_is_found (Some "Work") fresh_env
              {| tl_id := "list-0"; tl_title := Some "Work" |})
    as (l' & H1 & H2 & _).
  - reflexivity.
  - exact I.
  - exists l'. split; [exact H1|exact H2].
Defined.

Lemma get_items_items {A} (l : list A) : get_items (items l) = l.
Proof. now destruct l. Qed.

Lemma get_tasks_in_list_goes_through (id : string) (c h : bool) (e : Env) :
  goes_through (on_tasks_list (faults (remote e))) ->
  fst (get_tasks_in_list id c h e)
  = Ok (List.filter (fun t => String.eqb (t_tasklist t) id)
          (tasks (remote e))).
Proof.
  intros H. unfold get_tasks_in_list, try_except, bind, api, tasks_list,
    next_fault, gets, ret.
  open_env e. destruct q5 as [|f q5]; simpl in *.
  - now rewrite get_items_items.
  - subst f. simpl. now rewrite get_items_items.
Qed.

Lemma filter_none (id : string) (ts : list RemoteTask) :
  (forall t, In t ts -> t_tasklist t <> id) ->
  List.filter (fun t => String.eqb (t_tasklist t) id) ts = [].
Proof.
  induction ts as [|t ts IH]; intros Hn; [reflexivity|]. simpl.
  destruct (String.eqb_spec (t_tasklist t) id) as [Eq|Ne].
  - destruct (Hn t (or_introl eq_refl) Eq).
  - apply IH. intros x Hx. apply Hn. now right.
Qed.

(** X12 (a created task is listed).  After [create_task] returned a task
    for a list, a listing of that list that goes through returns it,
    whatever the two flags; and a listing only returns tasks of the list
    it was asked for, none at all for a list without tasks. *)
Theorem created_task_is_listed (id : string) (title notes : option string)
    (due : DueValue) (parent : option string) (e : Env) (g : RemoteTask) :
  fst (create_task id title notes due parent e) = Ok (Some g) ->
  let e1 := snd (create_task id title notes due parent e) in
  goes_through (on_tasks_list (faults (remote e1))) ->
  forall show_completed show_hidden,
    exists ts,
      fst (get_tasks_in_list id show_completed show_hidden e1) = Ok ts
      /\ In g ts
      /\ (forall t, In t ts -> t_tasklist t = id)
      /\ forall id',
           (forall t, In t (tasks (remote e1)) -> t_tasklist t <> id') ->
           fst (get_tasks_in_list id' show_completed show_hidden e1) = Ok [].
Proof.
  intros Hc e1 Hg c h. subst e1.
  pose proof (create_task_stored id title notes due parent e g Hc) as St.
  destruct (create_task_body id title notes due parent e g Hc)
    as (_ & B2 & _).
  eexists. split; [now apply get_tasks_in_list_goes_through|].
  split; [|split].
  - apply List.filter_In. split; [exact St|]. now apply String.eqb_eq.
  - intros t Ht. apply List.filter_In in Ht as [_ Ht].
    now apply String.eqb_eq.
  - intros id' Hn. rewrite (get_tasks_in_list_goes_through _ _ _ _ Hg).
    f_equal. now apply filter_none.
Qed.

Lemma created_task_is_listed_witness :
  exists ts,
    fst (get_tasks_in_list "list-0" true true
           (snd (create_task "list-0" (Some "Buy milk") None DueNone None
                   fresh_env))) = Ok ts
    /\ In (plain_task "task-0" "list-0" "Buy milk" None) ts.
Proof.
  destruct (created_task_is_listed "list-0" (Some "Buy milk") None DueNone
              None fresh_env (plain_task "task-0" "list-0" "Buy milk" None))
    with (show_completed := true) (show_hidden := true)
    as (ts & H1 & H2 & _).
  - reflexivity.
  - exact I.
  - exists ts. split; [exact H1|exact H2].
Defined.

(** ** Dates *)

Lemma month_day_table :
  forallb (fun a => forallb (fun b => forallb (fun c => forallb (fun d =>
    month_day_checked a b c d) digits) digits) digits) digits = true.
Proof. vm_compute. reflexivity. Qed.

Lemma digit_cases (k : Z) : 0 <= k < 10 -> In k digits.
Proof.
  intros H. unfold digits.
  assert (k = 0 \/ k = 1 \/ k = 2 \/ k = 3 \/ k = 4 \/ k = 5 \/ k = 6
          \/ k = 7 \/ k = 8 \/ k = 9) as Hk by lia.
  simpl. intuition auto.
Qed.

Lemma month_day_checked_digits (a b c d : Z) :
  0 <= a < 10 -> 0 <= b < 10 -> 0 <= c < 10 -> 0 <= d < 10 ->
  month_day_checked a b c d = true.
Proof.
  intros Ha Hb Hc Hd. pose proof month_day_table as T.
  rewrite forallb_forall in T. specialize (T a (digit_cases a Ha)).
  rewrite forallb_forall in T. specialize (T b (digit_cases b Hb)).
  rewrite forallb_forall in T. specialize (T c (digit_cases c Hc)).
  rewrite forallb_forall in T. exact (T d (digit_cases d Hd)).
Qed.

Lemma digit_char_mod (k : Z) : digit_char k = digit_char (k mod 10).
Proof. unfold digit_char. now rewrite Z.mod_mod by lia. Qed.

Lemma digit_char_facts (k : Z) :
  0 <= k < 10 ->
  is_digit (digit_char k) = true /\ digit_value (digit_char k) = k.
Proof.
  intros H. apply digit_cases in H. unfold digits in H. simpl in H.
  intuition (subst; split; reflexivity).
Qed.

Lemma fmap_bind_list {A B C} (g : B -> C) (f : A -> list B) (l : list A) :
  g <$> (l ≫= f) = l ≫= (fun x => g <$> f x).
Proof.
  induction l as [|x l IH]; [reflexivity|].
  rewrite !bind_cons, fmap_app. now rewrite IH.
Qed.

Lemma head_fmap_list {A B} (g : A -> B) (l : list A) :
  head (g <$> l) = g <$> head l.
Proof. now destruct l. Qed.

(** The year is read off the first four characters; the rest of the
    pattern does not depend on it. *)
Lemma pattern_match_year (y1 y2 y3 y4 : ascii) (r0 : list ascii) :
  pattern_match (y1 :: y2 :: y3 :: y4 :: r0)
  = if is_digit y1 && is_digit y2 && is_digit y3 && is_digit y4 then
      (fun '(m, d, r) =>
         (1000 * digit_value y1 + 100 * digit_value y2
          + 10 * digit_value y3 + digit_value y4, m, d, r))
      <$> month_day_match r0
    else None.
Proof.
  unfold pattern_match, month_day_match.
  destruct (is_digit y1 && is_digit y2 && is_digit y3 && is_digit y4);
    [|reflexivity].
  cbv zeta. rewrite <- head_fmap_list. f_equal.
  rewrite fmap_bind_list. apply list_bind_ext; [|reflexivity]. intros r1.
  rewrite fmap_bind_list. apply list_bind_ext; [|reflexivity].
  intros [m r2].
  rewrite fmap_bind_list. apply list_bind_ext; [|reflexivity]. intros r3.
  rewrite fmap_bind_list. apply list_bind_ext; [|reflexivity].
  intros [d r4]. reflexivity.
Qed.

Lemma year_digits (y : Z) :
  0 <= y <= 9999 ->
  1000 * ((y / 1000) mod 10) + 100 * ((y / 100) mod 10)
  + 10 * ((y / 10) mod 10) + y mod 10 = y.
Proof. intros H. Z.div_mod_to_equations. lia. Qed.

Lemma two_digits (m : Z) :
  0 <= m <= 99 -> 10 * ((m / 10) mod 10) + m mod 10 = m.
Proof. intros H. Z.div_mod_to_equations. lia. Qed.

Lemma mod10_range (k : Z) : 0 <= k mod 10 < 10.
Proof. apply Z.mod_pos_bound. lia. Qed.

(** [strptime] on the text "YYYY-MM-DD" of three numbers. *)
Lemma strptime_date_text (y m d : Z) :
  0 <= y <= 9999 -> 0 <= m <= 99 -> 0 <= d <= 99 ->
  strptime (date_text y m d)
  = if valid_date y m d then Ok {| year := y; month := m; day := d |}
    else Raise ValueError.
Proof.
  intros Hy Hm Hd. unfold strptime, date_text, fmt4, fmt2.
  change (list_ascii_of_string _)
    with (digit_char (y / 1000) :: digit_char (y / 100)
          :: digit_char (y / 10) :: digit_char y
          :: month_day_text (m / 10) m (d / 10) d).
  rewrite pattern_match_year.
  rewrite (digit_char_mod (y / 1000)), (digit_char_mod (y / 100)),
    (digit_char_mod (y / 10)), (digit_char_mod y).
  destruct (digit_char_facts _ (mod10_range (y / 1000))) as [D1 V1].
  destruct (digit_char_facts _ (mod10_range (y / 100))) as [D2 V2].
  destruct (digit_char_facts _ (mod10_range (y / 10))) as [D3 V3].
  destruct (digit_char_facts _ (mod10_range y)) as [D4 V4].
  rewrite D1, D2, D3, D4, V1, V2, V3, V4, (year_digits y Hy). simpl andb.
  cbv iota.
  assert (E : month_day_text (m / 10) m (d / 10) d
              = month_day_text ((m / 10) mod 10) (m mod 10)
                  ((d / 10) mod 10) (d mod 10)).
  { unfold month_day_text.
    now rewrite (digit_char_mod (m / 10)), (digit_char_mod m),
      (digit_char_mod (d / 10)), (digit_char_mod d). }
  rewrite E.
  pose proof (month_day_checked_digits _ _ _ _ (mod10_range (m / 10))
                (mod10_range m) (mod10_range (d / 10)) (mod10_range d))
    as T.
  unfold month_day_checked in T. cbv zeta in T.
  rewrite (two_digits m Hm), (two_digits d Hd) in T.
  unfold valid_date.
  destruct (month_day_match _) as [[[m' d'] [|c r]]|]; simpl.
  - apply andb_true_iff in T as [T T3]. apply andb_true_iff in T as [T T2].
    apply Z.eqb_eq in T2, T3. subst m' d'. reflexivity.
  - apply negb_true_iff in T.
    destruct ((1 <=? y) && (1 <=? m) && (m <=? 12) && (1 <=? d)
              && (d <=? days_in_month y m)) eqn:V; [|reflexivity].
    exfalso. repeat (apply andb_true_iff in V as [V ?]).
    assert (days_in_month y m <= 31).
    { unfold days_in_month. repeat case_match; lia. }
    assert ((1 <=? m) && (m <=? 12) && (1 <=? d) && (d <=? 31) = true).
    { repeat (apply andb_true_iff; split); lia. }
    congruence.
  - apply negb_true_iff in T.
    destruct ((1 <=? y) && (1 <=? m) && (m <=? 12) && (1 <=? d)
              && (d <=? days_in_month y m)) eqn:V; [|reflexivity].
    exfalso. repeat (apply andb_true_iff in V as [V ?]).
    assert (days_in_month y m <= 31).
    { unfold days_in_month. repeat case_match; lia. }
    assert ((1 <=? m) && (m <=? 12) && (1 <=? d) && (d <=? 31) = true).
    { repeat (apply andb_true_iff; split); lia. }
    congruence.
Qed.

(** X13 (due dates in the form YYYY-MM-DD).  On the text "YYYY-MM-DD" of
    a year up to 9999 and two numbers up to 99, [strptime] answers the
    date when it is a date of the calendar, leap years included, and
    raises [ValueError] otherwise; so the [due] entry that [create_task]
    builds from such a text is the same text followed by "T00:00:00Z"
    for a date of the calendar, and absent otherwise. *)
Theorem due_date_in_canonical_form (y m d : Z) (e : Env) :
  0 <= y <= 9999 -> 0 <= m <= 99 -> 0 <= d <= 99 ->
  strptime (date_text y m d)
  = (if valid_date y m d then Ok {| year := y; month := m; day := d |}
     else Raise ValueError)
  /\ fst (due_entry (DueText (date_text y m d)) e)
     = Ok (if valid_date y m d
           then Some (date_text y m d +:+ "T00:00:00Z") else None).
Proof.
  intros Hy Hm Hd. split; [now apply strptime_date_text|].
  assert (E : fst (due_entry (DueText (date_text y m d)) e)
              = Ok (due_of (DueText (date_text y m d))))
    by (rewrite due_entry_spec; reflexivity).
  rewrite E. unfold due_of.
  assert (Ht : truthy (date_text y m d) = true) by reflexivity.
  rewrite Ht, (strptime_date_text y m d Hy Hm Hd).
  destruct (valid_date y m d); reflexivity.
Qed.

Lemma due_date_in_canonical_form_witness :
  strptime "2024-02-29" = Ok {| year := 2024; month := 2; day := 29 |}
  /\ fst (due_entry (DueText "2024-02-29") fresh_env)
     = Ok (Some "2024-02-29T00:00:00Z").
Proof.
  apply (due_date_in_canonical_form 2024 2 29 fresh_env); lia.
Defined.





(** ** The queries of the reader *)

Lemma map_res_all {A B} (f : A -> Res B) (xs : list A) (ys : list B)
    (x : A) :
  map_res f xs = Ok ys -> In x xs -> exists y, f x = Ok y /\ In y ys.
Proof.
  revert ys. induction xs as [|a xs IH]; simpl; intros ys; [intros _ []|].
  destruct (f a) as [y0|e] eqn:E; [|discriminate].
  destruct (map_res f xs) as [ys0|e]; [|discriminate].
  intros [= <-] [<-|Hx]; [exists y0; split; [exact E|now left]|].
  destruct (IH ys0 eq_refl Hx) as (y & Hf & Hy).
  exists y. split; [exact Hf|now right].
Qed.

Lemma task_uuid_of_ok (db : Database) (fk x : option string) :
  task_uuid_of db fk = Ok x -> x = fk.
Proof. unfold task_uuid_of. repeat case_match; congruence. Qed.

(** A task row that is not trashed has its dictionary in [get_tasks]. *)
Lemma row_task (db : Database) (all : list TaskDict) (r : TMTask) :
  get_tasks db = Ok all ->
  In r (tasks_table db) -> type r = 0 -> trashed r = 0 ->
  In {| td_uuid := uuid r; td_title := title r; td_notes := notes r;
        td_status := status r; td_due_date := dueDate r;
        td_project_uuid := project r; td_area_uuid := area r;
        td_heading_uuid := heading r |} all.
Proof.
  intros Ha Hr Ht Hd.
  destruct (map_res_all _ _ _ r Ha) as (y & Hf & Hy).
  { apply List.filter_In. split; [exact Hr|]. now rewrite Ht, Hd. }
  destruct (task_uuid_of db (project r)) as [pu|] eqn:E1; [|discriminate].
  destruct (area_uuid_of db (area r)) as [au|] eqn:E2; [|discriminate].
  destruct (task_uuid_of db (heading r)) as [hu|] eqn:E3; [|discriminate].
  apply task_uuid_of_ok in E1, E3. apply area_uuid_of_ok in E2.
  injection Hf as <-. now subst.
Qed.

(** X15 (the queries of the reader agree).  When [get_tasks] succeeds,
    every dictionary of [get_tasks_for_heading] and of
    [get_tasks_for_project] has its counterpart in the result of
    [get_tasks], with the same identifier, title, notes, status and due
    date; the counterpart of a task of a heading names that heading, and
    the counterpart of a task directly under a project names that
    project and no heading. *)
Theorem reader_queries_agree (db : Database)
    (all_things_tasks : list TaskDict) :
  get_tasks db = Ok all_things_tasks ->
  (forall h task, In task (get_tasks_for_heading db h) ->
     exists t,
       In t all_things_tasks
       /\ (td_uuid t, td_title t, td_notes t, td_status t, td_due_date t)
          = (sd_uuid task, sd_title task, sd_notes task, sd_status task,
             sd_due_date task)
       /\ td_heading_uuid t = Some h)
  /\ (forall p task, In task (get_tasks_for_project db p) ->
        exists t,
          In t all_things_tasks
          /\ (td_uuid t, td_title t, td_notes t, td_status t, td_due_date t)
             = (sd_uuid task, sd_title task, sd_notes task, sd_status task,
                sd_due_date task)
          /\ td_project_uuid t = Some p /\ td_heading_uuid t = None).
Proof.
  intros Ha. split.
  - intros h task Hin.
    destruct (heading_task_row db h task Hin) as (r & R1 & R2 & R3 & R4 & ->).
    eexists. split; [now apply (row_task db all_things_tasks r)|].
    simpl. auto.
  - intros p task Hin.
    destruct (direct_task_row db p task Hin)
      as (r & R1 & R2 & R3 & R4 & R5 & ->).
    eexists. split; [now apply (row_task db all_things_tasks r)|].
    simpl. auto.
Qed.

Lemma reader_queries_agree_witness :
  exists t,
    In t (match get_tasks sample_db with Ok l => l | Raise _ => [] end)
    /\ (td_uuid t, td_title t, td_notes t, td_status t, td_due_date t)
       = ("D", Some "Book venue", None, Some "incomplete", DueNone)
    /\ td_project_uuid t = Some "P" /\ td_heading_uuid t = None.
Proof.
  apply (proj2 (reader_queries_agree sample_db _ eq_refl) "P"
           (sub_task_dict
              (row "D" 0 "Book venue" None (Some "P") None DueNone))).
  simpl. auto.
Defined.

(** [get_projects] raises exactly for a project with an area that has no
    row. *)
Lemma get_projects_raises_iff (db : Database) :
  get_projects db = Raise DoesNotExist
  <-> exists p a,
        In p (tasks_table db) /\ type p = 1 /\ trashed p = 0
        /\ area p = Some a
        /\ forall x, In x (areas_table db) -> a_uuid x <> a.
Proof.
  split.
  - intros H. apply map_res_raises in H as (p & Hp & Hf).
    apply List.filter_In in Hp as [Hp Ht].
    apply andb_true_iff in Ht as [T1 T2]. apply Z.eqb_eq in T1, T2.
    unfold area_uuid_of in Hf. destruct (area p) as [a|] eqn:Ea;
      [|discriminate].
    destruct (existsb _ _) eqn:Ex; [discriminate|].
    exists p, a. repeat split; auto.
    intros x Hx Eq.
    assert (existsb (fun a0 => String.eqb (a_uuid a0) a) (areas_table db)
            = true); [|congruence].
    apply existsb_exists. exists x. split; [exact Hx|].
    now apply String.eqb_eq.
  - intros (p & a & Hp & T1 & T2 & Ea & Hn).
    destruct (get_projects db) as [projects|err] eqn:E.
    + destruct (map_res_all _ _ _ p E) as (y & Hf & _).
      { apply List.filter_In. split; [exact Hp|]. now rewrite T1, T2. }
      unfold area_uuid_of in Hf. rewrite Ea in Hf.
      destruct (existsb _ _) eqn:Ex; [|discriminate].
      apply existsb_exists in Ex as (x & Hx & Eq).
      apply String.eqb_eq in Eq. now destruct (Hn x Hx).
    + apply get_projects_raises in E. now subst.
Qed.

(** X16 (an error of the reader empties its step).  [get_projects] raises
    exactly when a project that is not trashed names an area without a
    row, and then step 2 creates nothing: the placed set stays empty and
    every task of the run comes from step 3.  In the same way, when
    [get_tasks] raises, step 3 creates nothing. *)
Theorem reader_error_empties_its_step (db : Database) (clean_slate : bool)
    (confirm : string) (e : Env) :
  let s' := snd (main db clean_slate confirm (initial e)) in
  (get_projects db = Raise DoesNotExist
   <-> exists p a,
         In p (tasks_table db) /\ type p = 1 /\ trashed p = 0
         /\ area p = Some a
         /\ forall x, In x (areas_table db) -> a_uuid x <> a)
  /\ (forall err, get_projects db = Raise err ->
        err = DoesNotExist
        /\ (forall u, u ∉ migrated_project_task_ids s')
        /\ forall site u g,
             In (Created site u g) (journal s') -> site = StandaloneSite)
  /\ (forall err, get_tasks db = Raise err ->
        err = DoesNotExist
        /\ forall u g, ~ In (Created StandaloneSite u g) (journal s')).
Proof.
  cbv zeta. split; [apply get_projects_raises_iff|]. split.
  - intros err E. split; [now apply get_projects_raises in E|].
    assert (J : forall site u g,
               In (Created site u g)
                 (journal (snd (main db clean_slate confirm (initial e)))) ->
               site = StandaloneSite).
    { intros site u g H.
      pose proof (copies_main db clean_slate confirm e _ H) as C.
      pose proof (hier_main db clean_slate confirm (initial e)) as K.
      assert (K0 : hierarchy_ok db (initial e)) by (intros ev []).
      specialize (K K0 _ H).
      assert (NP : forall p gp,
                 ~ In (Created ProjectSite p gp)
                     (journal (snd (main db clean_slate confirm
                                      (initial e))))).
      { intros p gp Hp.
        pose proof (copies_main db clean_slate confirm e _ Hp) as Cp.
        simpl in Cp. destruct Cp as (ps & _ & Eps & _). congruence. }
      destruct site as [|p|p h|p|]; simpl in K; [| | | |reflexivity].
      - now destruct (NP u g).
      - destruct K as (_ & gp & Hgp & _). now destruct (NP p gp).
      - destruct K as (_ & gh & Hgh & _).
        pose proof (hier_main db clean_slate confirm (initial e) K0 _ Hgh)
          as Kh. simpl in Kh. destruct Kh as (_ & gp & Hgp & _).
        now destruct (NP p gp).
      - destruct K as (_ & gp & Hgp & _). now destruct (NP p gp). }
    split; [|exact J].
    intros u Hu.
    destruct (placed_sound_main db clean_slate confirm e u Hu)
      as (site & g & H1 & H2 & _).
    apply J in H1. contradiction.
  - intros err E. split; [now apply get_tasks_raises in E|].
    intros u g H.
    pose proof (copies_main db clean_slate confirm e _ H) as C.
    simpl in C. destruct C as (all & _ & Ea & _). congruence.
Qed.

(** * Part IV: the start-up *)

Module StartupFacts.
Import Startup.

Lemma startup_bind_ok {A B} (m : M A) (k : A -> M B) (s : Sys) (a : A) (s' : Sys) :
  m s = (Ok a, s') -> bind m k s = k a s'.
Proof. unfold bind. now intros ->. Qed.

Lemma startup_bind_raise {A B} (m : M A) (k : A -> M B) (s : Sys) (e : Exn)
    (s' : Sys) :
  m s = (Raise e, s') -> bind m k s = (Raise e, s').
Proof. unfold bind. now intros ->. Qed.

(** The steps that only print leave [TOKEN_FILE] alone. *)
Ltac run :=
  unfold sys_exit, print, ret, raise, bind in *; simpl in *.

(** How the configuration resolution ends. *)
Lemma resolve_configuration_cases (w : World) (args : Args) (s : Sys) :
  let r := fst (resolve_configuration w args s) in
  let s' := snd (resolve_configuration w args s) in
  token_json s' = token_json s
  /\ match r with
     | Ok (d, c) =>
         (d = db_path args /\ c = creds_path args
          /\ (config_file args = None \/ config_file args = Some ""))
         \/ exists file m,
              config_file args = Some file /\ file <> ""
              /\ path_exists w file = true
              /\ import_file w file = Executes m
              /\ config_truthy m = true
              /\ d = py_or (db_path args) (config_get (THINGS_DB_PATH m))
              /\ c = py_or (creds_path args)
                       (config_get (GOOGLE_API_CREDENTIALS_PATH m))
     | Raise e =>
         exists file,
           config_file args = Some file /\ file <> ""
           /\ ((e = SystemExit 1
                /\ (path_exists w file = false
                    \/ import_file w file = NoSpec
                    \/ exists m, import_file w file = Executes m
                                 /\ config_truthy m = false))
               \/ (e = OtherException /\ path_exists w file = true
                   /\ import_file w file = ExecRaises))
     end.
Proof.
  cbv zeta. unfold resolve_configuration, load_config.
  destruct (config_file args) as [file|] eqn:Ef;
    [|simpl; split; [reflexivity|]; left; auto].
  destruct (truthy file) eqn:Tf.
  2: { simpl. split; [reflexivity|]. left. repeat split.
       right. f_equal. unfold truthy in Tf. apply negb_false_iff in Tf.
       now apply String.eqb_eq in Tf. }
  assert (Nf : file <> "") by now apply truthy_true.
  run. destruct (path_exists w file) eqn:Ex; simpl.
  2: { split; [reflexivity|]. exists file. split; [reflexivity|].
       split; [exact Nf|]. left. split; [reflexivity|]. left. exact Ex. }
  destruct (import_file w file) as [| |m] eqn:Ei; simpl.
  - split; [reflexivity|]. exists file. split; [reflexivity|].
    split; [exact Nf|]. left. split; [reflexivity|]. right. left. exact Ei.
  - split; [reflexivity|]. exists file. split; [reflexivity|].
    split; [exact Nf|]. right. split; [reflexivity|]. split; [exact Ex|].
    exact Ei.
  - assert (Hm : config_truthy m = true
                 \/ config_truthy m = false) by (destruct (config_truthy m); auto).
    destruct m as [d c]. unfold config_truthy in *. simpl in *.
    destruct d as [d|], c as [c|]; simpl; (split; [reflexivity|]).
    4: { exists file. split; [reflexivity|]. split; [exact Nf|]. left.
         split; [reflexivity|]. right. right. eexists.
         split; [exact Ei|reflexivity]. }
    all: right; eexists file, _; split; [reflexivity|];
      split; [exact Nf|]; split; [exact Ex|]; split; [exact Ei|];
      split; [reflexivity|]; split; reflexivity.
Qed.

(** How the path validation ends. *)
Lemma validate_paths_cases (w : World) (paths : option string * option string)
    (s : Sys) :
  token_json (snd (validate_paths w paths s)) = token_json s
  /\ match fst (validate_paths w paths s) with
     | Ok (db, cr) =>
         paths = (Some db, Some cr) /\ db <> "" /\ cr <> ""
         /\ path_exists w db = true /\ path_exists w cr = true
     | Raise e => e = SystemExit 1
     end.
Proof.
  unfold validate_paths. destruct paths as [[db|] [cr|]]; run; auto.
  - destruct (truthy db) eqn:Td; simpl; [|auto].
    destruct (truthy cr) eqn:Tc; simpl; [|auto].
    destruct (path_exists w db) eqn:Ed; simpl; [|auto].
    destruct (path_exists w cr) eqn:Ec; simpl; [|auto].
    apply truthy_true in Td, Tc. auto 10.
  - destruct (truthy db) eqn:Td; simpl; auto.
Qed.

(** [_authenticate] raises no [SystemExit]. *)
Lemma authenticate_no_exit (w : World) (cr : string) (s : Sys) (code : Z) :
  fst (authenticate w cr s) <> Raise (SystemExit code).
Proof.
  unfold authenticate, obtain_credentials, save_token, build_service,
    library, try_except.
  run.
  repeat (case_match; simpl in *; simplify_eq; try discriminate).
Qed.

(** How the initialisation of the two clients ends. *)
Lemma initialize_clients_cases (w : World) (db cr : string) (s : Sys) :
  match fst (initialize_clients w db cr s) with
  | Ok sv =>
      path_exists w db = true /\ db_opens w db = true
      /\ exists s1,
           token_json s1 = token_json s
           /\ fst (authenticate w cr s1) = Ok sv
           /\ token_json (snd (initialize_clients w db cr s))
              = token_json (snd (authenticate w cr s1))
  | Raise e => e = SystemExit 1
  end.
Proof.
  unfold initialize_clients, ThingsReader_init, GoogleTasksClient_init.
  unfold bind at 1. unfold try_except at 1.
  destruct (path_exists w db) eqn:Ed; [|reflexivity].
  destruct (db_opens w db) eqn:Eo; [|reflexivity].
  run. unfold try_except.
  match goal with
  | |- context [authenticate w cr ?s0] => set (s1 := s0)
  end.
  pose proof (authenticate_no_exit w cr s1) as Hn.
  destruct (authenticate w cr s1) as [[sv|e] s2] eqn:Ea; simpl in *.
  - split; [reflexivity|]. split; [reflexivity|]. exists s1.
    rewrite Ea. auto.
  - destruct e; try reflexivity. now destruct (Hn code).
Qed.

(** [main_startup], stage by stage. *)
Lemma main_startup_stages (w : World) (args : Args) (s : Sys) :
  match fst (main_startup w args s) with
  | Ok (db, cr, sv) =>
      exists s1 s2,
        resolve_configuration w args s = (Ok (Some db, Some cr), s1)
        /\ validate_paths w (Some db, Some cr) s1 = (Ok (db, cr), s2)
        /\ fst (initialize_clients w db cr
                  {| token_json := token_json s2;
                     console := console s2
                                ++ [LineSummary db cr (clean_slate args)] |})
           = Ok sv
  | Raise e =>
      fst (resolve_configuration w args s) = Raise e
      \/ e = SystemExit 1
  end.
Proof.
  unfold main_startup. unfold bind at 1.
  destruct (resolve_configuration w args s) as [[paths|e] s1] eqn:E1;
    [|now left].
  unfold bind at 1.
  pose proof (validate_paths_cases w paths s1) as [_ V].
  destruct (validate_paths w paths s1) as [[[db cr]|e] s2] eqn:E2;
    simpl in V; [|now right].
  destruct V as (-> & _). unfold bind at 1. unfold print at 1.
  unfold bind at 1.
  pose proof (initialize_clients_cases w db cr
                {| token_json := token_json s2;
                   console := console s2
                              ++ [LineSummary db cr (clean_slate args)] |})
    as I.
  destruct (initialize_clients w db cr _) as [[sv|e] s3] eqn:E3.
  - exists s1, s2. split; [first [reflexivity|exact E1]|].
    split; [first [reflexivity|exact E2]|]. now rewrite E3.
  - right. exact I.
Qed.

(** X17 (the paths in use).  When the start-up of [main] gets to the
    clean-slate operation, the two paths in use are strings that are not
    empty and name existing files, and the database opened.  A path
    given on the command line wins; a path that is missing there, or
    empty, is the value the configuration file binds to its name. *)
Theorem main_startup_paths (w : World) (args : Args) (s : Sys)
    (db cr : string) (sv : Service) :
  fst (main_startup w args s) = Ok (db, cr, sv) ->
  (db <> "" /\ cr <> "" /\ path_exists w db = true
   /\ path_exists w cr = true /\ db_opens w db = true)
  /\ (truthy_opt (db_path args) = true -> db_path args = Some db)
  /\ (truthy_opt (creds_path args) = true -> creds_path args = Some cr)
  /\ (truthy_opt (db_path args) = false ->
      exists file m,
        config_file args = Some file /\ import_file w file = Executes m
        /\ THINGS_DB_PATH m = Some (Some db))
  /\ (truthy_opt (creds_path args) = false ->
      exists file m,
        config_file args = Some file /\ import_file w file = Executes m
        /\ GOOGLE_API_CREDENTIALS_PATH m = Some (Some cr)).
Proof.
  intros H. pose proof (main_startup_stages w args s) as St.
  rewrite H in St. destruct St as (s1 & s2 & E1 & E2 & E3).
  pose proof (resolve_configuration_cases w args s) as [_ R].
  rewrite E1 in R. simpl in R.
  pose proof (validate_paths_cases w (Some db, Some cr) s1) as [_ V].
  rewrite E2 in V. simpl in V. destruct V as (_ & V1 & V2 & V3 & V4).
  pose proof (initialize_clients_cases w db cr
                {| token_json := token_json s2;
                   console := console s2
                              ++ [LineSummary db cr (clean_slate args)] |})
    as I.
  rewrite E3 in I. destruct I as (_ & I2 & _).
  split; [auto 10|].
  destruct R as [(Rd & Rc & _)|(file & m & Ef & _ & _ & Ei & _ & Rd & Rc)].
  - rewrite <- Rd, <- Rc. simpl.
    rewrite (proj2 (truthy_true db) V1), (proj2 (truthy_true cr) V2).
    repeat split; auto; discriminate.
  - unfold py_or in Rd, Rc.
    split; [intros T; now rewrite T in Rd|].
    split; [intros T; now rewrite T in Rc|].
    split.
    + intros T. rewrite T in Rd. exists file, m.
      split; [exact Ef|]. split; [exact Ei|].
      unfold config_get in Rd. destruct (THINGS_DB_PATH m); congruence.
    + intros T. rewrite T in Rc. exists file, m.
      split; [exact Ef|]. split; [exact Ei|].
      unfold config_get in Rc.
      destruct (GOOGLE_API_CREDENTIALS_PATH m); congruence.
Qed.

Lemma main_startup_paths_witness :
  path_exists sample_world "main.sqlite" = true
  /\ path_exists sample_world "credentials.json" = true
  /\ db_opens sample_world "main.sqlite" = true.
Proof.
  destruct (main_startup_paths sample_world config_args first_run_sys
              "main.sqlite" "credentials.json" (Built flow_credentials)
              eq_refl) as [(_ & _ & Xd & Xc & Xo) _].
  split; [exact Xd|]. split; [exact Xc|exact Xo].
Defined.

(** X18 (a failed start-up exits with status 1).  When the start-up of
    [main] does not get to the clean-slate operation, the process ends
    with status 1, never 0: by [sys.exit(1)], or by the exception of a
    configuration module whose execution raises, which nothing
    catches. *)
Theorem main_startup_failures (w : World) (args : Args) (s : Sys)
    (e : Exn) :
  fst (main_startup w args s) = Raise e ->
  exit_status (fst (main_startup w args s)) = 1
  /\ (e = SystemExit 1
      \/ (e = OtherException
          /\ exists file,
               config_file args = Some file /\ path_exists w file = true
               /\ import_file w file = ExecRaises)).
Proof.
  intros H. pose proof (main_startup_stages w args s) as St.
  rewrite H in St |- *.
  assert (C : e = SystemExit 1
              \/ (e = OtherException
                  /\ exists file,
                       config_file args = Some file
                       /\ path_exists w file = true
                       /\ import_file w file = ExecRaises)).
  { destruct St as [St|St]; [|now left].
    pose proof (resolve_configuration_cases w args s) as [_ R].
    rewrite St in R.
    destruct R as (file & Ef & _ & [[-> _]|(-> & Ex & Ei)]); [now left|].
    right. split; [reflexivity|]. exists file. auto. }
  split; [|exact C]. destruct C as [->|[-> _]]; reflexivity.
Qed.

Lemma main_startup_failures_witness :
  exit_status (fst (main_startup no_secrets_world full_args first_run_sys))
  = 1.
Proof.
  refine (proj1 (main_startup_failures no_secrets_world full_args
                   first_run_sys (SystemExit 1) _)).
  reflexivity.
Defined.

(** X19 (a configuration file that gives nothing stops the run).  When a
    configuration file is named and is missing, or yields no module, or
    defines neither of the two names, [main] exits with status 1 and
    leaves [TOKEN_FILE] alone, even when both paths are given on the
    command line and are in order. *)
Theorem unusable_config_file_stops_the_run (w : World) (args : Args)
    (s : Sys) (file : string) :
  config_file args = Some file -> file <> "" ->
  path_exists w file = false
  \/ import_file w file = NoSpec
  \/ import_file w file
     = Executes {| THINGS_DB_PATH := None;
                   GOOGLE_API_CREDENTIALS_PATH := None |} ->
  fst (main_startup w args s) = Raise (SystemExit 1)
  /\ token_json (snd (main_startup w args s)) = token_json s.
Proof.
  intros Ef Nf H.
  assert (R : exists s1,
             resolve_configuration w args s = (Raise (SystemExit 1), s1)
             /\ token_json s1 = token_json s).
  { unfold resolve_configuration, load_config. rewrite Ef.
    rewrite (proj2 (truthy_true file) Nf). run.
    destruct (path_exists w file) eqn:Ex; simpl; [|eauto].
    destruct H as [H|[H|H]]; [discriminate| |]; rewrite H; simpl; eauto. }
  destruct R as (s1 & R1 & R2).
  unfold main_startup. rewrite (startup_bind_raise _ _ _ _ _ R1). simpl. auto.
Qed.

Lemma unusable_config_file_stops_the_run_witness :
  fst (main_startup empty_config_world full_args first_run_sys)
  = Raise (SystemExit 1).
Proof.
  refine (proj1 (unusable_config_file_stops_the_run empty_config_world
                   full_args first_run_sys "config.py" _ _ _)).
  - reflexivity.
  - discriminate.
  - right. right. reflexivity.
Defined.

(** *** [_authenticate] *)

Lemma obtain_credentials_cases (w : World) (cr : string)
    (creds : option Credentials) (s : Sys) (c : Credentials) :
  fst (obtain_credentials w cr creds s) = Ok c ->
  token_json (snd (obtain_credentials w cr creds s)) = Holds c
  /\ (creds = Some c
        /\ expired c && truthy_opt (refresh_token c) = false
      \/ (exists c0, creds = Some c0 /\ expired c0 = true
            /\ truthy_opt (refresh_token c0) = true
            /\ refresh w c0 = Some c)
      \/ (run_flow w cr = Some c /\ path_exists w cr = true
          /\ (creds = None
              \/ exists c0, creds = Some c0 /\ expired c0 = true
                   /\ truthy_opt (refresh_token c0) = true
                   /\ refresh w c0 = None))).
Proof.
  unfold obtain_credentials, save_token, library, try_except.
  destruct creds as [c0|].
  - destruct (expired c0) eqn:Ee; simpl.
    + destruct (truthy_opt (refresh_token c0)) eqn:Er; simpl.
      * destruct (refresh w c0) as [c1|] eqn:Ef; run.
        -- destruct (token_writable w); simpl; [|discriminate].
           intros [= ->]. split; [reflexivity|].
           right. left. exists c0. auto.
        -- destruct (path_exists w cr) eqn:Ex; simpl; [|discriminate].
           destruct (run_flow w cr) as [c1|] eqn:Efl; simpl; [|discriminate].
           destruct (token_writable w); simpl; [|discriminate].
           intros [= ->]. split; [reflexivity|].
           right. right. repeat split; auto. right. exists c0. auto.
      * run. destruct (token_writable w); simpl; [|discriminate].
        intros [= ->]. split; [reflexivity|]. left. rewrite Ee. auto.
    + run. destruct (token_writable w); simpl; [|discriminate].
      intros [= ->]. split; [reflexivity|]. left. rewrite Ee. auto.
  - run. destruct (path_exists w cr) eqn:Ex; simpl; [|discriminate].
    destruct (run_flow w cr) as [c1|] eqn:Efl; simpl; [|discriminate].
    destruct (token_writable w); simpl; [|discriminate].
    intros [= ->]. split; [reflexivity|].
    right. right. repeat split; auto.
Qed.

Lemma build_step_cases (w : World) (c : Credentials) (s : Sys) :
  token_json (snd (build_step w c s)) = token_json s
  /\ (forall sv, fst (build_step w c s) = Ok sv <-> build w c = BuildOk sv)
  /\ fst (build_step w c s) <> Raise FileNotFoundError.
Proof.
  unfold build_step, try_except, build_service.
  destruct (build w c) as [sv0| |]; run.
  - repeat split; try congruence.
  - repeat split; try congruence.
  - repeat split; try congruence.
Qed.


Lemma authenticate_from_token (w : World) (cr : string) (s : Sys) :
  authenticate w cr s
  = match token_json s with
    | NoFile => bind (obtain_credentials w cr None) (build_step w) s
    | Unreadable => (Raise OtherException, s)
    | Holds c =>
        if valid c then build_step w c s
        else bind (obtain_credentials w cr (Some c)) (build_step w) s
    end.
Proof.
  unfold authenticate, build_step.
  destruct (token_json s) as [| |c] eqn:E; unfold bind at 1; rewrite ?E;
    try reflexivity.
  destruct (valid c); reflexivity.
Qed.

(** X20 (the credentials in use).  When [_authenticate] returns a
    service, [TOKEN_FILE] holds the credentials the service was built
    with.  They are the stored ones, or what refreshing the stored,
    expired ones gave, or what the authorization flow gave, which runs
    only when no token was stored or refreshing failed. *)
Theorem credentials_in_use (w : World) (cr : string) (s : Sys)
    (sv : Service) :
  fst (authenticate w cr s) = Ok sv ->
  exists c,
    token_json (snd (authenticate w cr s)) = Holds c
    /\ build w c = BuildOk sv
    /\ (token_json s = Holds c
        \/ (exists c0, token_json s = Holds c0 /\ valid c0 = false
              /\ expired c0 = true
              /\ truthy_opt (refresh_token c0) = true
              /\ refresh w c0 = Some c)
        \/ (run_flow w cr = Some c /\ path_exists w cr = true
            /\ (token_json s = NoFile
                \/ exists c0, token_json s = Holds c0 /\ valid c0 = false
                     /\ expired c0 = true
                     /\ truthy_opt (refresh_token c0) = true
                     /\ refresh w c0 = None))).
Proof.
  rewrite authenticate_from_token.
  assert (K : forall creds,
             fst (bind (obtain_credentials w cr creds) (build_step w) s)
             = Ok sv ->
             exists c,
               fst (obtain_credentials w cr creds s) = Ok c
               /\ token_json
                    (snd (bind (obtain_credentials w cr creds)
                            (build_step w) s)) = Holds c
               /\ build w c = BuildOk sv).
  { intros creds. unfold bind.
    pose proof (obtain_credentials_cases w cr creds s) as O.
    destruct (obtain_credentials w cr creds s) as [[c|e] s1]; simpl in *;
      [|discriminate].
    intros H. exists c. destruct (O c eq_refl) as [O1 _].
    destruct (build_step_cases w c s1) as (B1 & B2 & _).
    rewrite B1. split; [reflexivity|]. split; [exact O1|].
    now apply B2. }
  destruct (token_json s) as [| |c0] eqn:Et.
  - intros H. destruct (K None H) as (c & Oc & Tc & Bc).
    exists c. split; [exact Tc|]. split; [exact Bc|].
    destruct (obtain_credentials_cases w cr None s c Oc)
      as [_ [[D _]|[(c1 & D & _)|(F & X & _)]]]; try discriminate.
    right. right. auto.
  - discriminate.
  - destruct (valid c0) eqn:Ev.
    + intros H. exists c0.
      destruct (build_step_cases w c0 s) as (B1 & B2 & _).
      rewrite B1. split; [exact Et|]. split; [now apply B2|]. now left.
    + intros H. destruct (K (Some c0) H) as (c & Oc & Tc & Bc).
      exists c. split; [exact Tc|]. split; [exact Bc|].
      destruct (obtain_credentials_cases w cr (Some c0) s c Oc)
        as [_ [[[= ->] _]|[(c1 & [= <-] & E1 & E2 & E3)
                          |(F & X & [D|(c1 & [= <-] & E1 & E2 & E3)])]]].
      * now left.
      * right. left. exists c0. auto.
      * discriminate.
      * right. right. repeat split; auto. right. exists c0. auto.
Qed.

Lemma credentials_in_use_witness :
  exists c,
    token_json (snd (authenticate sample_world "credentials.json"
                       first_run_sys)) = Holds c
    /\ build sample_world c = BuildOk (Built flow_credentials).
Proof.
  destruct (credentials_in_use sample_world "credentials.json"
              first_run_sys (Built flow_credentials) eq_refl)
    as (c & T & B & _).
  exists c. split; [exact T|exact B].
Defined.

(** X21 (a valid token is enough).  With valid credentials in
    [TOKEN_FILE], [_authenticate] depends on nothing but [build]: the
    credentials file is not consulted, nothing is refreshed, no
    authorization flow runs, and [TOKEN_FILE] is left as it is. *)
Theorem valid_token_is_enough (w w' : World) (cr cr' : string) (s : Sys)
    (c : Credentials) :
  token_json s = Holds c -> valid c = true ->
  build w c = build w' c ->
  authenticate w cr s = authenticate w' cr' s
  /\ token_json (snd (authenticate w cr s)) = token_json s
  /\ (forall sv, fst (authenticate w cr s) = Ok sv
                 <-> build w c = BuildOk sv).
Proof.
  intros Et Ev Eb. rewrite !authenticate_from_token, Et, Ev.
  destruct (build_step_cases w c s) as (B1 & B2 & _).
  split; [|split; [now rewrite B1|exact B2]].
  unfold build_step. now rewrite Eb.
Qed.

Lemma valid_token_is_enough_witness :
  authenticate sample_world "credentials.json"
    {| token_json := Holds flow_credentials; console := [] |}
  = authenticate no_secrets_world "nowhere.json"
      {| token_json := Holds flow_credentials; console := [] |}.
Proof.
  refine (proj1 (valid_token_is_enough sample_world no_secrets_world
                   "credentials.json" "nowhere.json"
                   {| token_json := Holds flow_credentials; console := [] |}
                   flow_credentials _ _ _)); reflexivity.
Defined.

(** When [_authenticate] raises [FileNotFoundError]. *)
Lemma authenticate_file_not_found (w : World) (cr : string) (s : Sys) :
  (fst (authenticate w cr s) = Raise FileNotFoundError
   <-> path_exists w cr = false
       /\ (token_json s = NoFile
           \/ exists c, token_json s = Holds c /\ valid c = false
                /\ expired c = true
                /\ truthy_opt (refresh_token c) = true
                /\ refresh w c = None))
  /\ (fst (authenticate w cr s) = Raise FileNotFoundError ->
      token_json (snd (authenticate w cr s)) = token_json s).
Proof.
  rewrite authenticate_from_token.
  assert (K : forall creds,
             (fst (bind (obtain_credentials w cr creds) (build_step w) s)
              = Raise FileNotFoundError
              <-> path_exists w cr = false
                  /\ (creds = None
                      \/ exists c, creds = Some c /\ expired c = true
                           /\ truthy_opt (refresh_token c) = true
                           /\ refresh w c = None))
             /\ (fst (bind (obtain_credentials w cr creds) (build_step w) s)
                 = Raise FileNotFoundError ->
                 token_json
                   (snd (bind (obtain_credentials w cr creds)
                           (build_step w) s)) = token_json s)).
  { intros creds. unfold bind.
    destruct (obtain_credentials w cr creds s) as [[c|e] s1] eqn:O.
    - destruct (build_step_cases w c s1) as (_ & _ & B3).
      pose proof (obtain_credentials_cases w cr creds s c) as C.
      rewrite O in C. destruct (C eq_refl) as [_ C'].
      split; [|intros H; now destruct B3].
      split; [intros H; now destruct B3|].
      intros [X D]. exfalso.
      destruct C' as [[-> C1]|[(c0 & -> & C1 & C2 & C3)|(_ & X' & _)]].
      + destruct D as [D|(c1 & [= <-] & D1 & D2 & _)]; [discriminate|].
        rewrite D1, D2 in C1. discriminate.
      + destruct D as [D|(c1 & [= <-] & _ & _ & D3)]; congruence.
      + congruence.
    - simpl. revert O.
      unfold obtain_credentials, save_token, library, try_except.
      destruct creds as [c0|].
      + destruct (expired c0) eqn:Ee; simpl.
        * destruct (truthy_opt (refresh_token c0)) eqn:Er; simpl.
          -- destruct (refresh w c0) as [c1|] eqn:Ef; run.
             ++ destruct (token_writable w); simpl; intros [= <- <-].
                split; [|discriminate]. split; [discriminate|].
                intros [_ [D|(c2 & [= <-] & _ & _ & D3)]]; congruence.
             ++ destruct (path_exists w cr) eqn:Ex; simpl.
                ** destruct (run_flow w cr) as [c1|]; simpl.
                   --- destruct (token_writable w); simpl; intros [= <- <-].
                       split; [|discriminate]. split; [discriminate|].
                       intros [D _]; discriminate.
                   --- intros [= <- <-]. split; [|discriminate].
                       split; [discriminate|]. intros [D _]; discriminate.
                ** intros [= <- <-]. split; [|reflexivity].
                   split; [|reflexivity]. intros _. split; [reflexivity|].
                   right. exists c0. auto.
          -- run. destruct (token_writable w); simpl; intros [= <- <-].
             split; [|discriminate]. split; [discriminate|].
             intros [_ [D|(c2 & [= <-] & _ & D2 & _)]]; congruence.
        * run. destruct (token_writable w); simpl; intros [= <- <-].
          split; [|discriminate]. split; [discriminate|].
          intros [_ [D|(c2 & [= <-] & D1 & _)]]; congruence.
      + run. destruct (path_exists w cr) eqn:Ex; simpl.
        * destruct (run_flow w cr) as [c1|]; simpl.
          -- destruct (token_writable w); simpl; intros [= <- <-].
             split; [|discriminate]. split; [discriminate|].
             intros [D _]; discriminate.
          -- intros [= <- <-]. split; [|discriminate].
             split; [discriminate|]. intros [D _]; discriminate.
        * intros [= <- <-]. split; [|reflexivity].
          split; [|reflexivity]. intros _. split; [reflexivity|]. now left. }
  destruct (token_json s) as [| |c0] eqn:Et.
  - destruct (K None) as [K1 K2]. split; [|exact K2].
    rewrite K1. split; intros [X D]; (split; [exact X|]); [now left|].
    now left.
  - simpl. split; [|discriminate]. split; [discriminate|].
    intros [_ [D|(c & D & _)]]; discriminate.
  - destruct (valid c0) eqn:Ev.
    + destruct (build_step_cases w c0 s) as (_ & _ & B3).
      split; [|intros H; now destruct B3].
      split; [intros H; now destruct B3|].
      intros [_ [D|(c & [= <-] & D & _)]]; congruence.
    + destruct (K (Some c0)) as [K1 K2]. split; [|exact K2].
      rewrite K1. split; intros [X D]; (split; [exact X|]); right.
      * destruct D as [D|(c & [= <-] & D)]; [discriminate|].
        exists c0. tauto.
      * destruct D as [D|(c & [= <-] & D)]; [discriminate|].
        exists c0. tauto.
Qed.

(** X22 (when the credentials file is missed).  [_authenticate] raises
    [FileNotFoundError] exactly when the credentials file does not exist
    and the authorization flow is needed: no token is stored, or the
    stored credentials are not valid, are expired with a refresh token,
    and refreshing them fails.  [TOKEN_FILE] is left as it is then. *)
Theorem credentials_file_missed (w : World) (cr : string) (s : Sys) :
  (fst (authenticate w cr s) = Raise FileNotFoundError
   <-> path_exists w cr = false
       /\ (token_json s = NoFile
           \/ exists c, token_json s = Holds c /\ valid c = false
                /\ expired c = true
                /\ truthy_opt (refresh_token c) = true
                /\ refresh w c = None))
  /\ (fst (authenticate w cr s) = Raise FileNotFoundError ->
      token_json (snd (authenticate w cr s)) = token_json s).
Proof. exact (authenticate_file_not_found w cr s). Qed.


(** X23 (stored credentials that cannot be refreshed are used as they
    are).  Stored credentials that are not valid, and are not expired or
    have no refresh token, are neither refreshed nor replaced: no
    authorization flow runs, they are written back to [TOKEN_FILE], and
    the service is built with them. *)
Theorem unrefreshable_credentials_used_as_they_are (w : World)
    (cr : string) (s : Sys) (c : Credentials) (sv : Service) :
  token_json s = Holds c -> valid c = false ->
  expired c && truthy_opt (refresh_token c) = false ->
  token_writable w = true -> build w c = BuildOk sv ->
  authenticate w cr s
  = (Ok sv, {| token_json := Holds c;
               console := console s ++ [LineTokenSaved; LineServiceBuilt] |}).
Proof.
  intros Et Ev Er Ew Eb. rewrite authenticate_from_token, Et, Ev.
  unfold obtain_credentials, build_step, save_token, try_except,
    build_service.
  rewrite Er, Ew. run. rewrite Eb. simpl.
  now rewrite <- app_assoc.
Qed.

Lemma unrefreshable_credentials_used_as_they_are_witness :
  fst (authenticate no_secrets_world "nowhere.json"
         {| token_json := Holds stale_credentials; console := [] |})
  = Ok (Built stale_credentials).
Proof.
  rewrite (unrefreshable_credentials_used_as_they_are no_secrets_world
             "nowhere.json"
             {| token_json := Holds stale_credentials; console := [] |}
             stale_credentials (Built stale_credentials)); reflexivity.
Defined.

(** *** What the start-up prints *)

Section Adds.
Context (P : Line -> Prop).

Lemma adds_silent {A} (m : M A) (s : Sys) :
  console (snd (m s)) = console s -> adds P m s.
Proof. intros H. exists []. now rewrite app_nil_r. Qed.

Lemma adds_ret {A} (a : A) (s : Sys) : adds P (ret a) s.
Proof. now apply adds_silent. Qed.

Lemma adds_raise {A} (e : Exn) (s : Sys) : adds P (@raise A e) s.
Proof. now apply adds_silent. Qed.

Lemma adds_print (l : Line) (s : Sys) : P l -> adds P (print l) s.
Proof. intros H. exists [l]. split; [reflexivity|]. now constructor. Qed.

Lemma adds_bind {A B} (m : M A) (k : A -> M B) (s : Sys) :
  adds P m s ->
  (forall a s', m s = (Ok a, s') -> adds P (k a) s') ->
  adds P (bind m k) s.
Proof.
  intros (o1 & E1 & F1) Hk. unfold adds, bind.
  destruct (m s) as [[a|e] s1] eqn:E; simpl in *.
  - destruct (Hk a s1 eq_refl) as (o2 & E2 & F2).
    exists (o1 ++ o2). rewrite E2, E1, app_assoc.
    split; [reflexivity|]. now apply Forall_app.
  - now exists o1.
Qed.

Lemma adds_try {A} (m : M A) (catches : Exn -> bool)
    (handler : Exn -> M A) (s : Sys) :
  adds P m s ->
  (forall e s', m s = (Raise e, s') -> catches e = true ->
                adds P (handler e) s') ->
  adds P (try_except m catches handler) s.
Proof.
  intros (o1 & E1 & F1) Hh. unfold adds, try_except.
  destruct (m s) as [[a|e] s1] eqn:E; simpl in *.
  - now exists o1.
  - destruct (catches e) eqn:C; [|now exists o1].
    destruct (Hh e s1 eq_refl C) as (o2 & E2 & F2).
    exists (o1 ++ o2). rewrite E2, E1, app_assoc.
    split; [reflexivity|]. now apply Forall_app.
Qed.

Lemma adds_library {A} (r : option A) (s : Sys) : adds P (library r) s.
Proof. destruct r; [apply adds_ret|apply adds_raise]. Qed.

Lemma adds_save_token (w : World) (c : Credentials) (s : Sys) :
  adds P (save_token w c) s.
Proof.
  unfold save_token. destruct (token_writable w);
    now apply adds_silent.
Qed.

End Adds.

Ltac add_lines :=
  repeat first
    [ apply adds_ret | apply adds_raise | apply adds_library
    | apply adds_save_token
    | apply adds_print; reflexivity
    | apply adds_bind; [|intros ? ? _]
    | apply adds_try; [|intros ? ? _ _] ].

Lemma adds_authenticate (w : World) (cr : string) (s : Sys) :
  adds (fun l => not_found_line l = false) (authenticate w cr) s.
Proof.
  unfold authenticate, obtain_credentials, build_service.
  apply adds_bind.
  { apply adds_silent. now destruct (token_json s). }
  intros creds s1 _. apply adds_bind.
  - destruct creds as [c|]; [destruct (valid c)|]; add_lines;
      try (destruct (expired c && truthy_opt (refresh_token c)); add_lines);
      try (match goal with |- context [Some ?x] => idtac end;
           repeat case_match; add_lines).
    all: repeat case_match; add_lines.
  - intros c s2 _. apply adds_try.
    + destruct (build w c); add_lines.
    + intros e s3 _ _. add_lines.
Qed.

Lemma adds_main_startup (w : World) (args : Args) (s : Sys) :
  adds (fun l => not_found_line l = false) (main_startup w args) s.
Proof.
  unfold main_startup. apply adds_bind.
  { unfold resolve_configuration, load_config, sys_exit.
    repeat case_match; add_lines; repeat case_match; add_lines. }
  intros paths s1 _. apply adds_bind.
  { unfold validate_paths, sys_exit.
    repeat case_match; add_lines. }
  intros [db cr] s2 V.
  pose proof (validate_paths_cases w paths s1) as [_ C].
  rewrite V in C. simpl in C. destruct C as (_ & _ & _ & Xd & Xc).
  apply adds_bind; [add_lines|]. intros _ s3 _.
  apply adds_bind; [|intros; add_lines].
  unfold initialize_clients, ThingsReader_init, GoogleTasksClient_init,
    sys_exit.
  rewrite Xd. simpl. apply adds_bind.
  - apply adds_try.
    + destruct (db_opens w db); add_lines.
    + intros e s4 E _. destruct (db_opens w db); unfold bind, ret, raise,
        print in E; simpl in E; simplify_eq. simpl. add_lines.
  - intros _ s4 _. apply adds_try.
    + apply adds_bind; [apply adds_authenticate|]. intros; add_lines.
    + intros e s5 E _.
      assert (N : e <> FileNotFoundError).
      { intros ->.
        assert (F : fst (authenticate w cr s4) = Raise FileNotFoundError).
        { unfold bind in E. destruct (authenticate w cr s4) as [[a|e] s6];
            simpl in *; [discriminate|congruence]. }
        apply (proj1 (authenticate_file_not_found w cr s4)) in F.
        destruct F as [F _]. congruence. }
      destruct e; simpl; try add_lines. now destruct N.
Qed.

(** X24 (the handlers of [FileNotFoundError] stay unused).  Whatever the
    arguments and the files are, the start-up of [main] prints neither
    of the two messages of its [except FileNotFoundError] branches: both
    paths were checked with [os.path.exists] before the clients are
    made. *)
Theorem file_not_found_handlers_unused (w : World) (args : Args)
    (s : Sys) :
  exists out,
    console (snd (main_startup w args s)) = console s ++ out
    /\ ~ In LineReaderNotFound out /\ ~ In LineClientNotFound out.
Proof.
  destruct (adds_main_startup w args s) as (out & E & F).
  exists out. split; [exact E|].
  rewrite List.Forall_forall in F.
  split; intros H; apply F in H; discriminate.
Qed.

End StartupFacts.
